(** * ReceiptProcessor: the scorer and the score store of [main.go]

    A shallow embedding of [calculatePoints], [processReceipt] and [getPoints]
    together with the parts of Go's standard library they call
    ([strconv.ParseFloat], [math.Floor], [math.Ceil], [math.Mod],
    [strings.TrimSpace], [time.Parse], [regexp]), followed by the properties
    of the scoring rules and of the store. *)

From Stdlib Require Import ZArith Lia List Bool Ascii String.
From Stdlib Require Import Floats.SpecFloat.
From stdpp Require Import gmap strings.

Local Open Scope string_scope.
Local Open Scope Z_scope.

(** ** Bytes

    A Go [string] is a sequence of bytes; it is embedded as a [string], whose
    characters are the bytes. *)

Definition byte_val (c : ascii) : Z := Z.of_N (N_of_ascii c).

Definition byte_in (lo hi c : ascii) : bool :=
  (byte_val lo <=? byte_val c) && (byte_val c <=? byte_val hi).

Definition byte_eq (a b : ascii) : bool := byte_val a =? byte_val b.

Definition isDigit (c : ascii) : bool := byte_in "0"%char "9"%char c.

(** [int(c - '0')] *)
Definition digit_val (c : ascii) : Z := byte_val c - 48.

(** [len(s)] *)
Definition len (s : string) : Z := Z.of_nat (String.length s).

(** ** IEEE 754 binary64, as Go's [float64]

    Values are [spec_float]s of precision 53 and maximal exponent 1024; all
    roundings are to nearest, ties to even. *)

Module Float64.

Abbreviation float64 := spec_float.

Definition prec : Z := 53.
Definition emax : Z := 1024.

Definition mul : float64 -> float64 -> float64 := SFmul prec emax.
Definition eqb : float64 -> float64 -> bool := SFeqb.
Definition neg : float64 -> float64 := SFopp.

(** The float nearest to the integer [n]. *)
Definition ofZ (n : Z) : float64 := binary_normalize prec emax n 0 false.

(** The float nearest to [(-1)^s * m * 2^e], for [0 <= m]. *)
Definition ofBinary (s : bool) (m e : Z) : float64 :=
  binary_normalize prec emax (cond_Zopp s m) e s.

(** The float nearest to [(-1)^s * n / d], for [0 <= n] and [0 < d]. *)
Definition ofRatio (s : bool) (n d : Z) : float64 :=
  if n =? 0 then S754_zero s
  else
    let '(q, e, l) := SFdiv_core_binary prec emax n 0 d 0 in
    binary_round_aux prec emax s q e l.

(** The float nearest to [(-1)^s * m * 10^e], for [0 <= m]. *)
Definition ofDecimal (s : bool) (m e : Z) : float64 :=
  ofRatio s (m * 10 ^ Z.max e 0) (10 ^ Z.max (- e) 0).

Definition isInf (x : float64) : bool :=
  match x with S754_infinity _ => true | _ => false end.

(** [math.Floor]: the greatest integer value not above [x];
    [Floor(±0) = ±0], [Floor(±Inf) = ±Inf], [Floor(NaN) = NaN]. *)
Definition Floor (x : float64) : float64 :=
  match x with
  | S754_finite s m e =>
      if 0 <=? e then x
      else
        let k := Z.shiftr (Zpos m) (- e) in
        let whole := Z.shiftl k (- e) =? Zpos m in
        if s then neg (ofZ (if whole then k else k + 1)) else ofZ k
  | _ => x
  end.

(** [math.Ceil]: [-Floor(-x)]. *)
Definition Ceil (x : float64) : float64 := neg (Floor (neg x)).

(** [math.Mod]: the remainder of [x / y], with the sign of [x] and a
    magnitude below that of [y]; it is computed exactly.
    [Mod(±Inf, y) = Mod(NaN, y) = Mod(x, 0) = Mod(x, NaN) = NaN],
    [Mod(x, ±Inf) = x]. *)
Definition Mod (x y : float64) : float64 :=
  match x, y with
  | S754_nan, _ => S754_nan
  | S754_infinity _, _ => S754_nan
  | _, S754_nan => S754_nan
  | _, S754_zero _ => S754_nan
  | S754_zero _, _ => x
  | S754_finite _ _ _, S754_infinity _ => x
  | S754_finite sx mx ex, S754_finite _ my ey =>
      let e0 := Z.min ex ey in
      let X := Z.shiftl (Zpos mx) (ex - e0) in
      let Y := Z.shiftl (Zpos my) (ey - e0) in
      ofBinary sx (X mod Y) e0
  end.

(** The integer part of a finite [x], towards zero. *)
Definition truncZ (x : float64) : option Z :=
  match x with
  | S754_zero _ => Some 0
  | S754_finite s m e =>
      Some (cond_Zopp s (if 0 <=? e then Z.shiftl (Zpos m) e
                         else Z.shiftr (Zpos m) (- e)))
  | _ => None
  end.

(** [x] is a zero, a number or an infinity of sign [s]. *)
Definition has_sign (s : bool) (x : float64) : Prop :=
  match x with
  | S754_zero s' | S754_infinity s' | S754_finite s' _ _ => s' = s
  | S754_nan => False
  end.

(** [0 <= x], as Go compares floats. *)
Definition nonnegative (x : float64) : bool := SFleb (S754_zero false) x.

(** [x < 0], as Go compares floats. *)
Definition negative (x : float64) : bool := SFltb x (S754_zero false).

End Float64.

Import Float64.

(** ** Go's [int]

    64 bits wide, two's complement; arithmetic wraps around. *)

Definition minInt : Z := - 2 ^ 63.
Definition maxInt : Z := 2 ^ 63 - 1.

Definition wrap (n : Z) : Z := (n + 2 ^ 63) mod 2 ^ 64 - 2 ^ 63.

Definition inInt (n : Z) : bool := (minInt <=? n) && (n <=? maxInt).

(** [a + b] on [int]. *)
Definition int_add (a b : Z) : Z := wrap (a + b).

(** A conversion [int(x)] of a [float64] truncates towards zero when the
    integer part of [x] fits [int]; when it does not (also for NaN and the
    infinities) the language leaves the result to the implementation, which
    is what a [Platform] supplies. *)
Class Platform := { float_to_int_unrepresentable : float64 -> Z }.

Definition int_of_float `{Platform} (x : float64) : Z :=
  match truncZ x with
  | Some n => if inInt n then n else wrap (float_to_int_unrepresentable x)
  | None => wrap (float_to_int_unrepresentable x)
  end.

(** The integer part of [x] fits [int]. *)
Definition representable (x : float64) : bool :=
  match truncZ x with
  | Some n => inInt n
  | None => false
  end.

(** On amd64 the conversion instruction yields the least [int] for every
    value it cannot represent. *)
Definition amd64 : Platform := {| float_to_int_unrepresentable := fun _ => minInt |}.

(** On arm64 the conversion saturates, and NaN gives 0. *)
Definition arm64 : Platform :=
  {| float_to_int_unrepresentable := fun x =>
       match x with
       | S754_infinity s => if s then minInt else maxInt
       | S754_finite s _ _ => if s then minInt else maxInt
       | _ => 0
       end |}.

(** ** [strconv.ParseFloat(s, 64)]

    The accepted texts are those of Go's [readFloat] and [special]: an
    optional sign, then decimal digits with at most one point and an optional
    [e] exponent, or [0x] and hexadecimal digits with a mandatory [p]
    exponent, with underscores between digits; or (any case) [inf],
    [infinity] with an optional sign, or [nan]. The value is the float
    nearest to the number written. *)

Module strconv.

Inductive NumError := ErrSyntax | ErrRange.

(** [lower(c)]: [c | ('x' - 'X')]. *)
Definition lower (c : ascii) : ascii := ascii_of_N (N.lor (N_of_ascii c) 32).

Fixpoint commonPrefixLenIgnoreCase (s prefix : string) : Z :=
  match s, prefix with
  | String c s', String p prefix' =>
      let c := if byte_in "A"%char "Z"%char c then lower c else c in
      if byte_eq c p then 1 + commonPrefixLenIgnoreCase s' prefix' else 0
  | _, _ => 0
  end.

Fixpoint drop (n : nat) (s : string) : string :=
  match n, s with
  | S n', String _ s' => drop n' s'
  | _, _ => s
  end.

(** [special(s)]: the value and the text left after it. *)
Definition special (s : string) : option (float64 * string) :=
  let infinity (sign : bool) (t : string) :=
    let n := commonPrefixLenIgnoreCase t "infinity" in
    let n := if (3 <? n) && (n <? 8) then 3 else n in
    if (n =? 3) || (n =? 8) then Some (S754_infinity sign, drop (Z.to_nat n) t)
    else None in
  match s with
  | EmptyString => None
  | String c s' =>
      if byte_eq c "+"%char then infinity false s'
      else if byte_eq c "-"%char then infinity true s'
      else if byte_eq (lower c) "i"%char then infinity false s
      else if byte_eq (lower c) "n"%char then
        if commonPrefixLenIgnoreCase s "nan" =? 3 then Some (S754_nan, drop 3 s)
        else None
      else None
  end.

(** The state of [readFloat]'s loop over the digits. [mantissa] holds every
    significant digit read (Go keeps the first 19, or 16 in base 16, with a
    flag for the rest, and rereads the text when the flag matters), so the
    exponent below counts from [nd] where Go counts from [ndMant]. *)
Record digits := {
  sawdot : bool;
  sawdigits : bool;
  nd : Z;
  dp : Z;
  mantissa : Z;
  underscores : bool
}.

Fixpoint readDigits (hex : bool) (st : digits) (s : string) : digits * string :=
  match s with
  | EmptyString => (st, s)
  | String c s' =>
      if byte_eq c "_"%char then
        readDigits hex {| sawdot := sawdot st; sawdigits := sawdigits st;
                          nd := nd st; dp := dp st; mantissa := mantissa st;
                          underscores := true |} s'
      else if byte_eq c "."%char then
        if sawdot st then (st, s)
        else
          readDigits hex {| sawdot := true; sawdigits := sawdigits st;
                            nd := nd st; dp := nd st; mantissa := mantissa st;
                            underscores := underscores st |} s'
      else if isDigit c then
        if byte_eq c "0"%char && (nd st =? 0) then
          readDigits hex {| sawdot := sawdot st; sawdigits := true;
                            nd := nd st; dp := dp st - 1; mantissa := mantissa st;
                            underscores := underscores st |} s'
        else
          readDigits hex {| sawdot := sawdot st; sawdigits := true;
                            nd := nd st + 1; dp := dp st;
                            mantissa := mantissa st * (if hex then 16 else 10) + digit_val c;
                            underscores := underscores st |} s'
      else if hex && byte_in "a"%char "f"%char (lower c) then
        readDigits hex {| sawdot := sawdot st; sawdigits := true;
                          nd := nd st + 1; dp := dp st;
                          mantissa := mantissa st * 16 + (byte_val (lower c) - 97 + 10);
                          underscores := underscores st |} s'
      else (st, s)
  end.

(** The exponent's digits; the value stops growing at 10000. *)
Fixpoint readExponent (e : Z) (us : bool) (s : string) : Z * bool * string :=
  match s with
  | EmptyString => (e, us, s)
  | String c s' =>
      if isDigit c then
        readExponent (if e <? 10000 then e * 10 + digit_val c else e) us s'
      else if byte_eq c "_"%char then readExponent e true s'
      else (e, us, s)
  end.

(** [underscoreOK]: an underscore stands only between digits, or between a
    base prefix and a digit. [saw] is 0 at the start, 1 after a digit or a
    base prefix, 2 after an underscore and 3 after anything else. *)
Fixpoint underscoreLoop (hex : bool) (saw : Z) (s : string) : bool :=
  match s with
  | EmptyString => negb (saw =? 2)
  | String c s' =>
      if isDigit c || (hex && byte_in "a"%char "f"%char (lower c)) then
        underscoreLoop hex 1 s'
      else if byte_eq c "_"%char then
        if saw =? 1 then underscoreLoop hex 2 s' else false
      else if saw =? 2 then false
      else underscoreLoop hex 3 s'
  end.

Definition underscoreOK (s : string) : bool :=
  let s :=
    match s with
    | String c s' => if byte_eq c "-"%char || byte_eq c "+"%char then s' else s
    | EmptyString => s
    end in
  match s with
  | String c0 (String c1 s'') =>
      if byte_eq c0 "0"%char &&
         (byte_eq (lower c1) "b"%char || byte_eq (lower c1) "o"%char
          || byte_eq (lower c1) "x"%char)
      then underscoreLoop (byte_eq (lower c1) "x"%char) 1 s''
      else underscoreLoop false 0 s
  | _ => underscoreLoop false 0 s
  end.

(** The first [n] bytes of [s]. *)
Fixpoint take (n : nat) (s : string) : string :=
  match n, s with
  | S n', String c s' => String c (take n' s')
  | _, _ => EmptyString
  end.

(** What [readFloat] returns when it succeeds: the sign, the base, the
    mantissa, the exponent of the base (10, or 2 in base 16) and the text
    left. *)
Record number := {
  num_neg : bool;
  num_hex : bool;
  num_mantissa : Z;
  num_exp : Z;
  num_rest : string
}.

Definition readFloat (s : string) : option number :=
  match s with
  | EmptyString => None
  | String c0 s0 =>
      let '(sign, s1) :=
        if byte_eq c0 "+"%char then (false, s0)
        else if byte_eq c0 "-"%char then (true, s0)
        else (false, s) in
      let '(hex, s2) :=
        match s1 with
        | String z (String x (String c s3)) =>
            if byte_eq z "0"%char && byte_eq (lower x) "x"%char
            then (true, String c s3) else (false, s1)
        | _ => (false, s1)
        end in
      let '(st, s3) :=
        readDigits hex {| sawdot := false; sawdigits := false; nd := 0; dp := 0;
                          mantissa := 0; underscores := false |} s2 in
      if negb (sawdigits st) then None
      else
        let dp := if sawdot st then dp st else nd st in
        let dp := if hex then dp * 4 else dp in
        let nd := if hex then nd st * 4 else nd st in
        let finish (dp : Z) (us : bool) (rest : string) :=
          let consumed := take (String.length s - String.length rest) s in
          if us && negb (underscoreOK consumed) then None
          else Some {| num_neg := sign; num_hex := hex;
                       num_mantissa := mantissa st;
                       num_exp := if mantissa st =? 0 then 0 else dp - nd;
                       num_rest := rest |} in
        match s3 with
        | String c s4 =>
            if byte_eq (lower c) (if hex then "p"%char else "e"%char) then
              match s4 with
              | EmptyString => None
              | String c' s5 =>
                  let '(esign, s6) :=
                    if byte_eq c' "+"%char then (1, s5)
                    else if byte_eq c' "-"%char then (-1, s5)
                    else (1, s4) in
                  match s6 with
                  | EmptyString => None
                  | String d _ =>
                      if isDigit d then
                        let '(e, us, rest) := readExponent 0 (underscores st) s6 in
                        finish (dp + e * esign) us rest
                      else None
                  end
              end
            else if hex then None
            else finish dp (underscores st) s3
        | EmptyString => if hex then None else finish dp (underscores st) s3
        end
  end.

(** [atof64]: the value, the text left and the error. A value too large
    for a [float64] gives an infinity and [ErrRange]; a value too small
    gives a subnormal number or a zero and no error. *)
Definition atof64 (s : string) : float64 * string * option NumError :=
  match special s with
  | Some (val, rest) => (val, rest, None)
  | None =>
      match readFloat s with
      | None => (S754_zero false, s, Some ErrSyntax)
      | Some n =>
          let f :=
            if num_hex n then ofBinary (num_neg n) (num_mantissa n) (num_exp n)
            else ofDecimal (num_neg n) (num_mantissa n) (num_exp n) in
          (f, num_rest n, if isInf f then Some ErrRange else None)
      end
  end.

Definition ParseFloat (s : string) : float64 * option NumError :=
  let '(f, rest, err) := atof64 s in
  match rest, err with
  | EmptyString, _ => (f, err)
  | _, Some ErrSyntax => (f, err)
  | _, _ => (S754_zero false, Some ErrSyntax)
  end.

End strconv.

(** ** [strings.TrimSpace]

    White space is what [unicode.IsSpace] accepts: the six ASCII characters
    tab, line feed, vertical tab, form feed, carriage return and space, and
    the runes U+0085, U+00A0, U+1680, U+2000 to U+200A, U+2028, U+2029,
    U+202F, U+205F and U+3000. A rune is read from the bytes as UTF-8; the
    bytes at an end of the text are one of those runes exactly when they are
    its encoding, all of whose trailing bytes are continuation bytes. *)

Module strings.

Definition asciiSpace (c : ascii) : bool :=
  byte_in "009"%char "013"%char c || byte_eq c " "%char.

(** The encodings of the white space runes above U+007F. *)
Definition spaceEncodings : list (list Z) :=
  [ [0xC2; 0x85]; [0xC2; 0xA0]; [0xE1; 0x9A; 0x80];
    [0xE2; 0x80; 0x80]; [0xE2; 0x80; 0x81]; [0xE2; 0x80; 0x82];
    [0xE2; 0x80; 0x83]; [0xE2; 0x80; 0x84]; [0xE2; 0x80; 0x85];
    [0xE2; 0x80; 0x86]; [0xE2; 0x80; 0x87]; [0xE2; 0x80; 0x88];
    [0xE2; 0x80; 0x89]; [0xE2; 0x80; 0x8A]; [0xE2; 0x80; 0xA8];
    [0xE2; 0x80; 0xA9]; [0xE2; 0x80; 0xAF]; [0xE2; 0x81; 0x9F];
    [0xE3; 0x80; 0x80] ].

Definition isSpace2 (a b : ascii) : bool :=
  existsb (fun e => match e with
                    | [x; y] => (byte_val a =? x) && (byte_val b =? y)
                    | _ => false
                    end) spaceEncodings.

Definition isSpace3 (a b c : ascii) : bool :=
  existsb (fun e => match e with
                    | [x; y; z] =>
                        (byte_val a =? x) && (byte_val b =? y) && (byte_val c =? z)
                    | _ => false
                    end) spaceEncodings.

(** [TrimLeftFunc(s, unicode.IsSpace)] *)
Fixpoint trimLeft (s : list ascii) : list ascii :=
  match s with
  | a :: s1 =>
      if asciiSpace a then trimLeft s1
      else
        match s1 with
        | b :: s2 =>
            if isSpace2 a b then trimLeft s2
            else
              match s2 with
              | c :: s3 => if isSpace3 a b c then trimLeft s3 else s
              | [] => s
              end
        | [] => s
        end
  | [] => s
  end.

(** The same from the other end, on the reversed bytes. *)
Fixpoint trimLeftRev (s : list ascii) : list ascii :=
  match s with
  | a :: s1 =>
      if asciiSpace a then trimLeftRev s1
      else
        match s1 with
        | b :: s2 =>
            if isSpace2 b a then trimLeftRev s2
            else
              match s2 with
              | c :: s3 => if isSpace3 c b a then trimLeftRev s3 else s
              | [] => s
              end
        | [] => s
        end
  | [] => s
  end.

(** [TrimRightFunc(s, unicode.IsSpace)] *)
Definition trimRight (s : list ascii) : list ascii := rev (trimLeftRev (rev s)).

Definition TrimSpace (s : string) : string :=
  string_of_list_ascii (trimRight (trimLeft (list_ascii_of_string s))).

End strings.

(** ** [regexp]: the matches of [[a-zA-Z0-9]]

    [FindAllString(s, -1)] lists the successive matches; each match of this
    expression is one byte, a letter or a digit, so their number is the count
    of such bytes. *)

Module regexp.

Definition alphanumeric (c : ascii) : bool :=
  byte_in "a"%char "z"%char c || byte_in "A"%char "Z"%char c
  || byte_in "0"%char "9"%char c.

Fixpoint FindAllString (s : string) : list string :=
  match s with
  | EmptyString => []
  | String c s' =>
      if alphanumeric c then String c EmptyString :: FindAllString s'
      else FindAllString s'
  end.

End regexp.

(** ** [time]: [Parse] for the two layouts of [main.go], [Day], [After], [Before]

    A [Time] is an instant without a zone (every time here is UTC), counted
    in seconds from January 1 of year 1, 00:00:00, the zero [Time]. *)

Module time.

Record Time := { seconds : Z }.

(** [Time{}] *)
Definition zero : Time := {| seconds := 0 |}.

Inductive ParseError := BadValue | ExtraText | OutOfRange.

Definition isLeap (year : Z) : bool :=
  (Z.rem year 4 =? 0) && (negb (Z.rem year 100 =? 0) || (Z.rem year 400 =? 0)).

(** [daysBefore[m]]: the days of a common year before month [m + 1]. *)
Definition daysBefore (m : Z) : Z :=
  nth (Z.to_nat m) [0; 31; 59; 90; 120; 151; 181; 212; 243; 273; 304; 334; 365] 0.

Definition daysIn (month year : Z) : Z :=
  if (month =? 2) && isLeap year then 29
  else daysBefore month - daysBefore (month - 1).

(** The days from January 1 of year 1 to January 1 of [year]. *)
Definition daysSinceEpoch (year : Z) : Z :=
  let y := year - 1 in
  let n400 := y / 400 in
  let y := y - 400 * n400 in
  let n100 := y / 100 in
  let y := y - 100 * n100 in
  let n4 := y / 4 in
  let y := y - 4 * n4 in
  146097 * n400 + 36524 * n100 + 1461 * n4 + 365 * y.

(** [Date(year, month, day, hour, min, 0, 0, UTC)], for a month and a day
    in range. *)
Definition Date (year month day hour min : Z) : Time :=
  let d := daysSinceEpoch year + daysBefore (month - 1)
           + (if isLeap year && (3 <=? month) then 1 else 0)
           + (day - 1) in
  {| seconds := d * 86400 + hour * 3600 + min * 60 |}.

(** [t.Day()]: the day of the month of [t]. *)
Definition Day (t : Time) : Z :=
  let d := seconds t / 86400 in
  let n := d / 146097 in
  let y := 400 * n in
  let d := d - 146097 * n in
  let n := d / 36524 in
  let n := n - Z.shiftr n 2 in
  let y := y + 100 * n in
  let d := d - 36524 * n in
  let n := d / 1461 in
  let y := y + 4 * n in
  let d := d - 1461 * n in
  let n := d / 365 in
  let n := n - Z.shiftr n 2 in
  let y := y + n in
  let d := d - 365 * n in
  let year := y + 1 in
  let leapDay := isLeap year && (d =? 31 + 29 - 1) in
  let day := if isLeap year && (31 + 29 - 1 <? d) then d - 1 else d in
  if leapDay then 29
  else
    let month := day / 31 in
    let finish := daysBefore (month + 1) in
    let begin := if finish <=? day then finish else daysBefore month in
    day - begin + 1.

Definition After (t u : Time) : bool := seconds u <? seconds t.
Definition Before (t u : Time) : bool := seconds t <? seconds u.

(** [getnum]: one or two digits, two when [fixed]. *)
Definition getnum (s : string) (fixed : bool) : option (Z * string) :=
  match s with
  | String a s1 =>
      if isDigit a then
        match s1 with
        | String b s2 =>
            if isDigit b then Some (digit_val a * 10 + digit_val b, s2)
            else if fixed then None else Some (digit_val a, s1)
        | EmptyString => if fixed then None else Some (digit_val a, s1)
        end
      else None
  | EmptyString => None
  end.

(** [skip(value, prefix)] for a one-byte prefix that is not a space. *)
Definition skip (value : string) (prefix : ascii) : option string :=
  match value with
  | String c rest => if byte_eq c prefix then Some rest else None
  | EmptyString => None
  end.

(** The four digits of a [stdLongYear]. *)
Definition longYear (value : string) : option (Z * string) :=
  match value with
  | String a (String b (String c (String d rest))) =>
      if isDigit a && isDigit b && isDigit c && isDigit d then
        Some (((digit_val a * 10 + digit_val b) * 10 + digit_val c) * 10
              + digit_val d, rest)
      else None
  | _ => None
  end.

(** The year, month and day read by the layout [2006-01-02]; the day is
    checked against the month once the whole value is read. *)
Definition dateFields (value : string) : ParseError + Z * Z * Z :=
  match longYear value with
  | None => inl BadValue
  | Some (year, value) =>
  match skip value "-"%char with
  | None => inl BadValue
  | Some value =>
  match getnum value true with
  | None => inl BadValue
  | Some (month, value) =>
  if (month <=? 0) || (12 <? month) then inl OutOfRange else
  match skip value "-"%char with
  | None => inl BadValue
  | Some value =>
  match getnum value true with
  | None => inl BadValue
  | Some (day, value) =>
  match value with
  | String _ _ => inl ExtraText
  | EmptyString =>
      if (day <? 1) || (daysIn month year <? day) then inl OutOfRange
      else inr (year, month, day)
  end end end end end end.

(** The hour and minute read by the layout [15:04]. *)
Definition clockFields (value : string) : ParseError + Z * Z :=
  match getnum value false with
  | None => inl BadValue
  | Some (hour, value) =>
  if (hour <? 0) || (24 <=? hour) then inl OutOfRange else
  match skip value ":"%char with
  | None => inl BadValue
  | Some value =>
  match getnum value true with
  | None => inl BadValue
  | Some (min, value) =>
  if (min <? 0) || (60 <=? min) then inl OutOfRange else
  match value with
  | String _ _ => inl ExtraText
  | EmptyString => inr (hour, min)
  end end end end.

(** [time.Parse("2006-01-02", value)]; an error comes with [Time{}]. *)
Definition ParseDate (value : string) : Time * option ParseError :=
  match dateFields value with
  | inl e => (zero, Some e)
  | inr (year, month, day) => (Date year month day 0 0, None)
  end.

(** [time.Parse("15:04", value)]: the time of day on January 1 of year 0,
    the fields a layout leaves out being zero, or one where zero is
    impossible; an error comes with [Time{}]. *)
Definition ParseClock (value : string) : Time * option ParseError :=
  match clockFields value with
  | inl e => (zero, Some e)
  | inr (hour, min) => (Date 0 1 1 hour min, None)
  end.

End time.

(** ** The receipts of [main.go] *)

Record Item := {
  ShortDescr : string;
  Price : string
}.

Record Receipt := {
  Retailer : string;
  PurchaseDate : string;
  PurchaseTime : string;
  Items : list Item;
  Total : string
}.

(** ** [calculatePoints] *)

Section Scorer.

Context `{Platform}.

(** The float64 constants of the function. *)
Definition c100 : float64 := ofZ 100.
Definition c25 : float64 := ofZ 25.
Definition c0 : float64 := ofZ 0.
Definition c0_2 : float64 := ofDecimal false 2 (-1).

(** The body of the loop of rule 5: the points after [item]. *)
Definition descriptionStep (points : Z) (item : Item) : Z :=
  let trimmedLen := len (strings.TrimSpace (ShortDescr item)) in
  if Z.rem trimmedLen 3 =? 0 then
    let price := fst (strconv.ParseFloat (Price item)) in
    int_add points (int_of_float (Ceil (mul price c0_2)))
  else points.

Definition calculatePoints (receipt : Receipt) : Z :=
  let points := 0 in
  (* 1: one point for every alphanumeric character in the retailer name *)
  let points :=
    int_add points (Z.of_nat (length (regexp.FindAllString (Retailer receipt)))) in
  (* 2: 50 points if the total is a round dollar amount *)
  let total := fst (strconv.ParseFloat (Total receipt)) in
  let points := if eqb total (Floor total) then int_add points 50 else points in
  (* 3: 25 points if the total is a multiple of 0.25 *)
  let points :=
    if eqb (Mod (mul total c100) c25) c0 then int_add points 25 else points in
  (* 4: 5 points for every two items *)
  let points :=
    int_add points (wrap (Z.quot (Z.of_nat (length (Items receipt))) 2 * 5)) in
  (* 5: points for items whose description length is a multiple of 3 *)
  let points := fold_left descriptionStep (Items receipt) points in
  (* 6: 6 points if the day in the purchase date is odd *)
  let purchaseDate := fst (time.ParseDate (PurchaseDate receipt)) in
  let points :=
    if Z.rem (time.Day purchaseDate) 2 =? 1 then int_add points 6 else points in
  (* 7: 10 points if time is between 2:00pm and 4:00pm *)
  let purchaseTime := fst (time.ParseClock (PurchaseTime receipt)) in
  let targetStart := fst (time.ParseClock "14:00") in
  let targetEnd := fst (time.ParseClock "16:00") in
  let points :=
    if time.After purchaseTime targetStart && time.Before purchaseTime targetEnd
    then int_add points 10 else points in
  points.

(** *** What each rule adds

    The seven amounts that [calculatePoints] adds up, each as a function of
    the field it reads. *)

Definition retailerPoints (retailer : string) : Z :=
  Z.of_nat (length (regexp.FindAllString retailer)).

Definition roundDollarPoints (total : string) : Z :=
  let total := fst (strconv.ParseFloat total) in
  if eqb total (Floor total) then 50 else 0.

Definition quarterPoints (total : string) : Z :=
  let total := fst (strconv.ParseFloat total) in
  if eqb (Mod (mul total c100) c25) c0 then 25 else 0.

Definition itemPairPoints (items : list Item) : Z :=
  Z.quot (Z.of_nat (length items)) 2 * 5.

(** [price] for [item]: what [strconv.ParseFloat(item.Price, 64)] gives. *)
Definition itemPrice (item : Item) : float64 :=
  fst (strconv.ParseFloat (Price item)).

(** [int(math.Ceil(price * 0.2))] for the price of [item]. *)
Definition descriptionBonus (item : Item) : Z :=
  int_of_float (Ceil (mul (itemPrice item) c0_2)).

Definition trimmedLen (item : Item) : Z :=
  len (strings.TrimSpace (ShortDescr item)).

Definition descriptionPoints (item : Item) : Z :=
  if Z.rem (trimmedLen item) 3 =? 0 then descriptionBonus item else 0.

Definition oddDayPoints (purchaseDate : string) : Z :=
  if Z.rem (time.Day (fst (time.ParseDate purchaseDate))) 2 =? 1 then 6 else 0.

Definition afternoonPoints (purchaseTime : string) : Z :=
  let t := fst (time.ParseClock purchaseTime) in
  if time.After t (fst (time.ParseClock "14:00"))
     && time.Before t (fst (time.ParseClock "16:00"))
  then 10 else 0.

Definition sumZ (l : list Z) : Z := fold_right Z.add 0 l.

(** The sum of the seven amounts, before any wrap-around. *)
Definition exactPoints (receipt : Receipt) : Z :=
  retailerPoints (Retailer receipt)
  + roundDollarPoints (Total receipt)
  + quarterPoints (Total receipt)
  + itemPairPoints (Items receipt)
  + sumZ (map descriptionPoints (Items receipt))
  + oddDayPoints (PurchaseDate receipt)
  + afternoonPoints (PurchaseTime receipt).

End Scorer.

(** ** The store and the two handlers

    One request is served at a time here: every access to the map of a
    handler lies between a [Lock] and an [Unlock] (or [RLock] and [RUnlock])
    of [store.io], which [Concurrent] below models with its interleavings. *)

Module Store.

Record Storage := { receipts : gmap string Z }.

(** [store], as the program starts. *)
Definition store : Storage := {| receipts := ∅ |}.

(** What a handler writes to its [ResponseWriter]. *)
Inductive Response :=
| InvalidReceipt            (* 400, "Invalid receipt format" *)
| ReceiptNotFound           (* 404, "Receipt not found" *)
| ID (id : string)
| Points (points : Z).

Section Handlers.

Context `{Platform}.

(** [processReceipt]: [body] is the receipt the JSON decoder reads from
    the request, if it reads one, and [uuid] the text of the identifier
    that [uuid.New()] draws for this request. *)
Definition processReceipt (body : option Receipt) (uuid : string)
    (st : Storage) : Storage * Response :=
  match body with
  | None => (st, InvalidReceipt)
  | Some receipt =>
      let points := calculatePoints receipt in
      let id := uuid in
      ({| receipts := <[id := points]> (receipts st) |}, ID id)
  end.

(** [getPoints]: [id] is the [{id}] of the request's path. *)
Definition getPoints (id : string) (st : Storage) : Storage * Response :=
  match receipts st !! id with
  | None => (st, ReceiptNotFound)
  | Some points => (st, Points points)
  end.

Inductive Request :=
| POST (body : option Receipt) (uuid : string)
| GET (id : string).

Definition serve (st : Storage) (req : Request) : Storage * Response :=
  match req with
  | POST body uuid => processReceipt body uuid st
  | GET id => getPoints id st
  end.

(** The store after a sequence of requests. *)
Definition run (st : Storage) (reqs : list Request) : Storage :=
  fold_left (fun st req => fst (serve st req)) reqs st.

(** The identifiers that the requests issue. *)
Fixpoint issued (reqs : list Request) : list string :=
  match reqs with
  | [] => []
  | POST (Some _) uuid :: reqs => uuid :: issued reqs
  | _ :: reqs => issued reqs
  end.

(** [uuid.New()] draws an identifier that no earlier request was given:
    none of the identifiers issued by [reqs] is in [st] or is issued
    twice. *)
Fixpoint unique (st : Storage) (reqs : list Request) : Prop :=
  match reqs with
  | [] => True
  | req :: reqs =>
      match req with
      | POST (Some _) uuid => receipts st !! uuid = None
      | _ => True
      end /\ unique (fst (serve st req)) reqs
  end.

End Handlers.

End Store.

(** ** The handlers, run concurrently

    Any number of requests are in flight, each served by its own handler; a
    step of the program is a step of one of them. [store.io] is a
    [sync.RWMutex]: [Lock] waits until nobody holds it, [RLock] waits while a
    writer holds it. *)

Module Concurrent.

Record RWMutex := { writer : bool; readers : nat }.

(** Where a handler stands in [processReceipt] or [getPoints]. *)
Inductive Handler :=
| PutReady (id : string) (points : Z)    (* before [store.io.Lock()] *)
| PutLocked (id : string) (points : Z)   (* before [store.receipts[id] = points] *)
| PutWriting (id : string) (points : Z)  (* the assignment is under way *)
| PutStored (id : string)                (* before [store.io.Unlock()] *)
| PutDone (id : string)
| GetReady (id : string)                 (* before [store.io.RLock()] *)
| GetLocked (id : string)                (* before the lookup [store.receipts[id]] *)
| GetRead (id : string) (found : option Z)   (* before [store.io.RUnlock()] *)
| GetDone (id : string) (found : option Z).

(** Between [Lock] and [Unlock]. *)
Definition writing (h : Handler) : bool :=
  match h with
  | PutLocked _ _ | PutWriting _ _ | PutStored _ => true
  | _ => false
  end.

(** Between [RLock] and [RUnlock]. *)
Definition reading (h : Handler) : bool :=
  match h with
  | GetLocked _ | GetRead _ _ => true
  | _ => false
  end.

(** A record of the map is partly written. *)
Definition midWrite (h : Handler) : bool :=
  match h with
  | PutWriting _ _ => true
  | _ => false
  end.

Definition arriving (h : Handler) : bool :=
  match h with
  | PutReady _ _ | GetReady _ => true
  | _ => false
  end.

Record State := {
  io : RWMutex;
  receipts : gmap string Z;
  handlers : list Handler
}.

Definition initial : State :=
  {| io := {| writer := false; readers := 0 |}; receipts := ∅; handlers := [] |}.

Definition count (p : Handler -> bool) (hs : list Handler) : nat :=
  length (List.filter p hs).

(** What one handler adds to [count p]. *)
Definition weight (p : Handler -> bool) (h : Handler) : nat :=
  if p h then 1%nat else 0%nat.

Inductive step (s : State) : State -> Prop :=
| step_request h :
    arriving h = true ->
    step s {| io := io s; receipts := receipts s; handlers := handlers s ++ [h] |}
| step_Lock i id points :
    handlers s !! i = Some (PutReady id points) ->
    writer (io s) = false -> readers (io s) = 0%nat ->
    step s {| io := {| writer := true; readers := 0 |};
              receipts := receipts s;
              handlers := <[i := PutLocked id points]> (handlers s) |}
| step_assign_begin i id points :
    handlers s !! i = Some (PutLocked id points) ->
    step s {| io := io s; receipts := receipts s;
              handlers := <[i := PutWriting id points]> (handlers s) |}
| step_assign_end i id points :
    handlers s !! i = Some (PutWriting id points) ->
    step s {| io := io s; receipts := <[id := points]> (receipts s);
              handlers := <[i := PutStored id]> (handlers s) |}
| step_Unlock i id :
    handlers s !! i = Some (PutStored id) ->
    step s {| io := {| writer := false; readers := readers (io s) |};
              receipts := receipts s;
              handlers := <[i := PutDone id]> (handlers s) |}
| step_RLock i id :
    handlers s !! i = Some (GetReady id) ->
    writer (io s) = false ->
    step s {| io := {| writer := false; readers := S (readers (io s)) |};
              receipts := receipts s;
              handlers := <[i := GetLocked id]> (handlers s) |}
| step_lookup i id :
    handlers s !! i = Some (GetLocked id) ->
    step s {| io := io s; receipts := receipts s;
              handlers := <[i := GetRead id (receipts s !! id)]> (handlers s) |}
| step_RUnlock i id found :
    handlers s !! i = Some (GetRead id found) ->
    step s {| io := {| writer := writer (io s); readers := pred (readers (io s)) |};
              receipts := receipts s;
              handlers := <[i := GetDone id found]> (handlers s) |}.

Inductive reachable : State -> Prop :=
| reachable_initial : reachable initial
| reachable_step s s' : reachable s -> step s s' -> reachable s'.

(** What the mutex counts is what the handlers hold. *)
Definition consistent (s : State) : Prop :=
  count reading (handlers s) = readers (io s)
  /\ count writing (handlers s) = (if writer (io s) then 1%nat else 0%nat)
  /\ (writer (io s) = true -> readers (io s) = 0%nat).

End Concurrent.

(** ** Sample receipts *)

(** The receipt of the specification's worked example. *)
Definition targetReceipt : Receipt :=
  {| Retailer := "Target";
     PurchaseDate := "2022-01-01";
     PurchaseTime := "13:01";
     Items := [ {| ShortDescr := "Mountain Dew 12PK"; Price := "6.49" |};
                {| ShortDescr := "Emils Cheese Pizza"; Price := "12.25" |} ];
     Total := "35.35" |}.

(** A receipt that nothing but rule 5 can score: no retailer name, a total
    with cents that is no multiple of 0.25, a single item, an even day and a
    time in the morning. *)
Definition singleItemReceipt (item : Item) : Receipt :=
  {| Retailer := "";
     PurchaseDate := "2022-01-02";
     PurchaseTime := "09:30";
     Items := [item];
     Total := "1.10" |}.

Definition refundItem : Item := {| ShortDescr := "abc"; Price := "-10.00" |}.

Definition smallRefundItem : Item := {| ShortDescr := "abc"; Price := "-1.00" |}.

Definition blankItem : Item := {| ShortDescr := "   "; Price := "10.00" |}.

(** A receipt with the given total, date and time and nothing else. *)
Definition bareReceipt (total purchaseDate purchaseTime : string) : Receipt :=
  {| Retailer := "";
     PurchaseDate := purchaseDate;
     PurchaseTime := purchaseTime;
     Items := [];
     Total := total |}.

(** The requests of a session served after a first receipt was stored as
    [id-1]: its score asked for, a second receipt, an unknown identifier
    asked for, a body that is no receipt, and the second score asked for. *)
Definition session : list Store.Request :=
  [ Store.GET "id-1";
    Store.POST (Some (singleItemReceipt blankItem)) "id-2";
    Store.GET "id-3";
    Store.POST None "id-1";
    Store.GET "id-2" ].

(** ** Days and years *)

(** The day of the year of a date, from 0. *)
Definition yearDay (year month day : Z) : Z :=
  time.daysBefore (month - 1)
  + (if time.isLeap year && (3 <=? month) then 1 else 0)
  + (day - 1).

(** [Day] of the instant at the start of day [d], counted from January 1 of
    year 1. *)
Definition dayOfDays (d : Z) : Z := time.Day {| time.seconds := d * 86400 |}.

(** The integers from [lo], [n] of them. *)
Definition range (lo : Z) (n : nat) : list Z := map (fun i => lo + Z.of_nat i) (seq 0 n).

(** [Day] gives back the day of a date that lies in the first 146097 days. *)
Definition dateChecked (year month day : Z) : bool :=
  let d := time.daysSinceEpoch year + yearDay year month day in
  (0 <=? d) && (d <? 146097) && (dayOfDays d =? day).

(** The part of [Day] that follows the cycles of 400 years: the day of the
    month of day [d] of a cycle that [y0] years precede. *)
Definition dayInCycle (y0 d : Z) : Z :=
  let n := d / 36524 in
  let n := n - Z.shiftr n 2 in
  let y := y0 + 100 * n in
  let d := d - 36524 * n in
  let n := d / 1461 in
  let y := y + 4 * n in
  let d := d - 1461 * n in
  let n := d / 365 in
  let n := n - Z.shiftr n 2 in
  let y := y + n in
  let d := d - 365 * n in
  let year := y + 1 in
  let leapDay := time.isLeap year && (d =? 31 + 29 - 1) in
  let day := if time.isLeap year && (31 + 29 - 1 <? d) then d - 1 else d in
  if leapDay then 29
  else
    let month := day / 31 in
    let finish := time.daysBefore (month + 1) in
    let begin := if finish <=? day then finish else time.daysBefore month in
    day - begin + 1.

(** ** Receipts and requests, changed *)

(** [receipt] with another purchase time. *)
Definition withPurchaseTime (receipt : Receipt) (purchaseTime : string) : Receipt :=
  {| Retailer := Retailer receipt;
     PurchaseDate := PurchaseDate receipt;
     PurchaseTime := purchaseTime;
     Items := Items receipt;
     Total := Total receipt |}.

(** [receipt] with other items. *)
Definition withItems (receipt : Receipt) (items : list Item) : Receipt :=
  {| Retailer := Retailer receipt;
     PurchaseDate := PurchaseDate receipt;
     PurchaseTime := PurchaseTime receipt;
     Items := items;
     Total := Total receipt |}.

(** Every byte of [s] is one of the six ASCII white space characters. *)
Definition asciiSpaces (s : string) : bool :=
  forallb strings.asciiSpace (list_ascii_of_string s).

(** The score last stored under [id] by the requests, if any. *)
Fixpoint lastStored `{Platform} (reqs : list Store.Request) (id : string) : option Z :=
  match reqs with
  | [] => None
  | req :: reqs =>
      match lastStored reqs id with
      | Some points => Some points
      | None =>
          match req with
          | Store.POST (Some receipt) uuid =>
              if String.eqb uuid id then Some (calculatePoints receipt) else None
          | _ => None
          end
      end
  end.

(** The request stores a score: it is a [POST] whose body is a receipt. *)
Definition accepted (req : Store.Request) : bool :=
  match req with
  | Store.POST (Some _) _ => true
  | _ => false
  end.

(** ** Handlers, by where they stand *)

(** The handler has returned. *)
Definition finished (h : Concurrent.Handler) : bool :=
  match h with
  | Concurrent.PutDone _ | Concurrent.GetDone _ _ => true
  | _ => false
  end.

(** The handler has completed its assignment to [store.receipts[id]]. *)
Definition hasStored (id : string) (h : Concurrent.Handler) : bool :=
  match h with
  | Concurrent.PutStored id' | Concurrent.PutDone id' => String.eqb id' id
  | _ => false
  end.

(** What the map holds is what the handlers have stored. *)
Definition stored_exactly (s : Concurrent.State) : Prop :=
  forall id,
    is_Some (Concurrent.receipts s !! id)
    <-> (0 < Concurrent.count (hasStored id) (Concurrent.handlers s))%nat.

(** A state in which a handler is in the middle of its assignment while a
    request waits, and the state after both were served. *)
Definition writingState : Concurrent.State :=
  {| Concurrent.io := {| Concurrent.writer := true; Concurrent.readers := 0 |};
     Concurrent.receipts := ∅;
     Concurrent.handlers :=
       [Concurrent.PutWriting "id-1" 20; Concurrent.GetReady "id-1"] |}.

Definition servedState : Concurrent.State :=
  {| Concurrent.io := {| Concurrent.writer := false; Concurrent.readers := 0 |};
     Concurrent.receipts := <["id-1" := 20]> ∅;
     Concurrent.handlers :=
       [Concurrent.PutDone "id-1"; Concurrent.GetDone "id-1" (Some 20)] |}.

(** ** Dates and times, written *)

(** The digit [d], from 0 to 9, as a byte. *)
Definition digitChar (d : Z) : ascii := ascii_of_N (Z.to_N (48 + d)).

(** [n] in two digits, then [rest]. *)
Definition twoDigits (n : Z) (rest : string) : string :=
  String (digitChar (n / 10)) (String (digitChar (n mod 10)) rest).

(** A date in the form [YYYY-MM-DD]. *)
Definition writeDate (year month day : Z) : string :=
  twoDigits (year / 100)
    (twoDigits (year mod 100)
       (String "-" (twoDigits month (String "-" (twoDigits day ""))))).

(** A time in the form [HH:MM]. *)
Definition writeClock (hour min : Z) : string :=
  twoDigits hour (String ":" (twoDigits min "")).

(** ** Rounding *)

(** Where a location places the exact value between [m] and [m + 1], in
    quarters. *)
Definition locationCode (l : location) : Z :=
  match l with
  | loc_Exact => 0
  | loc_Inexact Lt => 1
  | loc_Inexact Eq => 2
  | loc_Inexact Gt => 3
  end.

(** ** Amounts, written *)

(** The digits [ds], the most significant first, then [rest]. *)
Fixpoint writeDigits (ds : list Z) (rest : string) : string :=
  match ds with
  | [] => rest
  | d :: ds => String (digitChar d) (writeDigits ds rest)
  end.

(** The number that the digits [ds] write. *)
Definition digitsValue (ds : list Z) : Z := fold_left (fun n d => n * 10 + d) ds 0.

(** An amount of money: the dollars in digits, a point and the cents in two
    digits. *)
Definition writeAmount (dollars : list Z) (cents : Z) : string :=
  writeDigits dollars (String "." (twoDigits cents "")).

(** The amount in cents. *)
Definition amountCents (dollars : list Z) (cents : Z) : Z :=
  100 * digitsValue dollars + cents.

(** What [readDigits] does with the digit [d]. *)
Definition digitStep (d : Z) (st : strconv.digits) : strconv.digits :=
  if (d =? 0) && (strconv.nd st =? 0) then
    {| strconv.sawdot := strconv.sawdot st; strconv.sawdigits := true;
       strconv.nd := strconv.nd st; strconv.dp := strconv.dp st - 1;
       strconv.mantissa := strconv.mantissa st;
       strconv.underscores := strconv.underscores st |}
  else
    {| strconv.sawdot := strconv.sawdot st; strconv.sawdigits := true;
       strconv.nd := strconv.nd st + 1; strconv.dp := strconv.dp st;
       strconv.mantissa := strconv.mantissa st * 10 + d;
       strconv.underscores := strconv.underscores st |}.

(** * Properties *)

(** ** The library functions on sample values *)

Example ParseFloat_samples :
  strconv.ParseFloat "12.25" = (S754_finite false 6896136929411072 (-49), None)
  /\ strconv.ParseFloat "-10.00" = (S754_finite true 5629499534213120 (-49), None)
  /\ strconv.ParseFloat "0.1" = (S754_finite false 7205759403792794 (-56), None)
  /\ strconv.ParseFloat "1e23" = (S754_finite false 5960464477539062 24, None)
  /\ strconv.ParseFloat "9007199254740993" = (S754_finite false 4503599627370496 1, None)
  /\ strconv.ParseFloat "5e-324" = (S754_finite false 1 (-1074), None)
  /\ strconv.ParseFloat "1e-400" = (S754_zero false, None)
  /\ strconv.ParseFloat "1.7976931348623158e308"
     = (S754_finite false 9007199254740991 971, None)
  /\ strconv.ParseFloat "1.797693134862315808e308"
     = (S754_infinity false, Some strconv.ErrRange)
  /\ strconv.ParseFloat "0x1.8p1" = (S754_finite false 6755399441055744 (-51), None)
  /\ strconv.ParseFloat "1_000.5" = (S754_finite false 8800491068719104 (-43), None)
  /\ strconv.ParseFloat "-Infinity" = (S754_infinity true, None)
  /\ strconv.ParseFloat "NaN" = (S754_nan, None)
  /\ strconv.ParseFloat "" = (S754_zero false, Some strconv.ErrSyntax)
  /\ strconv.ParseFloat "12.25 " = (S754_zero false, Some strconv.ErrSyntax)
  /\ strconv.ParseFloat "1..2" = (S754_zero false, Some strconv.ErrSyntax)
  /\ strconv.ParseFloat "$5" = (S754_zero false, Some strconv.ErrSyntax).
Proof. vm_compute. repeat split. Qed.

Example math_samples :
  Floor (fst (strconv.ParseFloat "100.50")) = ofZ 100
  /\ Floor (fst (strconv.ParseFloat "-0.5")) = ofZ (-1)
  /\ Ceil (fst (strconv.ParseFloat "2.45")) = ofZ 3
  /\ Ceil (fst (strconv.ParseFloat "-0.5")) = S754_zero true
  /\ mul (fst (strconv.ParseFloat "100.10")) c100 = ofZ 10010
  /\ Mod (ofZ 10010) c25 = ofZ 10
  /\ Mod (ofZ (-10025)) c25 = S754_zero true
  /\ Mod (S754_infinity false) c25 = S754_nan
  /\ eqb (S754_zero true) c0 = true
  /\ eqb S754_nan S754_nan = false.
Proof. vm_compute. repeat split. Qed.

Example TrimSpace_samples :
  strings.TrimSpace "  Klarbrunn 12-PK 12 FL OZ  " = "Klarbrunn 12-PK 12 FL OZ"
  /\ strings.TrimSpace "   " = ""
  /\ strings.TrimSpace (String "009" (String "010" "a b")) = "a b"
  /\ strings.TrimSpace (String "194" (String "160" "ab"))  = "ab"
  /\ strings.TrimSpace (String "a" (String "226" (String "128" (String "131" ""))))
     = "a"
  /\ len (strings.TrimSpace (String "160" "ab")) = 3.
Proof. vm_compute. repeat split. Qed.

Example time_samples :
  time.ParseDate "1970-01-01" = ({| time.seconds := 62135596800 |}, None)
  /\ time.ParseDate "0001-01-01" = (time.zero, None)
  /\ time.ParseDate "2022-02-29" = (time.zero, Some time.OutOfRange)
  /\ time.ParseDate "2024-02-29" = (time.Date 2024 2 29 0 0, None)
  /\ time.ParseDate "2022-1-01" = (time.zero, Some time.BadValue)
  /\ time.ParseDate "01/02/2022" = (time.zero, Some time.BadValue)
  /\ time.ParseDate "2022-01-01T00:00" = (time.zero, Some time.ExtraText)
  /\ time.Day (fst (time.ParseDate "2024-02-29")) = 29
  /\ time.Day (fst (time.ParseDate "2022-03-20")) = 20
  /\ time.Day (fst (time.ParseDate "0000-12-31")) = 31
  /\ time.ParseClock "13:01" = (time.Date 0 1 1 13 1, None)
  /\ time.ParseClock "7:05" = (time.Date 0 1 1 7 5, None)
  /\ time.ParseClock "24:00" = (time.zero, Some time.OutOfRange)
  /\ time.ParseClock "14:5" = (time.zero, Some time.BadValue)
  /\ time.ParseClock "14:00:00" = (time.zero, Some time.ExtraText)
  /\ time.Before (fst (time.ParseClock "23:59")) time.zero = true.
Proof. vm_compute. repeat split. Qed.

(** The rules on the receipts of the specification's section 8. *)
Example rule_samples :
  retailerPoints "Target" = 6
  /\ retailerPoints "M&M Corner Market" = 14
  /\ (roundDollarPoints "35.35", quarterPoints "35.35") = (0, 0)
  /\ (roundDollarPoints "9.00", quarterPoints "9.00") = (50, 25)
  /\ map (fun n => itemPairPoints (repeat blankItem n)) [0; 1; 2; 3; 4; 5]%nat
     = [0; 0; 5; 5; 10; 10]
  /\ @descriptionPoints amd64 {| ShortDescr := "Emils Cheese Pizza"; Price := "12.25" |} = 3
  /\ @descriptionPoints amd64 {| ShortDescr := "Mountain Dew 12PK"; Price := "6.49" |} = 0
  /\ oddDayPoints "2022-01-01" = 6
  /\ oddDayPoints "2022-03-20" = 0
  /\ afternoonPoints "13:01" = 0
  /\ afternoonPoints "14:33" = 10
  /\ @calculatePoints amd64 targetReceipt = 20
  /\ @calculatePoints arm64 targetReceipt = 20.
Proof. vm_compute. repeat split. Qed.

(** ** Wrap-around arithmetic *)

Lemma wrap_inInt n : minInt <= n <= maxInt -> wrap n = n.
Proof.
  unfold wrap, minInt, maxInt. intros Hn.
  rewrite Z.mod_small; lia.
Qed.

Lemma wrap_range n : minInt <= wrap n <= maxInt.
Proof.
  unfold wrap, minInt, maxInt.
  pose proof (Z.mod_pos_bound (n + 2 ^ 63) (2 ^ 64) ltac:(lia)). lia.
Qed.

Lemma wrap_add_l a b : wrap (wrap a + b) = wrap (a + b).
Proof.
  unfold wrap.
  replace ((a + 2 ^ 63) mod 2 ^ 64 - 2 ^ 63 + b + 2 ^ 63)
    with ((a + 2 ^ 63) mod 2 ^ 64 + b) by lia.
  rewrite Zplus_mod_idemp_l. f_equal. f_equal. lia.
Qed.

Lemma wrap_add_r a b : wrap (a + wrap b) = wrap (a + b).
Proof. rewrite Z.add_comm, wrap_add_l. f_equal. lia. Qed.

Lemma int_add_wrap a b : int_add (wrap a) b = wrap (a + b).
Proof. apply wrap_add_l. Qed.

(** ** [calculatePoints] adds up the seven amounts *)

Section ScorerFacts.

Context `{Platform}.

Lemma descriptionStep_wrap a item :
  descriptionStep (wrap a) item = wrap (a + descriptionPoints item).
Proof.
  unfold descriptionStep, descriptionPoints, trimmedLen, descriptionBonus, itemPrice.
  destruct (Z.rem _ 3 =? 0).
  - apply int_add_wrap.
  - f_equal. lia.
Qed.

Lemma fold_descriptionStep items a :
  fold_left descriptionStep items (wrap a)
  = wrap (a + sumZ (map descriptionPoints items)).
Proof.
  revert a. induction items as [|item items IH]; intros a; simpl.
  - f_equal. lia.
  - rewrite descriptionStep_wrap, IH. f_equal. lia.
Qed.

Lemma calculatePoints_exact receipt :
  calculatePoints receipt = wrap (exactPoints receipt).
Proof.
  unfold calculatePoints, exactPoints.
  unfold retailerPoints, roundDollarPoints, quarterPoints, itemPairPoints,
    oddDayPoints, afternoonPoints.
  set (n1 := Z.of_nat (length (regexp.FindAllString (Retailer receipt)))).
  set (total := fst (strconv.ParseFloat (Total receipt))).
  set (b2 := eqb total (Floor total)).
  set (b3 := eqb (Mod (mul total c100) c25) c0).
  set (n4 := Z.quot _ 2 * 5).
  set (b6 := Z.rem _ 2 =? 1).
  set (b7 := time.After _ _ && time.Before _ _).
  assert (E1 : int_add 0 n1 = wrap n1) by reflexivity.
  rewrite E1.
  assert (E2 : (if b2 then int_add (wrap n1) 50 else wrap n1)
               = wrap (n1 + (if b2 then 50 else 0))).
  { destruct b2; [apply int_add_wrap | f_equal; lia]. }
  rewrite E2.
  set (a2 := n1 + (if b2 then 50 else 0)).
  assert (E3 : (if b3 then int_add (wrap a2) 25 else wrap a2)
               = wrap (a2 + (if b3 then 25 else 0))).
  { destruct b3; [apply int_add_wrap | f_equal; lia]. }
  rewrite E3.
  set (a3 := a2 + (if b3 then 25 else 0)).
  rewrite int_add_wrap, wrap_add_r, fold_descriptionStep.
  set (a5 := a3 + n4 + sumZ _).
  assert (E6 : (if b6 then int_add (wrap a5) 6 else wrap a5)
               = wrap (a5 + (if b6 then 6 else 0))).
  { destruct b6; [apply int_add_wrap | f_equal; lia]. }
  rewrite E6.
  set (a6 := a5 + (if b6 then 6 else 0)).
  destruct b7; [rewrite int_add_wrap | ]; f_equal; subst a6 a5 a3 a2; lia.
Qed.

End ScorerFacts.

(** ** Signs of the float operations *)

Lemma shr_1_nonneg mrs : 0 <= shr_m mrs -> 0 <= shr_m (shr_1 mrs).
Proof.
  destruct mrs as [m r s]; simpl.
  destruct m as [|p|p]; [ | destruct p | lia ]; simpl; lia.
Qed.

Lemma iter_shr_1_nonneg n mrs :
  0 <= shr_m mrs -> 0 <= shr_m (SpecFloat.iter_pos shr_1 n mrs).
Proof.
  revert mrs. induction n as [n IH|n IH|]; intros mrs Hm; simpl.
  - apply IH, IH, shr_1_nonneg, Hm.
  - apply IH, IH, Hm.
  - apply shr_1_nonneg, Hm.
Qed.

Lemma shr_nonneg mrs e n : 0 <= shr_m mrs -> 0 <= shr_m (fst (shr mrs e n)).
Proof.
  intros Hm. destruct n; simpl; auto using iter_shr_1_nonneg.
Qed.

Lemma shr_m_of_loc m l : shr_m (shr_record_of_loc m l) = m.
Proof. destruct l as [|[]]; reflexivity. Qed.

Lemma shr_fexp_nonneg m e l : 0 <= m -> 0 <= shr_m (fst (shr_fexp prec emax m e l)).
Proof.
  intros Hm. unfold shr_fexp. apply shr_nonneg. now rewrite shr_m_of_loc.
Qed.

Lemma round_nearest_even_nonneg m l : 0 <= m -> 0 <= round_nearest_even m l.
Proof.
  intros Hm. destruct l as [|[]]; simpl; try lia. destruct (Z.even m); lia.
Qed.

Lemma binary_round_aux_sign s mx ex lx :
  0 <= mx -> has_sign s (binary_round_aux prec emax s mx ex lx).
Proof.
  intros Hm. unfold binary_round_aux.
  pose proof (shr_fexp_nonneg mx ex lx Hm) as H1.
  destruct (shr_fexp prec emax mx ex lx) as [mrs' e']. simpl in H1.
  pose proof (shr_fexp_nonneg _ e' loc_Exact
                (round_nearest_even_nonneg _ (loc_of_shr_record mrs') H1)) as H2.
  destruct (shr_fexp prec emax _ e' loc_Exact) as [mrs'' e'']. simpl in H2.
  destruct (shr_m mrs'') as [|p|p]; simpl; [reflexivity | | lia].
  destruct (e'' <=? emax - prec); reflexivity.
Qed.

Lemma binary_round_sign s m e : has_sign s (binary_round prec emax s m e).
Proof.
  unfold binary_round. destruct (shl_align _ _ _) as [mz ez].
  apply binary_round_aux_sign. lia.
Qed.

Lemma ofZ_sign n : 0 <= n -> has_sign false (ofZ n).
Proof.
  intros Hn. unfold ofZ, binary_normalize.
  destruct n as [|p|p]; [reflexivity | apply binary_round_sign | lia].
Qed.

Lemma nonnegative_cases x :
  nonnegative x = true <->
  (exists s, x = S754_zero s) \/ has_sign false x.
Proof.
  unfold nonnegative, SFleb.
  destruct x as [s|[]| |[] m e]; simpl;
    (split; [intros Hx | intros [[s' Hx]|Hx]]);
    try discriminate; try reflexivity; try contradiction;
    try (now right); now (left; eexists).
Qed.

Lemma has_sign_nonnegative x : has_sign false x -> nonnegative x = true.
Proof. intros Hx. apply nonnegative_cases. now right. Qed.

Lemma c0_2_value : c0_2 = S754_finite false 7205759403792794 (-55).
Proof. vm_compute. reflexivity. Qed.

(** Multiplying by 0.2 keeps a price that is not negative so. *)
Lemma mul_c0_2_nonnegative x :
  nonnegative x = true -> nonnegative (mul x c0_2) = true.
Proof.
  rewrite c0_2_value. intros Hx. apply nonnegative_cases in Hx.
  destruct x as [s|s| |s m e]; simpl.
  - reflexivity.
  - destruct Hx as [[s' Hx]|Hx]; [discriminate | simpl in Hx; subst s; reflexivity].
  - destruct Hx as [[s' Hx]|[]]; discriminate.
  - destruct Hx as [[s' Hx]|Hx]; [discriminate | simpl in Hx; subst s].
    apply has_sign_nonnegative. unfold mul, SFmul.
    apply binary_round_aux_sign. lia.
Qed.

Lemma neg_neg x : neg (neg x) = x.
Proof. destruct x as [s|s| |s m e]; simpl; try reflexivity; now rewrite negb_involutive. Qed.

(** [math.Ceil] keeps it so too. *)
Lemma Ceil_nonnegative x : nonnegative x = true -> nonnegative (Ceil x) = true.
Proof.
  intros Hx. apply nonnegative_cases in Hx.
  destruct x as [s|s| |s m e]; simpl.
  - reflexivity.
  - destruct Hx as [[s' Hx]|Hx]; [discriminate | simpl in Hx; subst s; reflexivity].
  - destruct Hx as [[s' Hx]|[]]; discriminate.
  - destruct Hx as [[s' Hx]|Hx]; [discriminate | simpl in Hx; subst s].
    unfold Ceil, Floor. cbn [neg SFopp negb].
    destruct (0 <=? e); [reflexivity |].
    cbn [negb]. rewrite neg_neg.
    apply has_sign_nonnegative, ofZ_sign.
    pose proof (Z.shiftr_nonneg (Z.pos m) (- e)) as Hk.
    destruct (_ =? _); lia.
Qed.

Lemma truncZ_nonnegative x n :
  nonnegative x = true -> truncZ x = Some n -> 0 <= n.
Proof.
  intros Hx Hn. apply nonnegative_cases in Hx.
  destruct x as [s|s| |s m e]; simpl in Hn; try discriminate.
  - injection Hn as <-. lia.
  - destruct Hx as [[s' Hx]|Hx]; [discriminate | simpl in Hx; subst s].
    injection Hn as <-. simpl.
    destruct (0 <=? e).
    + apply Z.shiftl_nonneg. lia.
    + apply Z.shiftr_nonneg. lia.
Qed.

Lemma int_of_float_nonnegative `{Platform} x :
  nonnegative x = true -> representable x = true -> 0 <= int_of_float x.
Proof.
  unfold representable, int_of_float. intros Hx Hr.
  destruct (truncZ x) as [n|] eqn:E; [|discriminate].
  rewrite Hr. eapply truncZ_nonnegative; eauto.
Qed.

(** ** The scorer *)

Lemma sumZ_nonneg l : Forall (fun n => 0 <= n) l -> 0 <= sumZ l.
Proof. induction 1; simpl; lia. Qed.

Lemma retailerPoints_nonneg retailer : 0 <= retailerPoints retailer.
Proof. unfold retailerPoints. lia. Qed.

Lemma roundDollarPoints_values total :
  roundDollarPoints total = 50 \/ roundDollarPoints total = 0.
Proof. unfold roundDollarPoints. destruct (eqb _ _); auto. Qed.

Lemma quarterPoints_values total :
  quarterPoints total = 25 \/ quarterPoints total = 0.
Proof. unfold quarterPoints. destruct (eqb _ _); auto. Qed.

Lemma itemPairPoints_nonneg items : 0 <= itemPairPoints items.
Proof.
  unfold itemPairPoints.
  pose proof (Z.quot_pos (Z.of_nat (length items)) 2). lia.
Qed.

Lemma oddDayPoints_values purchaseDate :
  oddDayPoints purchaseDate = 6 \/ oddDayPoints purchaseDate = 0.
Proof. unfold oddDayPoints. destruct (_ =? _); auto. Qed.

Lemma afternoonPoints_values purchaseTime :
  afternoonPoints purchaseTime = 10 \/ afternoonPoints purchaseTime = 0.
Proof. unfold afternoonPoints. destruct (_ && _); auto. Qed.

Lemma has_sign_neg s x : has_sign s x -> has_sign (negb s) (neg x).
Proof. destruct x as [s'|s'| |s' m e]; simpl; congruence. Qed.

Lemma truncZ_nonpositive x n :
  has_sign true x -> truncZ x = Some n -> n <= 0.
Proof.
  destruct x as [s|s| |s m e]; simpl; try discriminate.
  - intros _ [= <-]. lia.
  - intros -> [= <-]. simpl.
    destruct (0 <=? e).
    + pose proof (Z.shiftl_nonneg (Z.pos m) e). lia.
    + pose proof (Z.shiftr_nonneg (Z.pos m) (- e)). lia.
Qed.

Lemma Ceil_negative x : has_sign true x -> has_sign true (Ceil x).
Proof.
  destruct x as [s|s| |s m e]; simpl; try contradiction.
  - intros ->. reflexivity.
  - intros ->. reflexivity.
  - intros ->. unfold Ceil, Floor. cbn [neg SFopp negb].
    destruct (0 <=? e); [reflexivity |].
    apply (has_sign_neg false), ofZ_sign.
    apply Z.shiftr_nonneg. lia.
Qed.

Lemma mul_c0_2_negative x :
  negative x = true -> has_sign true (mul x c0_2).
Proof.
  rewrite c0_2_value. unfold negative, SFltb.
  destruct x as [s|[]| |[] m e]; simpl; try discriminate; intros _;
    try reflexivity.
  unfold mul, SFmul. apply binary_round_aux_sign. lia.
Qed.

Lemma descriptionPoints_nonpos `{Platform} item :
  negative (itemPrice item) = true ->
  representable (Ceil (mul (itemPrice item) c0_2)) = true ->
  descriptionPoints item <= 0.
Proof.
  intros Hneg Hrep.
  assert (Hb : descriptionBonus item <= 0).
  { unfold descriptionBonus, int_of_float.
    unfold representable in Hrep.
    destruct (truncZ _) as [n|] eqn:E; [|discriminate].
    rewrite Hrep.
    exact (truncZ_nonpositive _ _
             (Ceil_negative _ (mul_c0_2_negative _ Hneg)) E). }
  unfold descriptionPoints. destruct (_ =? _); lia.
Qed.

Lemma descriptionPoints_nonneg `{Platform} item :
  (Z.rem (trimmedLen item) 3 = 0 ->
   nonnegative (itemPrice item) = true
   /\ representable (Ceil (mul (itemPrice item) c0_2)) = true) ->
  0 <= descriptionPoints item.
Proof.
  intros Hitem. unfold descriptionPoints.
  destruct (Z.rem _ 3 =? 0) eqn:E; [|lia].
  apply Z.eqb_eq in E. destruct (Hitem E) as [Hp Hr].
  unfold descriptionBonus.
  apply int_of_float_nonnegative; [|exact Hr].
  apply Ceil_nonnegative, mul_c0_2_nonnegative, Hp.
Qed.

(** C1, as amended. The amounts of the rules other than rule 5 are at least
    0 for every receipt. The amount of rule 5 for an item is at least 0 when
    the item is not counted, or has a price that parses to a number that is
    not negative and whose bonus [ceil(price * 0.2)] fits [int]; it is 0 or
    less when the price parses to a negative number whose bonus fits [int].
    The score is the sum of the seven amounts, wrapped to [int]; it is at
    least 0 for a receipt whose counted items all have such prices that are
    not negative and whose seven amounts add up to at most the largest
    [int]. *)
Theorem calculatePoints_nonnegative `{Platform} (receipt : Receipt) :
  0 <= retailerPoints (Retailer receipt)
  /\ 0 <= roundDollarPoints (Total receipt)
  /\ 0 <= quarterPoints (Total receipt)
  /\ 0 <= itemPairPoints (Items receipt)
  /\ 0 <= oddDayPoints (PurchaseDate receipt)
  /\ 0 <= afternoonPoints (PurchaseTime receipt)
  /\ (forall item,
        (Z.rem (trimmedLen item) 3 = 0 ->
         nonnegative (itemPrice item) = true
         /\ representable (Ceil (mul (itemPrice item) c0_2)) = true) ->
        0 <= descriptionPoints item)
  /\ (forall item,
        negative (itemPrice item) = true ->
        representable (Ceil (mul (itemPrice item) c0_2)) = true ->
        descriptionPoints item <= 0)
  /\ calculatePoints receipt = wrap (exactPoints receipt)
  /\ (Forall (fun item =>
                Z.rem (trimmedLen item) 3 = 0 ->
                nonnegative (itemPrice item) = true
                /\ representable (Ceil (mul (itemPrice item) c0_2)) = true)
             (Items receipt) ->
      exactPoints receipt <= maxInt ->
      0 <= calculatePoints receipt).
Proof.
  pose proof (retailerPoints_nonneg (Retailer receipt)) as H1.
  assert (H2 : 0 <= roundDollarPoints (Total receipt))
    by (destruct (roundDollarPoints_values (Total receipt)); lia).
  assert (H3 : 0 <= quarterPoints (Total receipt))
    by (destruct (quarterPoints_values (Total receipt)); lia).
  pose proof (itemPairPoints_nonneg (Items receipt)) as H4.
  assert (H6 : 0 <= oddDayPoints (PurchaseDate receipt))
    by (destruct (oddDayPoints_values (PurchaseDate receipt)); lia).
  assert (H7 : 0 <= afternoonPoints (PurchaseTime receipt))
    by (destruct (afternoonPoints_values (PurchaseTime receipt)); lia).
  do 6 (split; [assumption |]).
  split; [intros item; apply descriptionPoints_nonneg |].
  split; [intros item; apply descriptionPoints_nonpos |].
  split; [apply calculatePoints_exact |].
  intros Hitems Hmax.
  assert (H5 : Forall (fun item => 0 <= descriptionPoints item) (Items receipt)).
  { eapply List.Forall_impl; [|exact Hitems].
    intros item. apply descriptionPoints_nonneg. }
  rewrite calculatePoints_exact.
  assert (H5' : 0 <= sumZ (map descriptionPoints (Items receipt))).
  { apply sumZ_nonneg. rewrite Forall_map. exact H5. }
  rewrite wrap_inInt; unfold exactPoints in *; unfold minInt; lia.
Qed.

(** The worked example of the specification meets these conditions, and
    scores 20; an item priced at -1.00 adds 0. *)
Lemma calculatePoints_nonnegative_target :
  @exactPoints amd64 targetReceipt <= maxInt
  /\ @calculatePoints amd64 targetReceipt = 20
  /\ 0 <= @calculatePoints amd64 targetReceipt
  /\ @descriptionPoints amd64 smallRefundItem = 0
  /\ @descriptionPoints amd64 smallRefundItem <= 0.
Proof.
  assert (Hmax : @exactPoints amd64 targetReceipt <= maxInt)
    by (vm_compute; discriminate).
  pose proof (@calculatePoints_nonnegative amd64 targetReceipt)
    as (_ & _ & _ & _ & _ & _ & _ & Hneg & _ & Hscore).
  split; [exact Hmax |]. split; [vm_compute; reflexivity |].
  split.
  - apply Hscore; [|exact Hmax].
    repeat constructor; vm_compute; reflexivity.
  - split; [vm_compute; reflexivity |].
    apply Hneg; vm_compute; reflexivity.
Defined.

(** C1 fails as stated: an item priced at -10.00 adds -2, and the score of
    the receipt is -2. *)
Lemma calculatePoints_negative_price :
  negative (itemPrice refundItem) = true
  /\ @descriptionPoints amd64 refundItem = -2
  /\ @calculatePoints amd64 (singleItemReceipt refundItem) = -2
  /\ @calculatePoints arm64 (singleItemReceipt refundItem) = -2.
Proof. vm_compute. auto. Qed.

(** C2, as amended. The loop of rule 5 adds [int(math.Ceil(price * 0.2))]
    for an item exactly when the length of its trimmed description is a
    multiple of 3, zero included: an item whose description trims to length
    0 gets the bonus too. The score is the wrapped sum of the seven
    amounts, the fifth of which is that of these bonuses. *)
Theorem description_bonus_rule `{Platform} (points : Z) (item : Item) (receipt : Receipt) :
  ((exists k, 0 <= k /\ trimmedLen item = 3 * k) ->
     descriptionStep points item = int_add points (descriptionBonus item))
  /\ (~ (exists k, 0 <= k /\ trimmedLen item = 3 * k) ->
     descriptionStep points item = points)
  /\ (trimmedLen item = 0 ->
     descriptionStep points item = int_add points (descriptionBonus item))
  /\ calculatePoints receipt
     = wrap (retailerPoints (Retailer receipt)
             + roundDollarPoints (Total receipt)
             + quarterPoints (Total receipt)
             + itemPairPoints (Items receipt)
             + sumZ (map (fun item =>
                            if Z.rem (trimmedLen item) 3 =? 0
                            then descriptionBonus item else 0)
                         (Items receipt))
             + oddDayPoints (PurchaseDate receipt)
             + afternoonPoints (PurchaseTime receipt)).
Proof.
  assert (Hlen : 0 <= trimmedLen item) by (unfold trimmedLen, len; lia).
  assert (Hstep : forall b, (Z.rem (trimmedLen item) 3 =? 0) = b ->
            descriptionStep points item
            = if b then int_add points (descriptionBonus item) else points).
  { intros b <-. reflexivity. }
  split; [|split; [|split]].
  - intros [k [Hk E]]. apply (Hstep true), Z.eqb_eq.
    rewrite E, Z.mul_comm. apply Z.rem_mul. lia.
  - intros Hno. apply (Hstep false), Z.eqb_neq. intros E. apply Hno.
    exists (Z.quot (trimmedLen item) 3). split.
    + apply Z.quot_pos; lia.
    + pose proof (Z.quot_rem' (trimmedLen item) 3). lia.
  - intros E. apply (Hstep true). rewrite E. reflexivity.
  - apply calculatePoints_exact.
Qed.

(** C2 fails as stated: a description of three spaces trims to length 0, and
    its item gets the bonus [ceil(10.00 * 0.2) = 2], the whole score of a
    receipt that no other rule scores. *)
Lemma blank_description_gets_bonus :
  trimmedLen blankItem = 0
  /\ @descriptionStep amd64 0 blankItem = 2
  /\ @calculatePoints amd64 (singleItemReceipt blankItem) = 2
  /\ @calculatePoints amd64 (bareReceipt "1.10" "2022-01-02" "09:30") = 0.
Proof. vm_compute. auto. Qed.

(** ** Totals *)

(** A text that is no number parses to zero. *)
Lemma ParseFloat_syntax_error s :
  snd (strconv.ParseFloat s) = Some strconv.ErrSyntax ->
  fst (strconv.ParseFloat s) = S754_zero false.
Proof.
  unfold strconv.ParseFloat, strconv.atof64.
  destruct (strconv.special s) as [[val rest]|].
  - destruct rest; simpl; [discriminate | reflexivity].
  - destruct (strconv.readFloat s) as [n|].
    + set (f := if strconv.num_hex n then _ else _).
      destruct (strconv.num_rest n), (isInf f); simpl;
        try discriminate; reflexivity.
    + destruct s; reflexivity.
Qed.

(** A number too large for a [float64] parses to an infinity. *)
Lemma ParseFloat_range_error s :
  snd (strconv.ParseFloat s) = Some strconv.ErrRange ->
  isInf (fst (strconv.ParseFloat s)) = true.
Proof.
  unfold strconv.ParseFloat, strconv.atof64.
  destruct (strconv.special s) as [[val rest]|].
  - destruct rest; simpl; discriminate.
  - destruct (strconv.readFloat s) as [n|].
    + set (f := if strconv.num_hex n then _ else _).
      destruct (strconv.num_rest n), (isInf f) eqn:E; simpl;
        try discriminate; intros _; exact E.
    + destruct s; simpl; discriminate.
Qed.

Lemma infinite_total_rules x :
  isInf x = true ->
  eqb x (Floor x) = true /\ eqb (Mod (mul x c100) c25) c0 = false.
Proof. destruct x as [s|[]| |s m e]; try discriminate; intros _; split; reflexivity. Qed.

(** C3, as amended. When the total fails to parse, [calculatePoints] goes on
    with what [strconv.ParseFloat] returns beside its error. For a total
    that is no number at all (a syntax error) that is zero, and the receipt
    gets the 50 points of rule 2 and the 25 points of rule 3. For a number
    too large for a [float64] (a range error) it is an infinity, and the
    receipt gets the 50 points of rule 2 alone. *)
Theorem unparsed_total_scores `{Platform} (receipt : Receipt) (e : strconv.NumError) :
  snd (strconv.ParseFloat (Total receipt)) = Some e ->
  roundDollarPoints (Total receipt) = 50
  /\ quarterPoints (Total receipt)
     = match e with strconv.ErrSyntax => 25 | strconv.ErrRange => 0 end
  /\ match e with
     | strconv.ErrSyntax => fst (strconv.ParseFloat (Total receipt)) = S754_zero false
     | strconv.ErrRange => isInf (fst (strconv.ParseFloat (Total receipt))) = true
     end
  /\ calculatePoints receipt
     = wrap (retailerPoints (Retailer receipt)
             + 50
             + match e with strconv.ErrSyntax => 25 | strconv.ErrRange => 0 end
             + itemPairPoints (Items receipt)
             + sumZ (map descriptionPoints (Items receipt))
             + oddDayPoints (PurchaseDate receipt)
             + afternoonPoints (PurchaseTime receipt)).
Proof.
  intros Herr.
  assert (Hrules : roundDollarPoints (Total receipt) = 50
                   /\ quarterPoints (Total receipt)
                      = match e with strconv.ErrSyntax => 25 | strconv.ErrRange => 0 end
                   /\ match e with
                      | strconv.ErrSyntax =>
                          fst (strconv.ParseFloat (Total receipt)) = S754_zero false
                      | strconv.ErrRange =>
                          isInf (fst (strconv.ParseFloat (Total receipt))) = true
                      end).
  { unfold roundDollarPoints, quarterPoints. destruct e.
    - apply ParseFloat_syntax_error in Herr. rewrite Herr. repeat split.
    - apply ParseFloat_range_error in Herr.
      destruct (infinite_total_rules _ Herr) as [-> ->]. repeat split.
      exact Herr. }
  destruct Hrules as (H2 & H3 & Hval).
  repeat split; try assumption.
  rewrite calculatePoints_exact. unfold exactPoints. now rewrite H2, H3.
Qed.

Lemma unparsed_total_scores_abc :
  snd (strconv.ParseFloat (Total (bareReceipt "abc" "2022-01-02" "09:30")))
  = Some strconv.ErrSyntax
  /\ @calculatePoints amd64 (bareReceipt "abc" "2022-01-02" "09:30") = 75.
Proof.
  split; [reflexivity |].
  destruct (@unparsed_total_scores amd64
              (bareReceipt "abc" "2022-01-02" "09:30") strconv.ErrSyntax eq_refl)
    as (_ & _ & _ & ->).
  reflexivity.
Defined.

(** C3 fails as stated: a total too large for a [float64] fails to parse
    with a range error, is taken as an infinity, not as zero, and the
    receipt gets the 50 points of rule 2 alone. *)
Lemma out_of_range_total_scores_50 :
  strconv.ParseFloat "1e999" = (S754_infinity false, Some strconv.ErrRange)
  /\ roundDollarPoints "1e999" = 50
  /\ quarterPoints "1e999" = 0
  /\ @calculatePoints amd64 (bareReceipt "1e999" "2022-01-02" "09:30") = 50.
Proof. vm_compute. auto. Qed.

(** C5, as amended. Rules 2 and 3 each read the total on their own: a total
    of 100.00 gets both bonuses, 100.10 neither, and 100.25 and 100.50 the 25
    points of rule 3 alone, none of the two being a whole number of
    dollars. *)
Theorem total_rules_examples :
  (roundDollarPoints "100.00", quarterPoints "100.00") = (50, 25)
  /\ (roundDollarPoints "100.10", quarterPoints "100.10") = (0, 0)
  /\ (roundDollarPoints "100.25", quarterPoints "100.25") = (0, 25)
  /\ (roundDollarPoints "100.50", quarterPoints "100.50") = (0, 25)
  /\ @calculatePoints amd64 (bareReceipt "100.00" "2022-01-02" "09:30") = 75
  /\ @calculatePoints amd64 (bareReceipt "100.10" "2022-01-02" "09:30") = 0
  /\ @calculatePoints amd64 (bareReceipt "100.25" "2022-01-02" "09:30") = 25
  /\ @calculatePoints amd64 (bareReceipt "100.50" "2022-01-02" "09:30") = 25.
Proof. vm_compute. repeat split. Qed.

(** C5 fails as stated: a total of 100.50 is no round dollar amount, and
    gets 25 points, not 75. *)
Lemma total_100_50_scores_25 :
  roundDollarPoints "100.50" = 0
  /\ roundDollarPoints "100.50" + quarterPoints "100.50" <> 75
  /\ @calculatePoints amd64 (bareReceipt "100.50" "2022-01-02" "09:30") = 25.
Proof. vm_compute. repeat split. discriminate. Qed.

(** ** Dates and times *)

Lemma Date_year_0 hour min :
  time.seconds (time.Date 0 1 1 hour min) = -31622400 + hour * 3600 + min * 60.
Proof.
  unfold time.Date.
  change (time.daysSinceEpoch 0) with (-366).
  change (time.daysBefore (1 - 1)) with 0.
  change (time.isLeap 0 && (3 <=? 1)) with false.
  cbn [time.seconds]. lia.
Qed.

(** Rule 7 in terms of the hour and the minute read. *)
Lemma afternoonPoints_fields purchaseTime :
  afternoonPoints purchaseTime
  = match time.clockFields purchaseTime with
    | inl _ => 0
    | inr (hour, min) =>
        if (14 * 60 <? hour * 60 + min) && (hour * 60 + min <? 16 * 60)
        then 10 else 0
    end.
Proof.
  unfold afternoonPoints.
  change (fst (time.ParseClock "14:00")) with (time.Date 0 1 1 14 0).
  change (fst (time.ParseClock "16:00")) with (time.Date 0 1 1 16 0).
  unfold time.ParseClock, time.After, time.Before.
  destruct (time.clockFields purchaseTime) as [e|[hour min]]; cbn [fst].
  - reflexivity.
  - rewrite !Date_year_0.
    assert (E1 : (-31622400 + 14 * 3600 + 0 * 60 <? -31622400 + hour * 3600 + min * 60)
                 = (14 * 60 <? hour * 60 + min)).
    { destruct (Z.ltb_spec (14 * 60) (hour * 60 + min));
        [apply Z.ltb_lt | apply Z.ltb_ge]; lia. }
    assert (E2 : (-31622400 + hour * 3600 + min * 60 <? -31622400 + 16 * 3600 + 0 * 60)
                 = (hour * 60 + min <? 16 * 60)).
    { destruct (Z.ltb_spec (hour * 60 + min) (16 * 60));
        [apply Z.ltb_lt | apply Z.ltb_ge]; lia. }
    rewrite E1, E2. reflexivity.
Qed.

(** C6. [calculatePoints] adds the 10 points of rule 7 exactly when the
    purchase time parses, as [H:MM] or [HH:MM], to a time strictly between
    14:00 and 16:00: the score of a receipt is that of the same receipt
    without a purchase time, plus 10 in that case and as it is in every
    other. No other amount is ever added for the time, and 14:00 and 16:00
    themselves get nothing. *)
Theorem afternoon_window `{Platform} (receipt : Receipt) (purchaseTime : string) :
  (afternoonPoints purchaseTime = 10 <->
   exists hour min,
     time.clockFields purchaseTime = inr (hour, min)
     /\ 14 * 60 < hour * 60 + min < 16 * 60)
  /\ (afternoonPoints purchaseTime = 10 \/ afternoonPoints purchaseTime = 0)
  /\ afternoonPoints "14:00" = 0
  /\ afternoonPoints "16:00" = 0
  /\ afternoonPoints "14:01" = 10
  /\ afternoonPoints "15:59" = 10
  /\ calculatePoints (withPurchaseTime receipt purchaseTime)
     = match time.clockFields purchaseTime with
       | inr (hour, min) =>
           if (14 * 60 <? hour * 60 + min) && (hour * 60 + min <? 16 * 60)
           then int_add (calculatePoints (withPurchaseTime receipt "")) 10
           else calculatePoints (withPurchaseTime receipt "")
       | inl _ => calculatePoints (withPurchaseTime receipt "")
       end
  /\ calculatePoints (withPurchaseTime receipt "14:00")
     = calculatePoints (withPurchaseTime receipt "")
  /\ calculatePoints (withPurchaseTime receipt "16:00")
     = calculatePoints (withPurchaseTime receipt "")
  /\ calculatePoints (withPurchaseTime receipt "14:01")
     = int_add (calculatePoints (withPurchaseTime receipt "")) 10
  /\ calculatePoints (withPurchaseTime receipt "15:59")
     = int_add (calculatePoints (withPurchaseTime receipt "")) 10.
Proof.
  assert (Hscore : forall t,
            calculatePoints (withPurchaseTime receipt t)
            = match time.clockFields t with
              | inr (hour, min) =>
                  if (14 * 60 <? hour * 60 + min) && (hour * 60 + min <? 16 * 60)
                  then int_add (calculatePoints (withPurchaseTime receipt "")) 10
                  else calculatePoints (withPurchaseTime receipt "")
              | inl _ => calculatePoints (withPurchaseTime receipt "")
              end).
  { intros t. rewrite !calculatePoints_exact. unfold exactPoints.
    cbn [withPurchaseTime Retailer PurchaseDate PurchaseTime Items Total].
    change (afternoonPoints "") with 0.
    rewrite afternoonPoints_fields.
    destruct (time.clockFields t) as [e|[hour min]]; [reflexivity |].
    destruct (_ && _); [|reflexivity].
    rewrite int_add_wrap. f_equal. lia. }
  split.
  { rewrite afternoonPoints_fields.
    destruct (time.clockFields purchaseTime) as [e|[hour min]].
    - split; [discriminate | intros (h & m & Heq & _); discriminate].
    - destruct (_ && _) eqn:B.
      + apply andb_true_iff in B. destruct B as [B1 B2].
        apply Z.ltb_lt in B1, B2.
        split; [intros _ | reflexivity].
        exists hour, min. split; [reflexivity | lia].
      + split; [discriminate |].
        intros (h & m & Heq & Hwin). inversion Heq; subst.
        apply andb_false_iff in B.
        destruct B as [B|B]; apply Z.ltb_ge in B; lia. }
  split; [apply afternoonPoints_values |].
  do 4 (split; [vm_compute; reflexivity |]).
  split; [apply Hscore |].
  split; [exact (Hscore "14:00") |].
  split; [exact (Hscore "16:00") |].
  split; [exact (Hscore "14:01") | exact (Hscore "15:59")].
Qed.

Lemma ParseDate_error value :
  snd (time.ParseDate value) <> None -> fst (time.ParseDate value) = time.zero.
Proof.
  unfold time.ParseDate.
  destruct (time.dateFields value) as [e|[[year month] day]]; simpl;
    [reflexivity | congruence].
Qed.

(** C10. A purchase date that does not parse as [YYYY-MM-DD] is taken as the
    zero time, January 1 of year 1, whose day is odd: the receipt gets the 6
    points of rule 6. *)
Theorem unparsed_date_scores_6 `{Platform} (receipt : Receipt) :
  snd (time.ParseDate (PurchaseDate receipt)) <> None ->
  fst (time.ParseDate (PurchaseDate receipt)) = time.zero
  /\ time.Day time.zero = 1
  /\ oddDayPoints (PurchaseDate receipt) = 6
  /\ calculatePoints receipt
     = wrap (retailerPoints (Retailer receipt)
             + roundDollarPoints (Total receipt)
             + quarterPoints (Total receipt)
             + itemPairPoints (Items receipt)
             + sumZ (map descriptionPoints (Items receipt))
             + 6
             + afternoonPoints (PurchaseTime receipt)).
Proof.
  intros Herr. apply ParseDate_error in Herr.
  assert (H6 : oddDayPoints (PurchaseDate receipt) = 6)
    by (unfold oddDayPoints; rewrite Herr; reflexivity).
  repeat split; try assumption.
  rewrite calculatePoints_exact. unfold exactPoints. now rewrite H6.
Qed.

(** February 30 is no date: the day read, 30, is even, and the receipt gets
    the 6 points all the same. *)
Lemma unparsed_date_scores_6_february_30 :
  snd (time.ParseDate (PurchaseDate (bareReceipt "1.10" "2022-02-30" "09:30")))
  = Some time.OutOfRange
  /\ @calculatePoints amd64 (bareReceipt "1.10" "2022-02-30" "09:30") = 6.
Proof.
  split; [reflexivity |].
  destruct (@unparsed_date_scores_6 amd64
              (bareReceipt "1.10" "2022-02-30" "09:30"))
    as (_ & _ & _ & ->); [discriminate | reflexivity].
Defined.

(** C8. The score depends on the five fields of the receipt and on nothing
    else: receipts with the same fields get the same score. *)
Theorem calculatePoints_deterministic `{Platform} (r1 r2 : Receipt) :
  Retailer r1 = Retailer r2 ->
  PurchaseDate r1 = PurchaseDate r2 ->
  PurchaseTime r1 = PurchaseTime r2 ->
  Items r1 = Items r2 ->
  Total r1 = Total r2 ->
  calculatePoints r1 = calculatePoints r2.
Proof.
  destruct r1, r2; simpl. intros -> -> -> -> ->. reflexivity.
Qed.

Lemma calculatePoints_deterministic_target :
  @calculatePoints amd64 targetReceipt
  = @calculatePoints amd64
      {| Retailer := Retailer targetReceipt;
         PurchaseDate := PurchaseDate targetReceipt;
         PurchaseTime := PurchaseTime targetReceipt;
         Items := Items targetReceipt;
         Total := Total targetReceipt |}.
Proof.
  apply (@calculatePoints_deterministic amd64); reflexivity.
Defined.

(** ** The store *)

Section StoreFacts.

Context `{Platform}.

Lemma getPoints_store id st : fst (Store.getPoints id st) = st.
Proof. unfold Store.getPoints. destruct (_ !! id); reflexivity. Qed.

Lemma getPoints_present id st points :
  Store.receipts st !! id = Some points ->
  Store.getPoints id st = (st, Store.Points points).
Proof. unfold Store.getPoints. intros ->. reflexivity. Qed.

Lemma getPoints_absent id st :
  Store.receipts st !! id = None ->
  Store.getPoints id st = (st, Store.ReceiptNotFound).
Proof. unfold Store.getPoints. intros ->. reflexivity. Qed.

(** A request leaves the record of [id] as it is, unless it is given [id]
    itself as its new identifier. *)
Lemma serve_other st req id :
  match req with
  | Store.POST (Some _) uuid => uuid <> id
  | _ => True
  end ->
  Store.receipts (fst (Store.serve st req)) !! id = Store.receipts st !! id.
Proof.
  destruct req as [[receipt|] uuid|id']; simpl; intros Hreq.
  - now apply lookup_insert_ne.
  - reflexivity.
  - now rewrite getPoints_store.
Qed.

Lemma run_cons st req reqs :
  Store.run st (req :: reqs) = Store.run (fst (Store.serve st req)) reqs.
Proof. reflexivity. Qed.

(** Once present, a record stays, with its score unless the identifier
    is issued again. *)
Lemma run_kept st reqs id points :
  Store.receipts st !! id = Some points ->
  ~ In id (Store.issued reqs) ->
  Store.receipts (Store.run st reqs) !! id = Some points.
Proof.
  revert st. induction reqs as [|req reqs IH]; intros st Hid Hnot.
  - exact Hid.
  - rewrite run_cons. apply IH.
    + rewrite serve_other; [exact Hid |].
      destruct req as [[receipt|] uuid|id']; try exact I.
      intros ->. apply Hnot. now left.
    + intros Hin. apply Hnot.
      destruct req as [[receipt|] uuid|id']; simpl; auto.
Qed.

(** Once present, a record stays. *)
Lemma run_stays st reqs id :
  is_Some (Store.receipts st !! id) ->
  is_Some (Store.receipts (Store.run st reqs) !! id).
Proof.
  revert st. induction reqs as [|req reqs IH]; intros st Hid.
  - exact Hid.
  - rewrite run_cons. apply IH.
    destruct req as [[receipt|] uuid|id']; simpl.
    + destruct (decide (uuid = id)) as [->|Hne].
      * rewrite lookup_insert_eq. eauto.
      * rewrite lookup_insert_ne by exact Hne. exact Hid.
    + exact Hid.
    + rewrite getPoints_store. exact Hid.
Qed.

Lemma run_app st reqs reqs' :
  Store.run st (reqs ++ reqs') = Store.run (Store.run st reqs) reqs'.
Proof. apply fold_left_app. Qed.

(** An identifier that is not issued stays absent. *)
Lemma run_absent st reqs id :
  Store.receipts st !! id = None ->
  ~ In id (Store.issued reqs) ->
  Store.receipts (Store.run st reqs) !! id = None.
Proof.
  revert st. induction reqs as [|req reqs IH]; intros st Hid Hnot.
  - exact Hid.
  - rewrite run_cons. apply IH.
    + rewrite serve_other; [exact Hid |].
      destruct req as [[receipt|] uuid|id']; try exact I.
      intros ->. apply Hnot. now left.
    + intros Hin. apply Hnot.
      destruct req as [[receipt|] uuid|id']; simpl; auto.
Qed.

(** An identifier that is present is not issued again, when the identifiers
    drawn are new ones. *)
Lemma present_not_issued st reqs id points :
  Store.receipts st !! id = Some points ->
  Store.unique st reqs ->
  ~ In id (Store.issued reqs).
Proof.
  revert st. induction reqs as [|req reqs IH]; intros st Hid Huniq Hin;
    [exact Hin |].
  destruct Huniq as [Hreq Huniq].
  assert (Hnext : Store.receipts (fst (Store.serve st req)) !! id = Some points).
  { rewrite serve_other; [exact Hid |].
    destruct req as [[receipt|] uuid|id']; try exact I.
    intros ->. congruence. }
  destruct req as [[receipt|] uuid|id']; simpl in Hin.
  - destruct Hin as [->|Hin]; [congruence | exact (IH _ Hnext Huniq Hin)].
  - exact (IH _ Hnext Huniq Hin).
  - exact (IH _ Hnext Huniq Hin).
Qed.

(** C4, as amended. [processReceipt] answers with the identifier under
    which it stored the score of the receipt, and [getPoints] answers that
    identifier with that score at once. Whatever requests are served
    afterwards, [getPoints] finds the identifier: no record is deleted. It
    answers with the score of the receipt when none of those requests is
    given the same identifier; a later receipt that is given it has its
    score stored in the place of the first, for [processReceipt] assigns
    without looking whether the identifier is present. *)
Theorem stored_score_is_final (st : Store.Storage) (receipt receipt' : Receipt)
    (uuid : string) (later : list Store.Request) :
  snd (Store.processReceipt (Some receipt) uuid st) = Store.ID uuid
  /\ Store.getPoints uuid (fst (Store.processReceipt (Some receipt) uuid st))
     = (fst (Store.processReceipt (Some receipt) uuid st),
        Store.Points (calculatePoints receipt))
  /\ (exists points,
        Store.getPoints uuid
          (Store.run st (Store.POST (Some receipt) uuid :: later))
        = (Store.run st (Store.POST (Some receipt) uuid :: later),
           Store.Points points))
  /\ (~ In uuid (Store.issued later) ->
      Store.getPoints uuid
        (Store.run st (Store.POST (Some receipt) uuid :: later))
      = (Store.run st (Store.POST (Some receipt) uuid :: later),
         Store.Points (calculatePoints receipt)))
  /\ Store.getPoints uuid
       (Store.run st (Store.POST (Some receipt) uuid
                      :: later ++ [Store.POST (Some receipt') uuid]))
     = (Store.run st (Store.POST (Some receipt) uuid
                      :: later ++ [Store.POST (Some receipt') uuid]),
        Store.Points (calculatePoints receipt')).
Proof.
  assert (Hput : Store.receipts
                   (fst (Store.serve st (Store.POST (Some receipt) uuid))) !! uuid
                 = Some (calculatePoints receipt))
    by apply lookup_insert_eq.
  split; [reflexivity |].
  split; [apply getPoints_present, Hput |].
  split.
  { rewrite run_cons.
    destruct (run_stays _ later uuid (ex_intro _ _ Hput)) as [points Hp].
    exists points. apply getPoints_present, Hp. }
  split.
  { intros Hnot. rewrite run_cons. apply getPoints_present.
    now apply run_kept. }
  rewrite run_cons, run_app. apply getPoints_present.
  cbn [Store.run fold_left Store.serve Store.processReceipt fst Store.receipts].
  apply lookup_insert_eq.
Qed.

(** C7. [getPoints] answers an identifier that no request was given with
    "Receipt not found", and it leaves the store as it is, for every
    identifier. *)
Theorem unknown_id_not_found (reqs : list Store.Request) (id : string)
    (st : Store.Storage) :
  ~ In id (Store.issued reqs) ->
  Store.getPoints id (Store.run Store.store reqs)
  = (Store.run Store.store reqs, Store.ReceiptNotFound)
  /\ fst (Store.getPoints id st) = st.
Proof.
  intros Hnot. split; [|apply getPoints_store].
  apply getPoints_absent, run_absent; [apply lookup_empty | exact Hnot].
Qed.

End StoreFacts.

Lemma stored_score_is_final_session :
  ~ In "id-1" (Store.issued session)
  /\ Store.getPoints "id-1"
       (@Store.run amd64 Store.store
          (Store.POST (Some targetReceipt) "id-1" :: session))
     = (@Store.run amd64 Store.store
          (Store.POST (Some targetReceipt) "id-1" :: session),
        Store.Points 20).
Proof.
  assert (Hnot : ~ In "id-1" (Store.issued session)).
  { intros [Hin | []]. discriminate Hin. }
  split; [exact Hnot |].
  exact (proj1 (proj2 (proj2 (proj2
           (@stored_score_is_final amd64 Store.store targetReceipt targetReceipt
              "id-1" session)))) Hnot).
Defined.

(** C4 fails as stated: the score of an identifier that is present is
    updated by a receipt that is given the same identifier. *)
Lemma same_identifier_replaces_score :
  snd (Store.getPoints "7fb1377b-b223-49d9-a31a-5a02701dd310"
         (@Store.run amd64 Store.store
            [Store.POST (Some targetReceipt) "7fb1377b-b223-49d9-a31a-5a02701dd310"]))
  = Store.Points 20
  /\ snd (Store.getPoints "7fb1377b-b223-49d9-a31a-5a02701dd310"
            (@Store.run amd64 Store.store
               [Store.POST (Some targetReceipt) "7fb1377b-b223-49d9-a31a-5a02701dd310";
                Store.POST (Some (singleItemReceipt blankItem))
                  "7fb1377b-b223-49d9-a31a-5a02701dd310"]))
     = Store.Points 2.
Proof. vm_compute. auto. Qed.

Lemma unknown_id_not_found_session :
  Store.getPoints "id-3"
    (@Store.run amd64 Store.store
       (Store.POST (Some targetReceipt) "id-1" :: session))
  = (@Store.run amd64 Store.store
       (Store.POST (Some targetReceipt) "id-1" :: session),
     Store.ReceiptNotFound).
Proof.
  refine (proj1 (@unknown_id_not_found amd64
                   (Store.POST (Some targetReceipt) "id-1" :: session)
                   "id-3" Store.store _)).
  simpl. intros [E|[E|[]]]; discriminate.
Defined.

(** ** The handlers under every interleaving *)

Section Counting.

Import Concurrent.

Variable p : Handler -> bool.

Lemma count_snoc hs h : count p (hs ++ [h]) = (count p hs + weight p h)%nat.
Proof.
  unfold count, weight. rewrite List.filter_app, length_app. simpl.
  destruct (p h); reflexivity.
Qed.

Lemma count_cons h hs : count p (h :: hs) = (weight p h + count p hs)%nat.
Proof. unfold count, weight. simpl. destruct (p h); reflexivity. Qed.

(** Replacing the handler at [i] moves the count by the two weights. *)
Lemma count_insert hs i h h' :
  hs !! i = Some h ->
  (count p (<[i := h']> hs) + weight p h = count p hs + weight p h')%nat.
Proof.
  revert i. induction hs as [|h0 hs IH]; intros i Hi; [discriminate |].
  destruct i as [|i]; simpl in *.
  - injection Hi as ->. rewrite !count_cons. lia.
  - rewrite !count_cons. specialize (IH i Hi). lia.
Qed.

Lemma count_one hs i h :
  hs !! i = Some h -> p h = true -> (1 <= count p hs)%nat.
Proof.
  revert i. induction hs as [|h0 hs IH]; intros i Hi Hp; [discriminate |].
  rewrite count_cons. destruct i as [|i]; simpl in *.
  - injection Hi as ->. unfold weight. rewrite Hp. lia.
  - specialize (IH i Hi Hp). lia.
Qed.

Lemma count_two hs i j h h' :
  hs !! i = Some h -> hs !! j = Some h' -> i <> j ->
  p h = true -> p h' = true -> (2 <= count p hs)%nat.
Proof.
  revert i j. induction hs as [|h0 hs IH]; intros i j Hi Hj Hne Hp Hp';
    [discriminate |].
  rewrite count_cons. destruct i as [|i], j as [|j]; simpl in *.
  - congruence.
  - injection Hi as ->. pose proof (count_one hs j h' Hj Hp').
    unfold weight. rewrite Hp. lia.
  - injection Hj as ->. pose proof (count_one hs i h Hi Hp).
    unfold weight. rewrite Hp'. lia.
  - assert (Hij : i <> j) by congruence.
    specialize (IH i j Hi Hj Hij Hp Hp'). lia.
Qed.

End Counting.

Section Exclusion.

Import Concurrent.

Lemma consistent_initial : consistent initial.
Proof. repeat split. Qed.

Lemma step_consistent s s' : consistent s -> step s s' -> consistent s'.
Proof.
  intros (Hr & Hw & Hwr) Hstep.
  destruct Hstep as
    [ h Harr | i id points Hi Hfree Hnone | i id points Hi | i id points Hi
    | i id Hi | i id Hi Hfree | i id Hi | i id found Hi ];
    unfold consistent; cbn [io handlers receipts writer readers].
  - rewrite !count_snoc. unfold weight.
    destruct h; try discriminate; simpl; rewrite !Nat.add_0_r; auto.
  - pose proof (count_insert reading _ _ _ (PutLocked id points) Hi) as Cr.
    pose proof (count_insert writing _ _ _ (PutLocked id points) Hi) as Cw.
    unfold weight in *. simpl in *. rewrite Hfree in Hw. repeat split; lia.
  - pose proof (count_insert reading _ _ _ (PutWriting id points) Hi) as Cr.
    pose proof (count_insert writing _ _ _ (PutWriting id points) Hi) as Cw.
    unfold weight in *. simpl in *. repeat split; try lia. exact Hwr.
  - pose proof (count_insert reading _ _ _ (PutStored id) Hi) as Cr.
    pose proof (count_insert writing _ _ _ (PutStored id) Hi) as Cw.
    unfold weight in *. simpl in *. repeat split; try lia. exact Hwr.
  - pose proof (count_insert reading _ _ _ (PutDone id) Hi) as Cr.
    pose proof (count_insert writing _ _ _ (PutDone id) Hi) as Cw.
    unfold weight in *. simpl in *.
    destruct (writer (io s)); repeat split; try lia; discriminate.
  - pose proof (count_insert reading _ _ _ (GetLocked id) Hi) as Cr.
    pose proof (count_insert writing _ _ _ (GetLocked id) Hi) as Cw.
    unfold weight in *. simpl in *. rewrite Hfree in Hw.
    repeat split; try lia; discriminate.
  - pose proof (count_insert reading _ _ _ (GetRead id (receipts s !! id)) Hi) as Cr.
    pose proof (count_insert writing _ _ _ (GetRead id (receipts s !! id)) Hi) as Cw.
    unfold weight in *. simpl in *. repeat split; try lia. exact Hwr.
  - pose proof (count_insert reading _ _ _ (GetDone id found) Hi) as Cr.
    pose proof (count_insert writing _ _ _ (GetDone id found) Hi) as Cw.
    unfold weight in *. simpl in *. repeat split; try lia.
    intros Hwt. specialize (Hwr Hwt). lia.
Qed.

Lemma reachable_consistent s : reachable s -> consistent s.
Proof.
  induction 1 as [|s s' _ IH Hstep];
    [apply consistent_initial | eapply step_consistent; eauto].
Qed.

(** While a handler is between [Lock] and [Unlock], no other handler is
    between [Lock] and [Unlock] or between [RLock] and [RUnlock]. *)
Lemma writer_alone s i j hi hj :
  reachable s ->
  handlers s !! i = Some hi -> handlers s !! j = Some hj -> i <> j ->
  writing hi = true -> writing hj = false /\ reading hj = false.
Proof.
  intros Hs Hi Hj Hne Hwi.
  destruct (reachable_consistent s Hs) as (Hr & Hw & Hwr).
  pose proof (count_one writing _ _ _ Hi Hwi) as H1.
  destruct (writer (io s)) eqn:Ew; [|lia].
  specialize (Hwr eq_refl). split.
  - destruct (writing hj) eqn:Ewj; [|reflexivity].
    pose proof (count_two writing _ _ _ _ _ Hi Hj Hne Hwi Ewj). lia.
  - destruct (reading hj) eqn:Erj; [|reflexivity].
    pose proof (count_one reading _ _ _ Hj Erj). lia.
Qed.

(** The map changes only in a step of a handler that holds the lock. *)
Lemma step_receipts s s' :
  step s s' ->
  receipts s' = receipts s
  \/ exists i id points, handlers s !! i = Some (PutWriting id points).
Proof. destruct 1; simpl; eauto. Qed.

(** Any number of handlers hold the read lock at once. *)
Lemma readers_together (n : nat) (id : string) :
  reachable {| io := {| writer := false; readers := n |};
               receipts := ∅;
               handlers := replicate n (GetLocked id) |}.
Proof.
  induction n as [|n IH]; [apply reachable_initial |].
  eapply reachable_step; [eapply reachable_step; [exact IH |] |].
  - apply (step_request _ (GetReady id)). reflexivity.
  - cbn [io receipts handlers].
    replace (replicate (S n) (GetLocked id))
      with (<[n := GetLocked id]> (replicate n (GetLocked id) ++ [GetReady id])%list).
    + apply (step_RLock
               {| io := {| writer := false; readers := n |};
                  receipts := ∅;
                  handlers := (replicate n (GetLocked id) ++ [GetReady id])%list |}
               n id); [|reflexivity].
      cbn [handlers]. rewrite lookup_app_r; rewrite length_replicate; [|lia].
      now rewrite Nat.sub_diag.
    + rewrite insert_app_r_alt; rewrite length_replicate; [|lia].
      rewrite Nat.sub_diag, replicate_S_end. reflexivity.
Qed.

(** A handler in the middle of its assignment, with a request waiting. *)
Lemma writer_at_work (id other : string) (points : Z) :
  reachable {| io := {| writer := true; readers := 0 |};
               receipts := ∅;
               handlers := [PutWriting id points; GetReady other] |}.
Proof.
  set (free := {| writer := false; readers := 0 |}).
  set (held := {| writer := true; readers := 0 |}).
  set (s1 := {| io := free; receipts := ∅; handlers := [PutReady id points] |}).
  set (s2 := {| io := free; receipts := ∅;
                handlers := [PutReady id points; GetReady other] |}).
  set (s3 := {| io := held; receipts := ∅;
                handlers := [PutLocked id points; GetReady other] |}).
  assert (R1 : reachable s1).
  { exact (reachable_step initial s1 reachable_initial
             (step_request initial (PutReady id points) eq_refl)). }
  assert (R2 : reachable s2).
  { exact (reachable_step s1 s2 R1 (step_request s1 (GetReady other) eq_refl)). }
  assert (R3 : reachable s3).
  { exact (reachable_step s2 s3 R2
             (step_Lock s2 0%nat id points eq_refl eq_refl eq_refl)). }
  exact (reachable_step s3 _ R3 (step_assign_begin s3 0%nat id points eq_refl)).
Qed.

End Exclusion.

(** C9. In every state that the handlers can reach, in any number and under
    any interleaving of their steps: a handler between [Lock] and [Unlock]
    is the only one that holds [store.io] in either way; the map changes
    only in the assignment of such a handler, so never while a handler holds
    the read lock; a lookup is never made while an assignment is under way;
    and any number of handlers can hold the read lock together. *)
Theorem readers_writer_exclusion :
  (forall s i j hi hj,
      Concurrent.reachable s ->
      Concurrent.handlers s !! i = Some hi ->
      Concurrent.handlers s !! j = Some hj -> i <> j ->
      Concurrent.writing hi = true ->
      Concurrent.writing hj = false /\ Concurrent.reading hj = false)
  /\ (forall s s' i h,
      Concurrent.reachable s -> Concurrent.step s s' ->
      Concurrent.handlers s !! i = Some h -> Concurrent.reading h = true ->
      Concurrent.receipts s' = Concurrent.receipts s)
  /\ (forall s i j id h,
      Concurrent.reachable s ->
      Concurrent.handlers s !! i = Some (Concurrent.GetLocked id) ->
      Concurrent.handlers s !! j = Some h ->
      Concurrent.midWrite h = false)
  /\ (forall n id,
      Concurrent.reachable
        {| Concurrent.io := {| Concurrent.writer := false; Concurrent.readers := n |};
           Concurrent.receipts := ∅;
           Concurrent.handlers := replicate n (Concurrent.GetLocked id) |})
  /\ (forall id other points,
      Concurrent.reachable
        {| Concurrent.io := {| Concurrent.writer := true; Concurrent.readers := 0 |};
           Concurrent.receipts := ∅;
           Concurrent.handlers :=
             [Concurrent.PutWriting id points; Concurrent.GetReady other] |}).
Proof.
  split; [|split; [|split; [|split]]].
  - intros s i j hi hj. apply writer_alone.
  - intros s s' i h Hs Hstep Hi Hr.
    destruct (step_receipts s s' Hstep) as [E|(j & id & points & Hj)];
      [exact E |].
    destruct (Nat.eq_dec j i) as [->|Hne].
    { rewrite Hj in Hi. injection Hi as <-. discriminate. }
    destruct (writer_alone s j i _ _ Hs Hj Hi Hne eq_refl) as [_ Hr'].
    congruence.
  - intros s i j id h Hs Hi Hj.
    destruct (Concurrent.midWrite h) eqn:Em; [|reflexivity].
    destruct h; try discriminate.
    destruct (Nat.eq_dec j i) as [->|Hne]; [congruence |].
    destruct (writer_alone s j i _ _ Hs Hj Hi Hne eq_refl) as [_ Hr'].
    discriminate.
  - apply readers_together.
  - apply writer_at_work.
Qed.

(** * Further properties *)

(** ** The calendar *)

Lemma rem_eqb_0 a b : 0 < b -> (Z.rem a b =? 0) = (a mod b =? 0).
Proof.
  intros Hb.
  destruct (Z.eqb_spec (Z.rem a b) 0) as [E|E], (Z.eqb_spec (a mod b) 0) as [F|F];
    try reflexivity; exfalso.
  - apply F. apply Z.mod_divide; [lia |]. apply Z.rem_divide; [lia | exact E].
  - apply E. apply Z.rem_divide; [lia |]. apply Z.mod_divide; [lia | exact F].
Qed.

Lemma isLeap_period year k : time.isLeap (year + 400 * k) = time.isLeap year.
Proof.
  unfold time.isLeap. rewrite !rem_eqb_0 by lia.
  replace (year + 400 * k) with (year + (100 * k) * 4) at 1 by lia.
  replace (year + 400 * k) with (year + (4 * k) * 100) at 1 by lia.
  replace (year + 400 * k) with (year + k * 400) by lia.
  now rewrite !Z.mod_add by lia.
Qed.

Lemma daysSinceEpoch_period year k :
  time.daysSinceEpoch (year + 400 * k) = time.daysSinceEpoch year + 146097 * k.
Proof.
  unfold time.daysSinceEpoch.
  replace (year + 400 * k - 1) with (year - 1 + k * 400) by lia.
  rewrite Z.div_add by lia.
  set (q := (year - 1) / 400).
  replace (year - 1 + k * 400 - 400 * (q + k)) with (year - 1 - 400 * q) by lia.
  cbv zeta. 
  set (y1 := year - 1 - 400 * q).
  set (n1 := y1 / 100).
  set (n2 := (y1 - 100 * n1) / 4).
  lia.
Qed.

Lemma Day_cycle t :
  time.Day t
  = dayInCycle (400 * (time.seconds t / 86400 / 146097))
      (time.seconds t / 86400 - 146097 * (time.seconds t / 86400 / 146097)).
Proof. reflexivity. Qed.

Lemma dayInCycle_period y0 d k : dayInCycle (y0 + 400 * k) d = dayInCycle y0 d.
Proof.
  unfold dayInCycle.
  set (n1 := d / 36524 - Z.shiftr (d / 36524) 2).
  set (d1 := d - 36524 * n1).
  set (n2 := d1 / 1461).
  set (d2 := d1 - 1461 * n2).
  set (n3 := d2 / 365 - Z.shiftr (d2 / 365) 2).
  set (d3 := d2 - 365 * n3).
  cbv zeta.
  replace (y0 + 400 * k + 100 * n1 + 4 * n2 + n3 + 1)
    with (y0 + 100 * n1 + 4 * n2 + n3 + 1 + 400 * k) by lia.
  rewrite isLeap_period. reflexivity.
Qed.

Lemma daysIn_period month year k :
  time.daysIn month (year + 400 * k) = time.daysIn month year.
Proof. unfold time.daysIn. now rewrite isLeap_period. Qed.

Lemma yearDay_period year month day k :
  yearDay (year + 400 * k) month day = yearDay year month day.
Proof. unfold yearDay. now rewrite isLeap_period. Qed.

Lemma dayOfDays_cycle d :
  dayOfDays d = dayInCycle (400 * (d / 146097)) (d - 146097 * (d / 146097)).
Proof.
  unfold dayOfDays. rewrite Day_cycle. cbn [time.seconds].
  now rewrite Z.div_mul by lia.
Qed.

Lemma dayOfDays_period d k : dayOfDays (d + k * 146097) = dayOfDays d.
Proof.
  rewrite !dayOfDays_cycle. rewrite Z.div_add by lia.
  replace (d + k * 146097 - 146097 * (d / 146097 + k))
    with (d - 146097 * (d / 146097)) by lia.
  replace (400 * (d / 146097 + k)) with (400 * (d / 146097) + 400 * k) by lia.
  apply dayInCycle_period.
Qed.

Lemma Day_of_seconds d s :
  0 <= s < 86400 -> time.Day {| time.seconds := d * 86400 + s |} = dayOfDays d.
Proof.
  intros Hs. rewrite dayOfDays_cycle, Day_cycle. cbn [time.seconds].
  replace ((d * 86400 + s) / 86400) with d; [reflexivity |].
  apply Z.div_unique with s; lia.
Qed.

Lemma Date_seconds year month day hour min :
  time.seconds (time.Date year month day hour min)
  = (time.daysSinceEpoch year + yearDay year month day) * 86400
    + (hour * 3600 + min * 60).
Proof. unfold time.Date, yearDay. cbn [time.seconds]. lia. Qed.

Lemma in_range lo n x : lo <= x < lo + Z.of_nat n -> In x (range lo n).
Proof.
  intros Hx. unfold range. apply in_map_iff.
  exists (Z.to_nat (x - lo)). split; [lia |].
  apply in_seq. lia.
Qed.

(** The dates of the years 1 to 400, one by one. *)
Lemma cycle_checked :
  forallb (fun year =>
    forallb (fun month =>
      forallb (dateChecked year month)
        (range 1 (Z.to_nat (time.daysIn month year))))
      (range 1 12))
    (range 1 400) = true.
Proof. vm_compute. reflexivity. Qed.

Lemma cycle_dates year month day :
  1 <= year <= 400 -> 1 <= month <= 12 ->
  1 <= day <= time.daysIn month year ->
  0 <= time.daysSinceEpoch year + yearDay year month day < 146097
  /\ dayOfDays (time.daysSinceEpoch year + yearDay year month day) = day.
Proof.
  intros Hy Hm Hd.
  pose proof cycle_checked as C.
  rewrite forallb_forall in C.
  specialize (C year (in_range 1 400 year ltac:(lia))).
  rewrite forallb_forall in C.
  specialize (C month (in_range 1 12 month ltac:(lia))).
  rewrite forallb_forall in C.
  specialize (C day (in_range 1 (Z.to_nat (time.daysIn month year)) day
                      ltac:(lia))).
  unfold dateChecked in C. cbv zeta in C.
  apply andb_true_iff in C. destruct C as [C C3].
  apply andb_true_iff in C. destruct C as [C1 C2].
  apply Z.leb_le in C1. apply Z.ltb_lt in C2. apply Z.eqb_eq in C3.
  split; [split; assumption | exact C3].
Qed.

(** [Day] gives back the day of every date, of any year. *)
Lemma Day_Date year month day hour min :
  1 <= month <= 12 -> 1 <= day <= time.daysIn month year ->
  0 <= hour < 24 -> 0 <= min < 60 ->
  time.Day (time.Date year month day hour min) = day.
Proof.
  intros Hm Hd Hh Hmin.
  destruct (time.Date year month day hour min) as [secs] eqn:E.
  assert (Hs : secs = (time.daysSinceEpoch year + yearDay year month day) * 86400
                      + (hour * 3600 + min * 60)).
  { rewrite <- Date_seconds, E. reflexivity. }
  rewrite Hs, Day_of_seconds by lia.
  set (k := (year - 1) / 400). set (r := (year - 1) mod 400 + 1).
  assert (Hy : year = r + 400 * k).
  { subst r k. pose proof (Z.div_mod (year - 1) 400 ltac:(lia)). lia. }
  assert (Hr : 1 <= r <= 400).
  { subst r. pose proof (Z.mod_pos_bound (year - 1) 400 ltac:(lia)). lia. }
  rewrite Hy in Hd |- *.
  rewrite daysIn_period in Hd.
  rewrite daysSinceEpoch_period, yearDay_period.
  destruct (cycle_dates r month day Hr Hm Hd) as [_ Hday].
  replace (time.daysSinceEpoch r + 146097 * k + yearDay r month day)
    with (time.daysSinceEpoch r + yearDay r month day + k * 146097) by lia.
  now rewrite dayOfDays_period.
Qed.

(** ** What the layouts accept *)

Lemma isDigit_val c : isDigit c = true -> 0 <= digit_val c <= 9.
Proof.
  unfold isDigit, byte_in, digit_val.
  change (byte_val "0") with 48. change (byte_val "9") with 57.
  intros Hc. apply andb_true_iff in Hc. destruct Hc as [H1 H2].
  apply Z.leb_le in H1, H2. lia.
Qed.

Lemma getnum_some s fixed n rest :
  time.getnum s fixed = Some (n, rest) ->
  0 <= n <= 99
  /\ (String.length s = S (S (String.length rest))
      \/ (fixed = false /\ n <= 9 /\ String.length s = S (String.length rest))).
Proof.
  unfold time.getnum.
  destruct s as [|a s1]; [discriminate |].
  destruct (isDigit a) eqn:Ea; [|discriminate].
  apply isDigit_val in Ea.
  destruct s1 as [|b s2].
  - destruct fixed; [discriminate |].
    intros Heq. inversion Heq; subst. split; [lia | right; auto with lia].
  - destruct (isDigit b) eqn:Eb.
    + apply isDigit_val in Eb.
      intros Heq. inversion Heq; subst. split; [lia | left; reflexivity].
    + destruct fixed; [discriminate |].
      intros Heq. inversion Heq; subst. split; [lia | right; auto with lia].
Qed.

Lemma longYear_some s year rest :
  time.longYear s = Some (year, rest) ->
  0 <= year <= 9999 /\ String.length s = (4 + String.length rest)%nat.
Proof.
  unfold time.longYear.
  destruct s as [|a [|b [|c [|d s4]]]]; try discriminate.
  destruct (isDigit a) eqn:Ea; [|discriminate].
  destruct (isDigit b) eqn:Eb; [|discriminate].
  destruct (isDigit c) eqn:Ec; [|discriminate].
  destruct (isDigit d) eqn:Ed; [|discriminate].
  apply isDigit_val in Ea, Eb, Ec, Ed.
  simpl. intros Heq. inversion Heq; subst. split; [lia | reflexivity].
Qed.

Lemma skip_some s c rest :
  time.skip s c = Some rest -> String.length s = S (String.length rest).
Proof.
  unfold time.skip. destruct s as [|a s1]; [discriminate |].
  destruct (byte_eq a c); [|discriminate].
  intros Heq. inversion Heq; subst. reflexivity.
Qed.

(** A date that the layout accepts is a date of the calendar, written in
    ten bytes. *)
Lemma dateFields_some s year month day :
  time.dateFields s = inr (year, month, day) ->
  0 <= year <= 9999 /\ 1 <= month <= 12
  /\ 1 <= day <= time.daysIn month year
  /\ String.length s = 10%nat.
Proof.
  unfold time.dateFields.
  destruct (time.longYear s) as [[y v1]|] eqn:E1; [|discriminate].
  destruct (time.skip v1 "-") as [v2|] eqn:E2; [|discriminate].
  destruct (time.getnum v2 true) as [[m v3]|] eqn:E3; [|discriminate].
  destruct ((m <=? 0) || (12 <? m)) eqn:Em; [discriminate |].
  destruct (time.skip v3 "-") as [v4|] eqn:E4; [|discriminate].
  destruct (time.getnum v4 true) as [[d v5]|] eqn:E5; [|discriminate].
  destruct v5; [|discriminate].
  destruct ((d <? 1) || (time.daysIn m y <? d)) eqn:Ed; [discriminate |].
  intros Heq. inversion Heq; subst.
  apply longYear_some in E1. apply skip_some in E2, E4.
  apply getnum_some in E3, E5.
  destruct E3 as [_ [E3|[E3 _]]]; [|discriminate].
  destruct E5 as [_ [E5|[E5 _]]]; [|discriminate].
  apply orb_false_iff in Em, Ed. destruct Em as [Em1 Em2], Ed as [Ed1 Ed2].
  apply Z.leb_gt in Em1. apply Z.ltb_ge in Em2, Ed1, Ed2.
  simpl in E5. repeat split; lia.
Qed.

(** A time that the layout accepts is a time of the day, written in four
    or five bytes. *)
Lemma clockFields_some s hour min :
  time.clockFields s = inr (hour, min) ->
  0 <= hour < 24 /\ 0 <= min < 60
  /\ (String.length s = 5%nat \/ (String.length s = 4%nat /\ hour <= 9)).
Proof.
  unfold time.clockFields.
  destruct (time.getnum s false) as [[h v1]|] eqn:E1; [|discriminate].
  destruct ((h <? 0) || (24 <=? h)) eqn:Eh; [discriminate |].
  destruct (time.skip v1 ":") as [v2|] eqn:E2; [|discriminate].
  destruct (time.getnum v2 true) as [[m v3]|] eqn:E3; [|discriminate].
  destruct ((m <? 0) || (60 <=? m)) eqn:Em; [discriminate |].
  destruct v3; [|discriminate].
  intros Heq. inversion Heq; subst.
  apply getnum_some in E1, E3. apply skip_some in E2.
  destruct E3 as [_ [E3|[E3 _]]]; [|discriminate].
  apply orb_false_iff in Eh, Em. destruct Eh as [Eh1 Eh2], Em as [Em1 Em2].
  apply Z.ltb_ge in Eh1, Em1. apply Z.leb_gt in Eh2, Em2.
  simpl in E3.
  split; [lia |]. split; [lia |].
  destruct E1 as [_ [E1|(_ & Hh & E1)]]; [left | right; split]; lia.
Qed.

Lemma rem_2_odd n : 0 <= n -> (Z.rem n 2 =? 1) = Z.odd n.
Proof.
  intros Hn. rewrite Z.rem_mod_nonneg by lia.
  rewrite Zmod_odd. destruct (Z.odd n); reflexivity.
Qed.

(** X1. For a purchase date that parses, as [YYYY-MM-DD] with a month from
    01 to 12 and a day of that month, rule 6 looks at the day written: it
    adds 6 when that day is odd and nothing when it is even. *)
Theorem odd_day_rule (purchaseDate : string) (year month day : Z) :
  time.dateFields purchaseDate = inr (year, month, day) ->
  time.Day (fst (time.ParseDate purchaseDate)) = day
  /\ oddDayPoints purchaseDate = (if Z.odd day then 6 else 0)
  /\ 1 <= month <= 12 /\ 1 <= day <= time.daysIn month year.
Proof.
  intros Hf.
  destruct (dateFields_some _ _ _ _ Hf) as (Hy & Hm & Hd & _).
  assert (HD : time.Day (fst (time.ParseDate purchaseDate)) = day).
  { unfold time.ParseDate. rewrite Hf. cbn [fst].
    apply Day_Date; lia. }
  split; [exact HD |]. split; [|split; assumption].
  unfold oddDayPoints. rewrite HD. now rewrite rem_2_odd by lia.
Qed.

Lemma odd_day_rule_march_20 :
  time.dateFields "2022-03-20" = inr (2022, 3, 20)
  /\ oddDayPoints "2022-03-20" = 0.
Proof.
  split; [reflexivity |].
  exact (proj1 (proj2 (odd_day_rule "2022-03-20" 2022 3 20 eq_refl))).
Defined.

(** X2. A purchase date that is not ten bytes long does not parse, and gets
    the 6 points of rule 6; a purchase time that is not four or five bytes
    long (one with seconds, say) does not parse, and gets nothing from
    rule 7. *)
Theorem layout_lengths (purchaseDate purchaseTime : string) :
  (len purchaseDate <> 10 -> oddDayPoints purchaseDate = 6)
  /\ (len purchaseTime <> 4 -> len purchaseTime <> 5 ->
      afternoonPoints purchaseTime = 0).
Proof.
  split.
  - intros Hlen. unfold oddDayPoints, time.ParseDate.
    destruct (time.dateFields purchaseDate) as [e|[[y m] d]] eqn:E; [reflexivity |].
    apply dateFields_some in E. unfold len in Hlen. lia.
  - intros H4 H5. rewrite afternoonPoints_fields.
    destruct (time.clockFields purchaseTime) as [e|[h m]] eqn:E; [reflexivity |].
    apply clockFields_some in E. unfold len in H4, H5. lia.
Qed.

(** ** The scorer, rule by rule *)

(** X3. The score is the sum of the seven amounts, each read off one field
    of the receipt, reduced to the range of [int]; it is that sum itself
    when the sum lies in the range. *)
Theorem score_is_sum `{Platform} (receipt : Receipt) :
  calculatePoints receipt = wrap (exactPoints receipt)
  /\ (minInt <= exactPoints receipt <= maxInt ->
      calculatePoints receipt = exactPoints receipt)
  /\ minInt <= calculatePoints receipt <= maxInt.
Proof.
  rewrite calculatePoints_exact. split; [reflexivity |]. split.
  - apply wrap_inInt.
  - apply wrap_range.
Qed.

Lemma sumZ_app l1 l2 : sumZ (l1 ++ l2) = sumZ l1 + sumZ l2.
Proof. induction l1 as [|x l1 IH]; simpl; lia. Qed.

Lemma sumZ_Permutation l1 l2 : Permutation l1 l2 -> sumZ l1 = sumZ l2.
Proof. induction 1; simpl; lia. Qed.

(** X4. The order of the items does not matter: a receipt with the same
    items in another order gets the same score. *)
Theorem item_order_irrelevant `{Platform} (receipt : Receipt) (items : list Item) :
  Permutation (Items receipt) items ->
  calculatePoints (withItems receipt items) = calculatePoints receipt.
Proof.
  intros Hperm. rewrite !calculatePoints_exact. f_equal.
  unfold exactPoints, withItems, itemPairPoints. cbn [Retailer Total Items PurchaseDate PurchaseTime].
  rewrite <- (Permutation_length Hperm).
  rewrite <- (sumZ_Permutation _ _ (Permutation_map descriptionPoints Hperm)).
  reflexivity.
Qed.

Lemma item_order_irrelevant_target :
  @calculatePoints amd64 (withItems targetReceipt (rev (Items targetReceipt))) = 20.
Proof.
  rewrite (@item_order_irrelevant amd64 targetReceipt (rev (Items targetReceipt))).
  - reflexivity.
  - apply Permutation_rev.
Defined.

Lemma FindAllString_app a b :
  regexp.FindAllString (a ++ b)
  = (regexp.FindAllString a ++ regexp.FindAllString b)%list.
Proof.
  induction a as [|c a IH]; simpl; [reflexivity |].
  destruct (regexp.alphanumeric c); simpl; now rewrite IH.
Qed.

(** X5. Rule 1 counts bytes: the points of a retailer name are at least 0
    and at most its length, they are its length exactly when every byte is
    an ASCII letter or digit, and the points of two names put together are
    the sum of their points. *)
Theorem retailer_rule (a b : string) :
  retailerPoints (a ++ b) = retailerPoints a + retailerPoints b
  /\ 0 <= retailerPoints a <= len a
  /\ (retailerPoints a = len a <->
      forallb regexp.alphanumeric (list_ascii_of_string a) = true).
Proof.
  split; [|split].
  - unfold retailerPoints. rewrite FindAllString_app, length_app. lia.
  - unfold retailerPoints, len.
    induction a as [|c a IH]; simpl; [lia |].
    destruct (regexp.alphanumeric c); simpl; lia.
  - unfold retailerPoints, len.
    assert (Hle : forall s, (length (regexp.FindAllString s) <= String.length s)%nat).
    { induction s as [|c s IH]; simpl; [lia |].
      destruct (regexp.alphanumeric c); simpl; lia. }
    induction a as [|c a IH]; simpl; [tauto |].
    destruct (regexp.alphanumeric c); simpl.
    + rewrite <- IH. lia.
    + specialize (Hle a). split; [lia | discriminate].
Qed.

Lemma quot_2_succ n :
  0 <= n -> Z.quot (n + 1) 2 * 5 = Z.quot n 2 * 5 + (if Z.odd n then 5 else 0).
Proof.
  intros Hn. rewrite !Z.quot_div_nonneg by lia.
  pose proof (Zmod_odd n) as Ho.
  pose proof (Z.div_mod n 2 ltac:(lia)) as Hn2.
  pose proof (Z.div_mod (n + 1) 2 ltac:(lia)) as Hn3.
  pose proof (Z.mod_pos_bound (n + 1) 2 ltac:(lia)).
  destruct (Z.odd n); lia.
Qed.

Lemma parity_of_nat n :
  Z.even (Z.of_nat n) = Nat.even n /\ Z.odd (Z.of_nat n) = Nat.odd n.
Proof.
  induction n as [|n [IHe IHo]]; [split; reflexivity |].
  rewrite Nat2Z.inj_succ, Z.even_succ, Z.odd_succ, Nat.even_succ, Nat.odd_succ.
  split; assumption.
Qed.

Lemma odd_of_nat n : Z.odd (Z.of_nat n) = Nat.odd n.
Proof. apply parity_of_nat. Qed.

(** X6. One more item adds its own amount of rule 5 to the sum of the seven
    amounts, and the 5 points of rule 4 when it completes a pair, that is,
    when the receipt had an odd number of items. *)
Theorem added_item `{Platform} (receipt : Receipt) (item : Item) :
  exactPoints (withItems receipt (Items receipt ++ [item]))
  = exactPoints receipt + descriptionPoints item
    + (if Nat.odd (length (Items receipt)) then 5 else 0)
  /\ calculatePoints (withItems receipt (Items receipt ++ [item]))
     = wrap (exactPoints receipt + descriptionPoints item
             + (if Nat.odd (length (Items receipt)) then 5 else 0)).
Proof.
  rewrite calculatePoints_exact.
  enough (E : exactPoints (withItems receipt (Items receipt ++ [item]))
              = exactPoints receipt + descriptionPoints item
                + (if Nat.odd (length (Items receipt)) then 5 else 0))
    by (rewrite E; split; reflexivity).
  unfold exactPoints, withItems, itemPairPoints.
  cbn [Retailer Total Items PurchaseDate PurchaseTime].
  rewrite map_app, sumZ_app, length_app. simpl.
  replace (Z.of_nat (length (Items receipt) + 1))
    with (Z.of_nat (length (Items receipt)) + 1) by lia.
  rewrite quot_2_succ by lia.
  replace (Z.odd (Z.of_nat (length (Items receipt))))
    with (Nat.odd (length (Items receipt))).
  - destruct (Nat.odd _); lia.
  - symmetry. apply odd_of_nat.
Qed.

(** ** Prices *)

(** X7. An item whose price does not parse: when the price is no number at
    all, the price is taken as zero and the item gets no bonus, whatever
    its description; when the price is a number too large for a [float64],
    it is taken as an infinity, whose bonus does not fit [int], so that what
    is added is left to the implementation. *)
Theorem unparsed_price `{Platform} (item : Item) (e : strconv.NumError) :
  snd (strconv.ParseFloat (Price item)) = Some e ->
  match e with
  | strconv.ErrSyntax =>
      itemPrice item = S754_zero false
      /\ descriptionBonus item = 0 /\ descriptionPoints item = 0
  | strconv.ErrRange =>
      isInf (itemPrice item) = true
      /\ representable (Ceil (mul (itemPrice item) c0_2)) = false
      /\ descriptionBonus item
         = wrap (float_to_int_unrepresentable (Ceil (mul (itemPrice item) c0_2)))
  end.
Proof.
  intros Herr. destruct e.
  - apply ParseFloat_syntax_error in Herr.
    assert (Hb : descriptionBonus item = 0).
    { unfold descriptionBonus, itemPrice. rewrite Herr. reflexivity. }
    split; [exact Herr |]. split; [exact Hb |].
    unfold descriptionPoints. rewrite Hb. now destruct (_ =? _).
  - apply ParseFloat_range_error in Herr.
    unfold descriptionBonus, itemPrice, representable, int_of_float.
    rewrite c0_2_value.
    destruct (fst (strconv.ParseFloat (Price item))) as [s|s| |s m e];
      try discriminate.
    repeat split.
Qed.

Lemma unparsed_price_free :
  @descriptionPoints amd64 {| ShortDescr := "abc"; Price := "free" |} = 0.
Proof.
  exact (proj2 (proj2 (@unparsed_price amd64
           {| ShortDescr := "abc"; Price := "free" |} strconv.ErrSyntax eq_refl))).
Defined.

(** X8. An item whose price parses to a negative number never adds points:
    when its bonus fits [int], what it adds is 0 or less. *)
Theorem negative_price_never_adds `{Platform} (item : Item) :
  negative (itemPrice item) = true ->
  representable (Ceil (mul (itemPrice item) c0_2)) = true ->
  descriptionBonus item <= 0 /\ descriptionPoints item <= 0.
Proof.
  intros Hneg Hrep.
  assert (Hb : descriptionBonus item <= 0).
  { unfold descriptionBonus, int_of_float.
    unfold representable in Hrep.
    destruct (truncZ _) as [n|] eqn:E; [|discriminate].
    rewrite Hrep.
    exact (truncZ_nonpositive _ _
             (Ceil_negative _ (mul_c0_2_negative _ Hneg)) E). }
  split; [exact Hb |].
  unfold descriptionPoints. destruct (_ =? _); lia.
Qed.

Lemma negative_price_never_adds_refund :
  @descriptionPoints amd64 refundItem <= 0.
Proof.
  exact (proj2 (@negative_price_never_adds amd64 refundItem eq_refl eq_refl)).
Defined.

(** ** Descriptions *)

Lemma list_ascii_of_string_app a b :
  list_ascii_of_string (a ++ b)
  = (list_ascii_of_string a ++ list_ascii_of_string b)%list.
Proof. induction a as [|c a IH]; simpl; [reflexivity | now rewrite IH]. Qed.

Lemma asciiSpace_low c : strings.asciiSpace c = true -> byte_val c < 128.
Proof.
  unfold strings.asciiSpace, byte_in, byte_eq.
  change (byte_val "009") with 9. change (byte_val "013") with 13.
  change (byte_val " ") with 32.
  intros Hc. apply orb_true_iff in Hc. destruct Hc as [Hc|Hc].
  - apply andb_true_iff in Hc. destruct Hc as [_ Hc]. apply Z.leb_le in Hc. lia.
  - apply Z.eqb_eq in Hc. lia.
Qed.

Lemma isSpace2_high a b : strings.isSpace2 a b = true -> 128 <= byte_val b.
Proof.
  unfold strings.isSpace2. intros Hs. apply existsb_exists in Hs.
  destruct Hs as (e & He & Hm).
  unfold strings.spaceEncodings in He. simpl in He.
  repeat (destruct He as [<-|He]; [try discriminate;
    apply andb_true_iff in Hm; destruct Hm as [_ Hm]; apply Z.eqb_eq in Hm; lia |]).
  contradiction.
Qed.

Lemma isSpace3_high a b c :
  strings.isSpace3 a b c = true -> 128 <= byte_val b /\ 128 <= byte_val c.
Proof.
  unfold strings.isSpace3. intros Hs. apply existsb_exists in Hs.
  destruct Hs as (e & He & Hm).
  unfold strings.spaceEncodings in He. simpl in He.
  repeat (destruct He as [<-|He]; [try discriminate;
    apply andb_true_iff in Hm; destruct Hm as [Hm Hc];
    apply andb_true_iff in Hm; destruct Hm as [_ Hb];
    apply Z.eqb_eq in Hb, Hc; lia |]).
  contradiction.
Qed.

Lemma isSpace2_ascii a b : strings.asciiSpace b = true -> strings.isSpace2 a b = false.
Proof.
  intros Hb. apply asciiSpace_low in Hb.
  destruct (strings.isSpace2 a b) eqn:E; [|reflexivity].
  apply isSpace2_high in E. lia.
Qed.

Lemma isSpace3_ascii_2 a b c :
  strings.asciiSpace b = true -> strings.isSpace3 a b c = false.
Proof.
  intros Hb. apply asciiSpace_low in Hb.
  destruct (strings.isSpace3 a b c) eqn:E; [|reflexivity].
  apply isSpace3_high in E. lia.
Qed.

Lemma isSpace3_ascii_3 a b c :
  strings.asciiSpace c = true -> strings.isSpace3 a b c = false.
Proof.
  intros Hc. apply asciiSpace_low in Hc.
  destruct (strings.isSpace3 a b c) eqn:E; [|reflexivity].
  apply isSpace3_high in E. lia.
Qed.

(** Leading ASCII white space goes. *)
Lemma trimLeft_spaces w l :
  forallb strings.asciiSpace w = true ->
  strings.trimLeft (w ++ l) = strings.trimLeft l.
Proof.
  induction w as [|c w IH]; simpl; [reflexivity |].
  intros Hw. apply andb_true_iff in Hw. destruct Hw as [-> Hw]. auto.
Qed.

Lemma trimLeftRev_spaces w l :
  forallb strings.asciiSpace w = true ->
  strings.trimLeftRev (w ++ l) = strings.trimLeftRev l.
Proof.
  induction w as [|c w IH]; simpl; [reflexivity |].
  intros Hw. apply andb_true_iff in Hw. destruct Hw as [-> Hw]. auto.
Qed.

(** ASCII white space after a text does not change what goes at its front. *)
Lemma trimLeft_before_spaces w :
  forallb strings.asciiSpace w = true ->
  forall n l, (length l <= n)%nat ->
  strings.trimLeft (l ++ w)
  = match strings.trimLeft l with
    | [] => []
    | t => (t ++ w)%list
    end.
Proof.
  intros Hw.
  assert (Hnil : strings.trimLeft w = []).
  { rewrite <- (app_nil_r w). rewrite trimLeft_spaces by exact Hw. reflexivity. }
  induction n as [|n IH]; intros l Hl.
  - destruct l; [|simpl in Hl; lia]. simpl. exact Hnil.
  - destruct l as [|a l1]; [simpl; exact Hnil |].
    cbn [app strings.trimLeft].
    destruct (strings.asciiSpace a) eqn:Ea.
    { apply IH. simpl in Hl. lia. }
    destruct l1 as [|b l2].
    { cbn [app]. destruct w as [|c w2]; [reflexivity |].
      simpl in Hw. apply andb_true_iff in Hw. destruct Hw as [Hc Hw].
      rewrite (isSpace2_ascii a c Hc).
      destruct w2 as [|d w3]; [reflexivity |].
      now rewrite (isSpace3_ascii_2 a c d Hc). }
    cbn [app].
    destruct (strings.isSpace2 a b) eqn:Eab.
    { apply IH. simpl in Hl. lia. }
    destruct l2 as [|c l3].
    { cbn [app]. destruct w as [|c w2]; [reflexivity |].
      simpl in Hw. apply andb_true_iff in Hw. destruct Hw as [Hc Hw].
      now rewrite (isSpace3_ascii_3 a b c Hc). }
    cbn [app].
    destruct (strings.isSpace3 a b c) eqn:Eabc.
    { apply IH. simpl in Hl. lia. }
    reflexivity.
Qed.

Lemma trimRight_spaces l w :
  forallb strings.asciiSpace w = true ->
  strings.trimRight (l ++ w) = strings.trimRight l.
Proof.
  intros Hw. unfold strings.trimRight.
  rewrite rev_app_distr, trimLeftRev_spaces; [reflexivity |].
  rewrite forallb_forall in *. intros c Hc. apply Hw. now apply in_rev.
Qed.

Lemma TrimSpace_padded pad1 descr pad2 :
  asciiSpaces pad1 = true -> asciiSpaces pad2 = true ->
  strings.TrimSpace (pad1 ++ descr ++ pad2) = strings.TrimSpace descr.
Proof.
  unfold asciiSpaces, strings.TrimSpace. intros H1 H2.
  rewrite !list_ascii_of_string_app.
  rewrite trimLeft_spaces by exact H1.
  rewrite (trimLeft_before_spaces _ H2 _ _ (Nat.le_refl _)).
  destruct (strings.trimLeft (list_ascii_of_string descr)) as [|a t] eqn:E;
    [reflexivity |].
  now rewrite trimRight_spaces.
Qed.

(** X9. ASCII white space before and after a description changes nothing:
    the item has the same trimmed length and gets the same amount of
    rule 5. *)
Theorem padded_description `{Platform} (pad1 descr pad2 price : string) :
  asciiSpaces pad1 = true -> asciiSpaces pad2 = true ->
  trimmedLen {| ShortDescr := pad1 ++ descr ++ pad2; Price := price |}
  = trimmedLen {| ShortDescr := descr; Price := price |}
  /\ descriptionPoints {| ShortDescr := pad1 ++ descr ++ pad2; Price := price |}
     = descriptionPoints {| ShortDescr := descr; Price := price |}.
Proof.
  intros H1 H2.
  assert (E : trimmedLen {| ShortDescr := pad1 ++ descr ++ pad2; Price := price |}
              = trimmedLen {| ShortDescr := descr; Price := price |}).
  { unfold trimmedLen. cbn [ShortDescr]. now rewrite TrimSpace_padded. }
  split; [exact E |].
  unfold descriptionPoints. rewrite E. reflexivity.
Qed.

Lemma padded_description_klarbrunn :
  @descriptionPoints amd64
    {| ShortDescr := "   " ++ "Klarbrunn 12-PK 12 FL OZ" ++ "  "; Price := "12.00" |}
  = 3.
Proof.
  rewrite (proj2 (@padded_description amd64 "   " "Klarbrunn 12-PK 12 FL OZ" "  "
                    "12.00" eq_refl eq_refl)).
  reflexivity.
Defined.

(** ** The store, request by request *)

Section StoreContents.

Context `{Platform}.

Lemma run_lookup st reqs id :
  Store.receipts (Store.run st reqs) !! id
  = match lastStored reqs id with
    | Some points => Some points
    | None => Store.receipts st !! id
    end.
Proof.
  revert st. induction reqs as [|req reqs IH]; intros st; [reflexivity |].
  rewrite run_cons, IH. cbn [lastStored].
  destruct (lastStored reqs id) as [points|]; [reflexivity |].
  destruct req as [[receipt|] uuid|id']; simpl.
  - destruct (String.eqb_spec uuid id) as [->|Hne].
    + apply lookup_insert_eq.
    + now apply lookup_insert_ne.
  - reflexivity.
  - now rewrite getPoints_store.
Qed.

Lemma lastStored_issued reqs id :
  is_Some (lastStored reqs id) <-> In id (Store.issued reqs).
Proof.
  induction reqs as [|req reqs IH]; simpl.
  - split; [intros [x Hx]; discriminate | contradiction].
  - destruct (lastStored reqs id) as [points|] eqn:E.
    + assert (Hin : In id (Store.issued reqs)) by (apply IH; eauto).
      split; [intros _ | eauto].
      destruct req as [[receipt|] uuid|id']; simpl; auto.
    + assert (Hnot : ~ In id (Store.issued reqs)).
      { intros Hin. apply IH in Hin. destruct Hin as [x Hx]. discriminate. }
      destruct req as [[receipt|] uuid|id']; simpl.
      * destruct (String.eqb_spec uuid id) as [->|Hne].
        -- split; [auto | eauto].
        -- split; [intros [x Hx]; discriminate | intros [E'|Hin]; tauto].
      * split; [intros [x Hx]; discriminate | tauto].
      * split; [intros [x Hx]; discriminate | tauto].
Qed.

(** X10. After any sequence of requests, started with the empty store, the
    store holds the identifiers given to the accepted receipts and no
    others, each with the score of the last receipt stored under it: a
    receipt given an identifier that is already present replaces the
    earlier score. [getPoints] answers accordingly. *)
Theorem store_contents (reqs : list Store.Request) (id : string) :
  Store.receipts (Store.run Store.store reqs) !! id = lastStored reqs id
  /\ (is_Some (Store.receipts (Store.run Store.store reqs) !! id)
      <-> In id (Store.issued reqs))
  /\ Store.getPoints id (Store.run Store.store reqs)
     = (Store.run Store.store reqs,
        match lastStored reqs id with
        | Some points => Store.Points points
        | None => Store.ReceiptNotFound
        end).
Proof.
  assert (E : Store.receipts (Store.run Store.store reqs) !! id = lastStored reqs id).
  { rewrite run_lookup. destruct (lastStored reqs id); [reflexivity |].
    apply lookup_empty. }
  split; [exact E |]. split.
  - rewrite E. apply lastStored_issued.
  - unfold Store.getPoints. rewrite E. now destruct (lastStored reqs id).
Qed.

(** X11. Only accepted receipts change the store: the store after a sequence
    of requests is the store after its [POST]s with a receipt alone, and a
    sequence without any leaves the store as it was. *)
Theorem only_receipts_change_the_store (st : Store.Storage)
    (reqs : list Store.Request) :
  Store.run st reqs = Store.run st (List.filter accepted reqs)
  /\ (Store.issued reqs = [] -> Store.run st reqs = st).
Proof.
  split.
  - revert st. induction reqs as [|req reqs IH]; intros st; [reflexivity |].
    rewrite run_cons.
    destruct req as [[receipt|] uuid|id']; cbn [List.filter accepted].
    + rewrite run_cons. apply IH.
    + apply IH.
    + rewrite IH. simpl. now rewrite getPoints_store.
  - revert st. induction reqs as [|req reqs IH]; intros st Hnone; [reflexivity |].
    rewrite run_cons.
    destruct req as [[receipt|] uuid|id']; simpl in Hnone.
    + discriminate.
    + apply IH, Hnone.
    + rewrite IH by exact Hnone. simpl. apply getPoints_store.
Qed.

Lemma unique_size st reqs :
  Store.unique st reqs ->
  size (Store.receipts (Store.run st reqs))
  = (size (Store.receipts st) + length (Store.issued reqs))%nat
  /\ NoDup (Store.issued reqs).
Proof.
  revert st. induction reqs as [|req reqs IH]; intros st Huniq.
  - split; [simpl; lia | constructor].
  - destruct Huniq as [Hreq Huniq]. rewrite run_cons.
    destruct (IH _ Huniq) as [Hsize Hnodup].
    destruct req as [[receipt|] uuid|id']; cbn [Store.issued].
    + split.
      * rewrite Hsize. simpl. rewrite map_size_insert_None by exact Hreq.
        lia.
      * apply NoDup_cons. split; [|exact Hnodup].
        rewrite list_elem_of_In.
        eapply (present_not_issued _ reqs uuid); [|exact Huniq].
        simpl. apply lookup_insert_eq.
    + split; [exact Hsize | exact Hnodup].
    + split; [|exact Hnodup].
      rewrite Hsize. simpl. now rewrite getPoints_store.
Qed.

(** X12. With the identifiers that [uuid.New()] draws new ones, the store
    has one record for each accepted receipt: its size is the number of
    [POST]s with a receipt, and no identifier was issued twice. *)
Theorem one_record_per_receipt (reqs : list Store.Request) :
  Store.unique Store.store reqs ->
  size (Store.receipts (Store.run Store.store reqs))
  = length (List.filter accepted reqs)
  /\ NoDup (Store.issued reqs).
Proof.
  intros Huniq. destruct (unique_size _ _ Huniq) as [Hsize Hnodup].
  split; [|exact Hnodup].
  rewrite Hsize. simpl. rewrite map_size_empty. simpl.
  clear. induction reqs as [|[[receipt|] uuid|id'] reqs IH]; simpl; auto.
Qed.

End StoreContents.

Lemma one_record_per_receipt_session :
  size (Store.receipts
          (@Store.run amd64 Store.store
             (Store.POST (Some targetReceipt) "id-1" :: session)))
  = 2%nat.
Proof.
  refine (proj1 (@one_record_per_receipt amd64
                   (Store.POST (Some targetReceipt) "id-1" :: session) _)).
  vm_compute. repeat split.
Defined.

(** ** The lock and the handlers *)

Section LockFacts.

Import Concurrent.

Lemma count_positive p hs :
  (0 < count p hs)%nat -> exists i h, hs !! i = Some h /\ p h = true.
Proof.
  induction hs as [|h0 hs IH]; [unfold count; simpl; lia |].
  rewrite count_cons. unfold weight.
  destruct (p h0) eqn:E.
  - intros _. exists 0%nat, h0. auto.
  - intros Hpos. destruct IH as (i & h & Hi & Hp); [lia |].
    exists (S i), h. auto.
Qed.

Lemma count_none p hs i h :
  count p hs = 0%nat -> hs !! i = Some h -> p h = false.
Proof.
  intros Hzero Hi. destruct (p h) eqn:E; [|reflexivity].
  pose proof (count_one p hs i h Hi E). lia.
Qed.

(** The two sample states are states of the handlers. *)
Lemma sample_reachable : reachable writingState /\ reachable servedState.
Proof.
  set (free := {| writer := false; readers := 0 |}).
  set (held := {| writer := true; readers := 0 |}).
  set (done := <["id-1" := 20]> (∅ : gmap string Z)).
  set (s1 := {| io := free; receipts := ∅; handlers := [PutReady "id-1" 20] |}).
  set (s2 := {| io := free; receipts := ∅;
                handlers := [PutReady "id-1" 20; GetReady "id-1"] |}).
  set (s3 := {| io := held; receipts := ∅;
                handlers := [PutLocked "id-1" 20; GetReady "id-1"] |}).
  set (s5 := {| io := held; receipts := done;
                handlers := [PutStored "id-1"; GetReady "id-1"] |}).
  set (s6 := {| io := free; receipts := done;
                handlers := [PutDone "id-1"; GetReady "id-1"] |}).
  set (s7 := {| io := {| writer := false; readers := 1 |}; receipts := done;
                handlers := [PutDone "id-1"; GetLocked "id-1"] |}).
  set (s8 := {| io := {| writer := false; readers := 1 |}; receipts := done;
                handlers := [PutDone "id-1"; GetRead "id-1" (Some 20)] |}).
  assert (R1 : reachable s1).
  { exact (reachable_step initial s1 reachable_initial
             (step_request initial (PutReady "id-1" 20) eq_refl)). }
  assert (R2 : reachable s2).
  { exact (reachable_step s1 s2 R1 (step_request s1 (GetReady "id-1") eq_refl)). }
  assert (R3 : reachable s3).
  { exact (reachable_step s2 s3 R2
             (step_Lock s2 0%nat "id-1" 20 eq_refl eq_refl eq_refl)). }
  assert (R4 : reachable writingState).
  { exact (reachable_step s3 writingState R3
             (step_assign_begin s3 0%nat "id-1" 20 eq_refl)). }
  split; [exact R4 |].
  assert (R5 : reachable s5).
  { exact (reachable_step writingState s5 R4
             (step_assign_end writingState 0%nat "id-1" 20 eq_refl)). }
  assert (R6 : reachable s6).
  { exact (reachable_step s5 s6 R5 (step_Unlock s5 0%nat "id-1" eq_refl)). }
  assert (R7 : reachable s7).
  { exact (reachable_step s6 s7 R6 (step_RLock s6 1%nat "id-1" eq_refl eq_refl)). }
  assert (R8 : reachable s8).
  { refine (reachable_step s7 s8 R7 _).
    assert (E : receipts s7 !! "id-1" = Some 20) by apply lookup_insert_eq.
    pose proof (step_lookup s7 1%nat "id-1" eq_refl) as St.
    rewrite E in St. exact St. }
  exact (reachable_step s8 servedState R8
           (step_RUnlock s8 1%nat "id-1" (Some 20) eq_refl)).
Qed.

(** X13. The lock is held exactly by the handlers that stand between its
    acquisition and its release: the number of readers is the number of
    handlers between [RLock] and [RUnlock], the writer flag is set exactly
    when a handler is between [Lock] and [Unlock], and the lock is free
    whenever every handler has returned or has not yet started. *)
Theorem lock_matches_handlers (s : State) :
  reachable s ->
  readers (io s) = count reading (handlers s)
  /\ (writer (io s) = true <->
      exists i h, handlers s !! i = Some h /\ writing h = true)
  /\ ((forall i h, handlers s !! i = Some h ->
         finished h = true \/ arriving h = true) ->
      io s = {| writer := false; readers := 0 |}).
Proof.
  intros Hs. destruct (reachable_consistent s Hs) as (Hr & Hw & Hwr).
  split; [symmetry; exact Hr |]. split; [split |].
  - intros Ew. rewrite Ew in Hw. apply count_positive. lia.
  - intros (i & h & Hi & Hh). pose proof (count_one writing _ _ _ Hi Hh).
    destruct (writer (io s)); [reflexivity | lia].
  - intros Hidle.
    assert (Hnone : forall p, (forall h, p h = true -> finished h = false /\ arriving h = false) ->
                              count p (handlers s) = 0%nat).
    { intros p Hp. destruct (count p (handlers s)) eqn:E; [reflexivity |].
      destruct (count_positive p (handlers s)) as (i & h & Hi & Hh); [lia |].
      destruct (Hp h Hh) as [Hf Ha].
      destruct (Hidle i h Hi); congruence. }
    assert (R0 : count reading (handlers s) = 0%nat)
      by (apply Hnone; intros h; destruct h; simpl; auto; discriminate).
    assert (W0 : count writing (handlers s) = 0%nat)
      by (apply Hnone; intros h; destruct h; simpl; auto; discriminate).
    destruct (io s) as [w r]. simpl in *.
    destruct w; [lia |]. f_equal. lia.
Qed.

Lemma lock_matches_handlers_served :
  io servedState = {| writer := false; readers := 0 |}.
Proof.
  refine (proj2 (proj2 (lock_matches_handlers servedState
                          (proj2 sample_reachable))) _).
  intros [|[|[|i]]] h Hi; inversion Hi; subst; auto.
Defined.

(** X14. The handlers never block each other for good: in every reachable
    state in which some handler has not returned, some handler can take its
    next step. *)
Theorem no_deadlock (s : State) :
  reachable s ->
  (exists i h, handlers s !! i = Some h /\ finished h = false) ->
  exists s', step s s' /\ length (handlers s') = length (handlers s).
Proof.
  intros Hs (i & h & Hi & Hh).
  destruct (reachable_consistent s Hs) as (Hr & Hw & Hwr).
  destruct (count writing (handlers s)) as [|nw] eqn:Ew.
  - assert (Efree : writer (io s) = false)
      by (destruct (writer (io s)); [lia | reflexivity]).
    destruct (count reading (handlers s)) as [|nr] eqn:Er.
    + pose proof (count_none _ _ _ _ Ew Hi) as Hnw.
      pose proof (count_none _ _ _ _ Er Hi) as Hnr.
      destruct h; try discriminate.
      * eexists. split; [eapply step_Lock; eauto |].
        simpl. apply length_insert.
      * eexists. split; [eapply step_RLock; eauto |].
        simpl. apply length_insert.
    + destruct (count_positive reading (handlers s)) as (j & hj & Hj & Hrj); [lia |].
      destruct hj; try discriminate.
      * eexists. split; [eapply step_lookup; eauto |].
        simpl. apply length_insert.
      * eexists. split; [eapply step_RUnlock; eauto |].
        simpl. apply length_insert.
  - destruct (count_positive writing (handlers s)) as (j & hj & Hj & Hwj); [lia |].
    destruct hj; try discriminate.
    + eexists. split; [eapply step_assign_begin; eauto |].
      simpl. apply length_insert.
    + eexists. split; [eapply step_assign_end; eauto |].
      simpl. apply length_insert.
    + eexists. split; [eapply step_Unlock; eauto |].
      simpl. apply length_insert.
Qed.

Lemma no_deadlock_waiting :
  exists s', step writingState s'
             /\ length (handlers s') = length (handlers writingState).
Proof.
  refine (no_deadlock writingState (proj1 sample_reachable) _).
  exists 1%nat, (GetReady "id-1"). split; reflexivity.
Defined.

Lemma step_stored_exactly s s' : stored_exactly s -> step s s' -> stored_exactly s'.
Proof.
  intros Hinv Hstep id'. specialize (Hinv id').
  destruct Hstep as
    [ h Harr | i id points Hi Hfree Hnone | i id points Hi | i id points Hi
    | i id Hi | i id Hi Hfree | i id Hi | i id found Hi ];
    cbn [io handlers receipts].
  - rewrite count_snoc. unfold weight.
    destruct h; try discriminate; simpl; rewrite Nat.add_0_r; exact Hinv.
  - pose proof (count_insert (hasStored id') _ _ _ (PutLocked id points) Hi) as C.
    unfold weight in C. simpl in C. rewrite Hinv. lia.
  - pose proof (count_insert (hasStored id') _ _ _ (PutWriting id points) Hi) as C.
    unfold weight in C. simpl in C. rewrite Hinv. lia.
  - pose proof (count_insert (hasStored id') _ _ _ (PutStored id) Hi) as C.
    unfold weight in C. simpl in C.
    destruct (String.eqb_spec id id') as [->|Hne].
    + rewrite lookup_insert_eq. split; [intros _; lia | eauto].
    + rewrite lookup_insert_ne by exact Hne. rewrite Hinv. lia.
  - pose proof (count_insert (hasStored id') _ _ _ (PutDone id) Hi) as C.
    unfold weight in C. simpl in C. rewrite Hinv.
    destruct (String.eqb id id'); lia.
  - pose proof (count_insert (hasStored id') _ _ _ (GetLocked id) Hi) as C.
    unfold weight in C. simpl in C. rewrite Hinv. lia.
  - pose proof (count_insert (hasStored id') _ _ _
                  (GetRead id (receipts s !! id)) Hi) as C.
    unfold weight in C. simpl in C. rewrite Hinv. lia.
  - pose proof (count_insert (hasStored id') _ _ _ (GetDone id found) Hi) as C.
    unfold weight in C. simpl in C. rewrite Hinv. lia.
Qed.

Lemma reachable_stored_exactly s : reachable s -> stored_exactly s.
Proof.
  induction 1 as [|s s' _ IH Hstep]; [|eapply step_stored_exactly; eauto].
  intros id. simpl. rewrite lookup_empty. unfold count. simpl.
  split; [intros [x Hx]; discriminate | lia].
Qed.

(** X15. Under every interleaving the map holds an identifier exactly when
    some handler has completed its assignment under that identifier: no
    completed write is lost, whatever the other handlers do, and nothing
    else gets into the map. *)
Theorem concurrent_writes_kept (s : State) (id : string) :
  reachable s ->
  (is_Some (receipts s !! id) <->
   exists i, handlers s !! i = Some (PutStored id)
             \/ handlers s !! i = Some (PutDone id)).
Proof.
  intros Hs. rewrite (reachable_stored_exactly s Hs id). split.
  - intros Hpos. destruct (count_positive _ _ Hpos) as (i & h & Hi & Hh).
    exists i. destruct h; try discriminate; simpl in Hh;
      apply String.eqb_eq in Hh; subst; auto.
  - intros [i [Hi|Hi]];
      apply (count_one (hasStored id) _ i _ Hi); simpl; apply String.eqb_refl.
Qed.

Lemma concurrent_writes_kept_served :
  is_Some (receipts servedState !! "id-1").
Proof.
  apply (concurrent_writes_kept servedState "id-1" (proj2 sample_reachable)).
  exists 0%nat. right. reflexivity.
Defined.

End LockFacts.

(** ** Dates and times as they are written *)

Lemma digitChar_digit d :
  0 <= d <= 9 -> isDigit (digitChar d) = true /\ digit_val (digitChar d) = d.
Proof.
  intros Hd.
  assert (C : d = 0 \/ d = 1 \/ d = 2 \/ d = 3 \/ d = 4 \/ d = 5 \/ d = 6
              \/ d = 7 \/ d = 8 \/ d = 9) by lia.
  repeat (destruct C as [->|C]; [split; reflexivity |]).
  subst. split; reflexivity.
Qed.

Lemma getnum_twoDigits n rest fixed :
  0 <= n <= 99 -> time.getnum (twoDigits n rest) fixed = Some (n, rest).
Proof.
  intros Hn. unfold twoDigits, time.getnum.
  assert (H1 : 0 <= n / 10 <= 9).
  { pose proof (Z.div_mod n 10 ltac:(lia)).
    pose proof (Z.mod_pos_bound n 10 ltac:(lia)). lia. }
  assert (H2 : 0 <= n mod 10 <= 9).
  { pose proof (Z.mod_pos_bound n 10 ltac:(lia)). lia. }
  destruct (digitChar_digit _ H1) as [-> ->].
  destruct (digitChar_digit _ H2) as [-> ->].
  f_equal. f_equal. pose proof (Z.div_mod n 10 ltac:(lia)). lia.
Qed.

Lemma longYear_written year rest :
  0 <= year <= 9999 ->
  time.longYear (twoDigits (year / 100) (twoDigits (year mod 100) rest))
  = Some (year, rest).
Proof.
  intros Hy. unfold twoDigits, time.longYear.
  pose proof (Z.div_mod year 100 ltac:(lia)) as E.
  pose proof (Z.mod_pos_bound year 100 ltac:(lia)) as B.
  set (hi := year / 100) in *. set (lo := year mod 100) in *.
  pose proof (Z.div_mod hi 10 ltac:(lia)) as E1.
  pose proof (Z.mod_pos_bound hi 10 ltac:(lia)) as B1.
  pose proof (Z.div_mod lo 10 ltac:(lia)) as E2.
  pose proof (Z.mod_pos_bound lo 10 ltac:(lia)) as B2.
  destruct (digitChar_digit (hi / 10) ltac:(lia)) as [-> ->].
  destruct (digitChar_digit (hi mod 10) ltac:(lia)) as [-> ->].
  destruct (digitChar_digit (lo / 10) ltac:(lia)) as [-> ->].
  destruct (digitChar_digit (lo mod 10) ltac:(lia)) as [-> ->].
  simpl. f_equal. f_equal. lia.
Qed.

Lemma dateFields_written year month day :
  0 <= year <= 9999 -> 1 <= month <= 12 ->
  1 <= day <= time.daysIn month year ->
  time.dateFields (writeDate year month day) = inr (year, month, day).
Proof.
  intros Hy Hm Hd.
  assert (Hd31 : time.daysIn month year <= 31).
  { unfold time.daysIn. destruct (_ && _); [lia |].
    assert (C : month = 1 \/ month = 2 \/ month = 3 \/ month = 4 \/ month = 5
                \/ month = 6 \/ month = 7 \/ month = 8 \/ month = 9
                \/ month = 10 \/ month = 11 \/ month = 12) by lia.
    repeat (destruct C as [->|C]; [vm_compute; discriminate |]).
    subst. vm_compute. discriminate. }
  unfold writeDate, time.dateFields.
  rewrite longYear_written by lia. cbn [time.skip].
  change (byte_eq "-" "-") with true. cbv iota.
  rewrite getnum_twoDigits by lia.
  replace ((month <=? 0) || (12 <? month)) with false
    by (symmetry; apply orb_false_iff; split; [apply Z.leb_gt | apply Z.ltb_ge]; lia).
  cbn [time.skip]. change (byte_eq "-" "-") with true. cbv iota.
  rewrite getnum_twoDigits by lia.
  replace ((day <? 1) || (time.daysIn month year <? day)) with false
    by (symmetry; apply orb_false_iff; split; apply Z.ltb_ge; lia).
  reflexivity.
Qed.

Lemma clockFields_written hour min :
  0 <= hour < 24 -> 0 <= min < 60 ->
  time.clockFields (writeClock hour min) = inr (hour, min).
Proof.
  intros Hh Hm. unfold writeClock, time.clockFields.
  rewrite getnum_twoDigits by lia.
  replace ((hour <? 0) || (24 <=? hour)) with false
    by (symmetry; apply orb_false_iff; split; [apply Z.ltb_ge | apply Z.leb_gt]; lia).
  cbn [time.skip]. change (byte_eq ":" ":") with true. cbv iota.
  rewrite getnum_twoDigits by lia.
  replace ((min <? 0) || (60 <=? min)) with false
    by (symmetry; apply orb_false_iff; split; [apply Z.ltb_ge | apply Z.leb_gt]; lia).
  reflexivity.
Qed.

(** X16. Every date of the calendar from year 0 to year 9999, written as
    [YYYY-MM-DD], parses to itself, and gets the 6 points of rule 6 exactly
    when its day is odd. *)
Theorem written_date_rule (year month day : Z) :
  0 <= year <= 9999 -> 1 <= month <= 12 ->
  1 <= day <= time.daysIn month year ->
  time.ParseDate (writeDate year month day)
  = (time.Date year month day 0 0, None)
  /\ oddDayPoints (writeDate year month day) = (if Z.odd day then 6 else 0).
Proof.
  intros Hy Hm Hd.
  pose proof (dateFields_written year month day Hy Hm Hd) as Hf.
  split.
  - unfold time.ParseDate. now rewrite Hf.
  - unfold oddDayPoints, time.ParseDate. rewrite Hf. cbn [fst].
    rewrite Day_Date by lia. now rewrite rem_2_odd by lia.
Qed.

Lemma written_date_rule_leap_day :
  writeDate 2024 2 29 = "2024-02-29" /\ oddDayPoints "2024-02-29" = 6.
Proof.
  split; [reflexivity |].
  refine (proj2 (written_date_rule 2024 2 29 _ _ _)); vm_compute;
    split; discriminate.
Defined.

(** X17. Every time of the day, written as [HH:MM], parses to itself, and
    gets the 10 points of rule 7 exactly when it is after 14:00 and before
    16:00. *)
Theorem written_time_rule (hour min : Z) :
  0 <= hour < 24 -> 0 <= min < 60 ->
  time.ParseClock (writeClock hour min) = (time.Date 0 1 1 hour min, None)
  /\ afternoonPoints (writeClock hour min)
     = (if (14 * 60 <? hour * 60 + min) && (hour * 60 + min <? 16 * 60)
        then 10 else 0)
  /\ (afternoonPoints (writeClock hour min) = 10 <->
      (hour = 14 /\ 1 <= min) \/ hour = 15).
Proof.
  intros Hh Hm.
  pose proof (clockFields_written hour min Hh Hm) as Hf.
  assert (Ha : afternoonPoints (writeClock hour min)
               = (if (14 * 60 <? hour * 60 + min) && (hour * 60 + min <? 16 * 60)
                  then 10 else 0)).
  { rewrite afternoonPoints_fields, Hf. reflexivity. }
  split; [unfold time.ParseClock; now rewrite Hf |].
  split; [exact Ha |].
  rewrite Ha.
  destruct (_ && _) eqn:B.
  - apply andb_true_iff in B. destruct B as [B1 B2].
    apply Z.ltb_lt in B1, B2. split; [intros _; lia | reflexivity].
  - apply andb_false_iff in B. split; [discriminate |].
    intros Hw. destruct B as [B|B]; apply Z.ltb_ge in B; lia.
Qed.

Lemma written_time_rule_14_33 :
  writeClock 14 33 = "14:33" /\ afternoonPoints "14:33" = 10.
Proof.
  split; [reflexivity |].
  apply (proj2 (proj2 (written_time_rule 14 33 ltac:(lia) ltac:(lia)))).
  left. lia.
Defined.

(** ** Arithmetic used below *)

Lemma abs_mul_le a b A B : Z.abs a <= A -> 0 <= b <= B -> Z.abs (a * b) <= A * B.
Proof.
  intros Ha Hb. rewrite Z.abs_mul, (Z.abs_eq b) by lia.
  apply Z.mul_le_mono_nonneg; lia.
Qed.

Lemma small_multiple x c : 0 < c -> Z.abs (x * c) < c -> x = 0.
Proof.
  intros Hc Hx. rewrite Z.abs_mul, (Z.abs_eq c) in Hx by lia.
  destruct (Z.eq_dec x 0) as [E | E]; [exact E | exfalso].
  assert (H1 : 1 <= Z.abs x) by lia.
  pose proof (Z.mul_le_mono_nonneg_r 1 (Z.abs x) c ltac:(lia) H1). lia.
Qed.

Lemma mul_cancel_pos a b c : 0 < c -> a * c = b * c -> a = b.
Proof. intros Hc E. apply (Z.mul_cancel_r a b c); [lia | exact E]. Qed.

Lemma mul_lt_cancel_pos a b c : 0 < c -> a * c < b * c -> a < b.
Proof. intros Hc E. apply (Z.mul_lt_mono_pos_r c a b Hc). exact E. Qed.

Lemma mul_le_cancel_pos a b c : 0 < c -> a * c <= b * c -> a <= b.
Proof. intros Hc E. apply (Z.mul_le_mono_pos_r a b c Hc). exact E. Qed.

(** ** Rounding, bit by bit *)

Lemma digits2_size p : digits2_pos p = Pos.size p.
Proof. induction p; simpl; congruence. Qed.

Lemma digits2_bounds p :
  2 ^ (Zpos (digits2_pos p) - 1) <= Zpos p < 2 ^ Zpos (digits2_pos p).
Proof.
  rewrite digits2_size. split.
  - pose proof (Pos.size_le p) as Hle.
    assert (E : 2 ^ Zpos (Pos.size p) = 2 * 2 ^ (Zpos (Pos.size p) - 1)).
    { rewrite <- Z.pow_succ_r by lia. f_equal. lia. }
    assert (Hz : 2 ^ Zpos (Pos.size p) <= Zpos p~0).
    { rewrite <- Pos2Z.inj_pow. apply Pos2Z.pos_le_pos. exact Hle. }
    lia.
  - pose proof (Pos.size_gt p) as Hgt.
    rewrite <- Pos2Z.inj_pow. apply Pos2Z.pos_lt_pos. exact Hgt.
Qed.

Lemma shr_1_spec m r s :
  0 <= m -> shr_1 (Build_shr_record m r s) = Build_shr_record (m / 2) (Z.odd m) (r || s).
Proof.
  intros Hm. destruct m as [|p|p]; [reflexivity | | lia].
  destruct p as [p|p|]; simpl.
  - f_equal. rewrite Pos2Z.inj_xI. apply (Z.div_unique _ 2 _ 1); lia.
  - f_equal. rewrite Pos2Z.inj_xO. apply (Z.div_unique _ 2 _ 0); lia.
  - reflexivity.
Qed.

Lemma iter_pos_nat {A} (f : A -> A) p x :
  SpecFloat.iter_pos f p x = Nat.iter (Pos.to_nat p) f x.
Proof.
  revert x. induction p as [p IH|p IH|]; intros x.
  - rewrite Pos2Nat.inj_xI. cbn [SpecFloat.iter_pos]. rewrite !IH.
    rewrite <- Nat.iter_add, <- Nat.iter_succ_r. f_equal. lia.
  - rewrite Pos2Nat.inj_xO. cbn [SpecFloat.iter_pos]. rewrite !IH.
    rewrite <- Nat.iter_add. f_equal. lia.
  - reflexivity.
Qed.

(** [k] shifts of an exact mantissa [m]: the quotient by [2^k], a round bit
    and a sticky bit that tell where the remainder lies. *)
Lemma iter_shr_1_exact m k :
  0 <= m ->
  let mrs := Nat.iter (S k) shr_1 (Build_shr_record m false false) in
  shr_m mrs = m / 2 ^ Z.of_nat (S k)
  /\ shr_r mrs = Z.odd (m / 2 ^ Z.of_nat k)
  /\ (shr_s mrs = false <-> m mod 2 ^ Z.of_nat k = 0).
Proof.
  intros Hm. induction k as [|k IH].
  - cbv zeta. change (Nat.iter 1 shr_1 ?x) with (shr_1 x).
    rewrite shr_1_spec by exact Hm. cbn [shr_m shr_r shr_s orb Z.of_nat].
    rewrite Z.pow_0_r, Z.div_1_r, Z.mod_1_r. change (2 ^ Z.pos _) with 2. tauto.
  - cbv zeta in IH |- *. rewrite Nat.iter_succ.
    destruct (Nat.iter (S k) shr_1 _) as [mk rk sk].
    cbn [shr_m shr_r shr_s] in IH. destruct IH as (Em & Er & Es).
    assert (Hmk : 0 <= mk) by (subst mk; apply Z.div_pos; lia).
    rewrite shr_1_spec by exact Hmk. cbn [shr_m shr_r shr_s].
    assert (P : 2 ^ Z.of_nat (S k) = 2 * 2 ^ Z.of_nat k).
    { rewrite Nat2Z.inj_succ, Z.pow_succ_r by lia. reflexivity. }
    assert (P' : 2 ^ Z.of_nat (S (S k)) = 2 ^ Z.of_nat (S k) * 2).
    { rewrite (Nat2Z.inj_succ (S k)), Z.pow_succ_r by lia. lia. }
    assert (Hpos : 0 < 2 ^ Z.of_nat k) by (apply Z.pow_pos_nonneg; lia).
    split; [|split].
    + rewrite Em, P', Z.div_div by lia. reflexivity.
    + rewrite Em. reflexivity.
    + rewrite P.
      pose proof (Z.div_mod m (2 ^ Z.of_nat k) ltac:(lia)) as D.
      pose proof (Z.mod_pos_bound m (2 ^ Z.of_nat k) ltac:(lia)) as B.
      pose proof (Zmod_odd (m / 2 ^ Z.of_nat k)) as O.
      pose proof (Z.div_mod (m / 2 ^ Z.of_nat k) 2 ltac:(lia)) as D2.
      rewrite <- Er in O.
      assert (R : m mod (2 * 2 ^ Z.of_nat k)
                  = (if rk then 2 ^ Z.of_nat k else 0) + m mod 2 ^ Z.of_nat k).
      { symmetry. apply Z.mod_unique with (m / 2 ^ Z.of_nat k / 2);
          destruct rk; nia. }
      rewrite R. rewrite orb_false_iff.
      destruct rk; split; try tauto; lia.
Qed.

Lemma Zdigits2_unique m k :
  0 < m -> 2 ^ (k - 1) <= m < 2 ^ k -> Zdigits2 m = k.
Proof.
  intros Hm [Hlo Hhi]. destruct m as [|p|p]; try lia.
  unfold Zdigits2. pose proof (digits2_bounds p) as [Blo Bhi].
  set (d := Z.pos (digits2_pos p)) in *.
  assert (Hd : 0 < d) by (unfold d; lia).
  destruct (Z.lt_trichotomy d k) as [Hlt | [Heq | Hgt]]; [| exact Heq |].
  - assert (2 ^ d <= 2 ^ (k - 1)) by (apply Z.pow_le_mono_r; lia). lia.
  - assert (0 <= k).
    { destruct (Z.le_gt_cases 0 k) as [?|Hn]; [assumption|].
      rewrite (Z.pow_neg_r 2 k) in Hhi by lia. lia. }
    assert (2 ^ k <= 2 ^ (d - 1)) by (apply Z.pow_le_mono_r; lia). lia.
Qed.

Lemma pow2_split a b : 0 <= a -> 0 <= b -> 2 ^ (a + b) = 2 ^ a * 2 ^ b.
Proof. intros. apply Z.pow_add_r; assumption. Qed.

Lemma pow2_pos a : 0 <= a -> 0 < 2 ^ a.
Proof. intros. apply Z.pow_pos_nonneg; lia. Qed.

(** The second stage of [binary_round_aux]: a mantissa of 53 bits stays,
    [2^53] becomes [2^52] one exponent higher. *)
Lemma round_second_stage s m1 e1 :
  2 ^ 52 <= m1 <= 2 ^ 53 -> -1074 <= e1 -> e1 < 971 ->
  exists m e,
    (let '(mrs, e'') := shr_fexp prec emax m1 e1 loc_Exact in
     match shr_m mrs with
     | Z0 => S754_zero s
     | Zpos m => if e'' <=? emax - prec then S754_finite s m e'' else S754_infinity s
     | Zneg _ => S754_nan
     end) = S754_finite s m e
    /\ Z.pos (digits2_pos m) = 53
    /\ e1 <= e <= e1 + 1
    /\ Z.pos m * 2 ^ (e - e1) = m1.
Proof.
  intros [Hlo Hhi] He1 He1'.
  destruct (Z.eq_dec m1 (2 ^ 53)) as [-> | Hne].
  - exists (4503599627370496%positive), (e1 + 1).
    unfold shr_fexp, fexp, SpecFloat.emin, prec, emax.
    change (Zdigits2 (2 ^ 53)) with 54.
    replace (Z.max (54 + e1 - 53) (3 - 1024 - 53) - e1) with 1 by lia.
    cbn [shr shr_record_of_loc SpecFloat.iter_pos].
    change (shr_1 _) with (Build_shr_record (2 ^ 52) false false).
    cbn [shr_m]. change (2 ^ 52) with (Z.pos 4503599627370496).
    cbv iota beta.
    replace (e1 + 1 <=? 1024 - 53) with true by (symmetry; apply Z.leb_le; lia).
    repeat split; try lia.
    replace (e1 + 1 - e1) with 1 by lia. reflexivity.
  - assert (Hd : Zdigits2 m1 = 53).
    { apply Zdigits2_unique; [lia|]. change (53 - 1) with 52. lia. }
    destruct m1 as [|p|p]; try lia.
    exists p, e1.
    unfold shr_fexp, fexp, SpecFloat.emin, prec, emax. rewrite Hd.
    replace (Z.max (53 + e1 - 53) (3 - 1024 - 53) - e1) with 0 by lia.
    cbn [shr shr_record_of_loc shr_m]. cbv iota beta.
    replace (e1 <=? 1024 - 53) with true by (symmetry; apply Z.leb_le; lia).
    repeat split; try lia.
    + exact Hd.
    + rewrite Z.sub_diag. lia.
Qed.

(** Rounding to nearest even of [mx / 2^n], read off the two bits left by
    [n] shifts: the result is within half a unit of [mx]. *)
Lemma round_first_stage mx n :
  0 < mx -> 0 <= n ->
  let mrs := fst (shr (Build_shr_record mx false false) 0 n) in
  let m1 := round_nearest_even (shr_m mrs) (loc_of_shr_record mrs) in
  mx / 2 ^ n <= m1 <= mx / 2 ^ n + 1
  /\ Z.abs (m1 * 2 ^ n - mx) <= 2 ^ (n - 1).
Proof.
  intros Hmx Hn. destruct n as [|p|p]; [| |lia].
  - cbn [shr fst shr_m loc_of_shr_record round_nearest_even].
    rewrite Z.pow_0_r, Z.div_1_r. change (2 ^ (0 - 1)) with 0. lia.
  - cbn [shr fst]. rewrite iter_pos_nat.
    destruct (Pos2Nat.is_succ p) as [k Hk]. rewrite Hk.
    pose proof (iter_shr_1_exact mx k ltac:(lia)) as H. cbv zeta in H.
    destruct (Nat.iter (S k) shr_1 _) as [m0 r s].
    cbn [shr_m shr_r shr_s] in H. destruct H as (Em & Er & Es).
    assert (Ep : Z.pos p = Z.of_nat (S k)) by lia.
    rewrite Ep. replace (Z.of_nat (S k) - 1) with (Z.of_nat k) by lia.
    assert (P : 2 ^ Z.of_nat (S k) = 2 * 2 ^ Z.of_nat k).
    { rewrite Nat2Z.inj_succ, Z.pow_succ_r by lia. reflexivity. }
    pose proof (pow2_pos (Z.of_nat k) ltac:(lia)) as Hpos.
    pose proof (Z.div_mod mx (2 ^ Z.of_nat k) ltac:(lia)) as D.
    pose proof (Z.mod_pos_bound mx (2 ^ Z.of_nat k) ltac:(lia)) as B.
    pose proof (Zmod_odd (mx / 2 ^ Z.of_nat k)) as O.
    pose proof (Z.div_mod (mx / 2 ^ Z.of_nat k) 2 ltac:(lia)) as D2.
    rewrite <- Er in O.
    assert (Em' : m0 = mx / 2 ^ Z.of_nat k / 2).
    { rewrite Em, P, Z.mul_comm, Z.div_div by lia. reflexivity. }
    rewrite <- Em. cbn [shr_m loc_of_shr_record].
    set (low := mx mod 2 ^ Z.of_nat k) in *.
    set (hi := mx / 2 ^ Z.of_nat k) in *.
    assert (Hs : s = false \/ s = true) by (destruct s; auto).
    destruct r, s; cbn [round_nearest_even];
      try (destruct (Z.even m0)); rewrite P; split; try lia.
    all: try (assert (low = 0) by (apply Es; reflexivity)).
    all: try (assert (low <> 0) by (intros Hz; apply Es in Hz; discriminate)).
    all: nia.
Qed.

(** [binary_round_aux] on an exact mantissa of at least 53 bits, in the
    range of the normal numbers: a float of 53 bits within half a unit in
    the last place. *)
Lemma round_exact s (mx : positive) ex :
  let d := Z.pos (digits2_pos mx) in
  53 <= d -> -1074 <= ex + d - 53 -> ex + d - 53 < 971 ->
  exists m e,
    binary_round_aux prec emax s (Z.pos mx) ex loc_Exact = S754_finite s m e
    /\ Z.pos (digits2_pos m) = 53
    /\ ex + d - 53 <= e <= ex + d - 52
    /\ Z.abs (Z.pos m * 2 ^ (e - ex) - Z.pos mx) <= 2 ^ (d - 54).
Proof.
  intros d Hd Hlo Hhi.
  pose proof (digits2_bounds mx) as [Blo Bhi]. fold d in Blo, Bhi.
  pose proof (round_first_stage (Z.pos mx) (d - 53) ltac:(lia) ltac:(lia)) as F.
  cbv zeta in F.
  unfold binary_round_aux.
  unfold shr_fexp at 1. unfold fexp, SpecFloat.emin, prec, emax.
  change (Zdigits2 (Z.pos mx)) with d.
  replace (Z.max (d + ex - 53) (3 - 1024 - 53) - ex) with (d - 53) by lia.
  cbn [shr_record_of_loc].
  assert (Esnd : snd (shr (Build_shr_record (Z.pos mx) false false) ex (d - 53))
                 = ex + (d - 53)).
  { destruct (d - 53) as [|p|p] eqn:E; cbn [shr snd]; lia. }
  assert (Efst : fst (shr (Build_shr_record (Z.pos mx) false false) ex (d - 53))
                 = fst (shr (Build_shr_record (Z.pos mx) false false) 0 (d - 53))).
  { destruct (d - 53) as [|p|p]; reflexivity. }
  destruct (shr (Build_shr_record (Z.pos mx) false false) ex (d - 53))
    as [mrs' e'] eqn:E1.
  cbn [fst snd] in Esnd, Efst. subst e'. rewrite <- Efst in F.
  set (m1 := round_nearest_even (shr_m mrs') (loc_of_shr_record mrs')) in *.
  destruct F as [[F1 F2] F3].
  assert (P : 2 ^ d = 2 ^ (d - 53) * 2 ^ 53).
  { rewrite <- pow2_split by lia. f_equal. lia. }
  assert (P' : 2 ^ (d - 1) = 2 ^ (d - 53) * 2 ^ 52).
  { rewrite <- pow2_split by lia. f_equal. lia. }
  pose proof (pow2_pos (d - 53) ltac:(lia)) as Hpos.
  assert (Q1 : 2 ^ 52 <= Z.pos mx / 2 ^ (d - 53)).
  { apply Z.div_le_lower_bound; lia. }
  assert (Q2 : Z.pos mx / 2 ^ (d - 53) < 2 ^ 53).
  { apply Z.div_lt_upper_bound; lia. }
  destruct (round_second_stage s m1 (ex + (d - 53)) ltac:(lia) ltac:(lia) ltac:(lia))
    as (m & e & R & Dm & He & Vm).
  exists m, e. split; [|split; [|split]].
  - exact R.
  - exact Dm.
  - lia.
  - replace (e - ex) with ((e - (ex + (d - 53))) + (d - 53)) by lia.
    rewrite pow2_split by lia. rewrite Z.mul_assoc, Vm.
    replace (d - 54) with (d - 53 - 1) by lia. exact F3.
Qed.

Lemma locationCode_range l : 0 <= locationCode l <= 3.
Proof. destruct l as [|[]]; simpl; lia. Qed.

Lemma shr_record_of_code q l :
  0 < q ->
  shr_record_of_loc q l
  = shr_1 (shr_1 (Build_shr_record (4 * q + locationCode l) false false)).
Proof.
  intros Hq. destruct q as [|p|p]; try lia.
  destruct l as [|[]]; reflexivity.
Qed.

Lemma Zdigits2_times_4 q c :
  0 < q -> 0 <= c <= 3 -> Zdigits2 (4 * q + c) = Zdigits2 q + 2.
Proof.
  intros Hq Hc. destruct q as [|p|p]; try lia.
  pose proof (digits2_bounds p) as [Blo Bhi].
  apply Zdigits2_unique; [lia|]. unfold Zdigits2.
  set (d := Z.pos (digits2_pos p)) in *.
  assert (0 < d) by (unfold d; lia).
  replace (d + 2 - 1) with ((d - 1) + 2) by lia.
  rewrite !pow2_split by lia. change (2 ^ 2) with 4. lia.
Qed.

(** An inexact mantissa [q] with its location rounds as the exact mantissa
    that carries the location in two more bits. *)
Lemma round_located s q e l :
  0 < q -> 0 <= fexp prec emax (Zdigits2 q + e) - e ->
  binary_round_aux prec emax s q e l
  = binary_round_aux prec emax s (4 * q + locationCode l) (e - 2) loc_Exact.
Proof.
  intros Hq Hn. pose proof (locationCode_range l) as Hc.
  unfold binary_round_aux.
  assert (E : shr_fexp prec emax q e l
              = shr_fexp prec emax (4 * q + locationCode l) (e - 2) loc_Exact).
  { unfold shr_fexp. rewrite Zdigits2_times_4 by assumption.
    replace (Zdigits2 q + 2 + (e - 2)) with (Zdigits2 q + e) by lia.
    set (n := fexp prec emax (Zdigits2 q + e) - e) in *.
    replace (fexp prec emax (Zdigits2 q + e) - (e - 2)) with (n + 2) by (unfold n; lia).
    rewrite shr_record_of_code by assumption. cbn [shr_record_of_loc].
    destruct n as [|p|p]; [| |lia].
    - change (0 + 2) with 2. cbn [shr SpecFloat.iter_pos]. f_equal. lia.
    - change (Z.pos p + 2) with (Z.pos (p + 2)). cbn [shr]. f_equal; [|lia].
      rewrite !iter_pos_nat. rewrite Pos2Nat.inj_add.
      rewrite Nat.iter_add. reflexivity. }
  rewrite E. reflexivity.
Qed.

(** The float nearest to [M / 100], for an amount of [M] cents: 53 bits,
    and within half a unit in the last place of [M / 100]; exact when
    [M / 100] is a multiple of a quarter. The statement is scaled by
    [2^s], which makes every quantity an integer. *)
Lemma ofRatio_100 M :
  0 < M < 2 ^ 50 ->
  let s := 60 - Zdigits2 M in
  exists m e,
    ofRatio false M 100 = S754_finite false m e
    /\ Z.pos (digits2_pos m) = 53
    /\ 10 <= s <= 59 /\ - s <= e <= 2 - s
    /\ Z.abs (100 * (Z.pos m * 2 ^ (e + s)) - M * 2 ^ s) <= 100
    /\ (M mod 25 = 0 -> 100 * (Z.pos m * 2 ^ (e + s)) = M * 2 ^ s).
Proof.
  intros [HM0 HM]. destruct M as [|p|p]; try lia.
  pose proof (digits2_bounds p) as [Blo Bhi].
  unfold Zdigits2. set (d1 := Z.pos (digits2_pos p)) in *.
  assert (Hd1 : 1 <= d1 <= 50).
  { split; [unfold d1; lia|].
    destruct (Z.le_gt_cases d1 50) as [?|Hgt]; [assumption|].
    assert (2 ^ 50 <= 2 ^ (d1 - 1)) by (apply Z.pow_le_mono_r; lia). lia. }
  cbv zeta. set (s := 60 - d1).
  assert (Hs : 10 <= s <= 59) by (unfold s; lia).
  unfold ofRatio. change (Z.pos p =? 0) with false. cbv iota.
  unfold SFdiv_core_binary. change (Zdigits2 (Z.pos p)) with d1.
  change (Zdigits2 100) with 7.
  unfold fexp, SpecFloat.emin, prec, emax.
  replace (Z.min (Z.max (d1 + 0 - (7 + 0) - 53) (3 - 1024 - 53)) (0 - 0))
    with (- s) by (unfold s; lia).
  replace (0 - 0 - - s) with s by lia.
  assert (Esh : match s with
                | 0 => Z.pos p
                | Z.pos _ => Z.shiftl (Z.pos p) s
                | Z.neg _ => 0
                end = Z.pos p * 2 ^ s).
  { destruct s as [|ps|ps] eqn:Es; try lia. apply Z.shiftl_mul_pow2. lia. }
  rewrite Esh.
  pose proof (Z_div_mod (Z.pos p * 2 ^ s) 100 eq_refl) as DM.
  destruct (Z.div_eucl (Z.pos p * 2 ^ s) 100) as [q r]. destruct DM as [DM Hr].
  assert (P59 : 2 ^ (d1 - 1) * 2 ^ s = 576460752303423488).
  { rewrite <- pow2_split by lia. replace (d1 - 1 + s) with 59 by (unfold s; lia).
    reflexivity. }
  assert (P60 : 2 ^ d1 * 2 ^ s = 1152921504606846976).
  { rewrite <- pow2_split by lia. replace (d1 + s) with 60 by (unfold s; lia).
    reflexivity. }
  pose proof (pow2_pos s ltac:(lia)) as Hpow.
  assert (Hq : 4503599627370496 <= q < 18014398509481984) by nia.
  assert (Hdq : Zdigits2 q = 53 \/ Zdigits2 q = 54).
  { destruct (Z.lt_ge_cases q (2 ^ 53)) as [Hlt|Hge].
    - left. apply Zdigits2_unique; [lia|]. change (2 ^ (53 - 1)) with 4503599627370496.
      lia.
    - right. apply Zdigits2_unique; [lia|].
      change (2 ^ (54 - 1)) with (2 ^ 53). change (2 ^ 54) with 18014398509481984.
      lia. }
  set (l := new_location 100 r).
  assert (Hl : (r = 0 /\ locationCode l = 0)
               \/ (0 < 2 * r < 100 /\ locationCode l = 1)
               \/ (2 * r = 100 /\ locationCode l = 2)
               \/ (100 < 2 * r /\ locationCode l = 3)).
  { unfold l, new_location. change (Z.even 100) with true. cbv iota.
    unfold new_location_even. destruct (Z.eqb_spec r 0) as [->|Hr0].
    - left. split; reflexivity.
    - right. destruct (Z.compare_spec (2 * r) 100) as [E|E|E]; cbn [locationCode].
      + right; left. lia.
      + left. lia.
      + right; right. lia. }
  rewrite round_located;
    [| lia | unfold fexp, SpecFloat.emin, prec, emax; lia].
  pose proof (locationCode_range l) as Hc.
  destruct (4 * q + locationCode l) as [|mx|mx] eqn:Emx; try lia.
  assert (Hdmx : Z.pos (digits2_pos mx) = Zdigits2 q + 2).
  { change (Z.pos (digits2_pos mx)) with (Zdigits2 (Z.pos mx)).
    rewrite <- Emx. apply Zdigits2_times_4; lia. }
  destruct (round_exact false mx (- s - 2)) as (m & e & R & Dm & He & Be);
    try (rewrite Hdmx; lia).
  rewrite Hdmx in He, Be.
  exists m, e. split; [exact R|]. split; [exact Dm|].
  split; [lia|]. split; [lia|].
  assert (E4 : Z.pos m * 2 ^ (e - (- s - 2)) = 4 * (Z.pos m * 2 ^ (e + s))).
  { replace (e - (- s - 2)) with (e + s + 2) by lia.
    rewrite pow2_split by lia. change (2 ^ 2) with 4. lia. }
  rewrite E4, <- Emx in Be.
  set (W := Z.pos m * 2 ^ (e + s)) in *.
  assert (Bq : 2 ^ (Zdigits2 q + 2 - 54) <= 4).
  { destruct Hdq as [-> | ->]; [change (2 ^ (53 + 2 - 54)) with 2|
                                change (2 ^ (54 + 2 - 54)) with 4]; lia. }
  split.
  - rewrite DM. lia.
  - intros H25. rewrite DM.
    apply Z.mod_divide in H25; [|lia]. destruct H25 as [j Hj].
    assert (P2 : 2 ^ s = 2 ^ (s - 3) * 8).
    { replace s with (s - 3 + 3) at 1 by lia. rewrite pow2_split by lia.
      reflexivity. }
    assert (Er : r = 0 /\ q = 2 * (j * 2 ^ (s - 3))).
    { assert (Eq : 100 * q + r = 100 * (2 * (j * 2 ^ (s - 3))) + 0).
      { rewrite <- DM, Hj, P2. ring. }
      pose proof (Z.div_mod_unique 100 q (2 * (j * 2 ^ (s - 3))) r 0
                    ltac:(lia) ltac:(lia) Eq). lia. }
    destruct Er as [Er Eq]. rewrite Er in *.
    destruct Hl as [[_ Hc0] | [[? _] | [[? _] | [? _]]]]; try lia.
    rewrite Hc0 in Be.
    destruct Hdq as [E53 | E54].
    + rewrite E53 in Be. change (2 ^ (53 + 2 - 54)) with 2 in Be. lia.
    + rewrite E54 in Be, He. change (2 ^ (54 + 2 - 54)) with 4 in Be.
      assert (EW : W = 2 * (Z.pos m * 2 ^ (e + s - 1))).
      { unfold W. replace (e + s) with (e + s - 1 + 1) at 1 by lia.
        rewrite pow2_split by lia. change (2 ^ 1) with 2. lia. }
      lia.
Qed.

(** A mantissa that needs no shift is kept as it is. *)
Lemma round_fits s (mz : positive) ez :
  fexp prec emax (Z.pos (digits2_pos mz) + ez) - ez <= 0 -> ez <= 971 ->
  binary_round_aux prec emax s (Z.pos mz) ez loc_Exact = S754_finite s mz ez.
Proof.
  intros Hn He. unfold binary_round_aux, shr_fexp.
  change (Zdigits2 (Z.pos mz)) with (Z.pos (digits2_pos mz)).
  assert (E : shr (shr_record_of_loc (Z.pos mz) loc_Exact) ez
                (fexp prec emax (Z.pos (digits2_pos mz) + ez) - ez)
              = (shr_record_of_loc (Z.pos mz) loc_Exact, ez)).
  { destruct (fexp prec emax (Z.pos (digits2_pos mz) + ez) - ez); try lia; reflexivity. }
  rewrite E. cbn [shr_record_of_loc shr_m loc_of_shr_record round_nearest_even].
  change (Zdigits2 (Z.pos mz)) with (Z.pos (digits2_pos mz)).
  cbn [shr_record_of_loc] in E. rewrite E. cbn [shr_m].
  replace (ez <=? emax - prec) with true; [reflexivity|].
  symmetry. apply Z.leb_le. unfold emax, prec. lia.
Qed.

Lemma iter_xO_value p d : Z.pos (Pos.iter xO p d) = Z.pos p * 2 ^ Z.pos d.
Proof.
  induction d as [|d IH] using Pos.peano_ind.
  - cbn [Pos.iter]. lia.
  - rewrite Pos.iter_succ, Pos2Z.inj_xO, IH, Pos2Z.inj_succ, Z.pow_succ_r by lia.
    lia.
Qed.

Lemma iter_xO_digits p d :
  Z.pos (digits2_pos (Pos.iter xO p d)) = Z.pos (digits2_pos p) + Z.pos d.
Proof.
  induction d as [|d IH] using Pos.peano_ind.
  - cbn [Pos.iter digits2_pos]. lia.
  - rewrite Pos.iter_succ. cbn [digits2_pos]. rewrite Pos2Z.inj_succ, IH. lia.
Qed.

(** [binary_round] on a mantissa of at most 53 bits is exact: the same
    value, shifted left to 53 bits where the exponent allows. *)
Lemma binary_round_small s (p : positive) e0 :
  Z.pos (digits2_pos p) <= 53 -> -1074 <= e0 <= 971 ->
  exists m e,
    binary_round prec emax s p e0 = S754_finite s m e
    /\ e <= e0 /\ Z.pos m = Z.pos p * 2 ^ (e0 - e)
    /\ e = Z.max (Z.pos (digits2_pos p) + e0 - 53) (-1074).
Proof.
  intros Hd He. unfold binary_round, shl_align.
  set (d := Z.pos (digits2_pos p)) in *.
  assert (Ef : fexp prec emax (d + e0) = Z.max (d + e0 - 53) (-1074)) by reflexivity.
  rewrite Ef. set (fe := Z.max (d + e0 - 53) (-1074)).
  destruct (fe - e0) as [|k|k] eqn:Ek; try lia.
  - exists p, e0. rewrite round_fits; [|fold d; rewrite Ef; lia | lia].
    repeat split; try lia. rewrite Z.sub_diag. lia.
  - exists (Pos.iter xO p k), fe.
    rewrite round_fits; [| |lia].
    + repeat split; try lia. rewrite iter_xO_value. f_equal. f_equal. lia.
    + rewrite iter_xO_digits. fold d.
      replace (d + Z.pos k + fe) with (d + e0) by lia. rewrite Ef. lia.
Qed.

Lemma ofZ_small k :
  0 < k < 2 ^ 53 ->
  exists m, ofZ k = S754_finite false m (Zdigits2 k - 53)
            /\ Z.pos m = k * 2 ^ (53 - Zdigits2 k).
Proof.
  intros [Hk0 Hk]. destruct k as [|p|p]; try lia.
  pose proof (digits2_bounds p) as [Blo Bhi]. unfold Zdigits2.
  set (d := Z.pos (digits2_pos p)) in *.
  assert (Hd : d <= 53).
  { destruct (Z.le_gt_cases d 53) as [?|Hgt]; [assumption|].
    assert (2 ^ 53 <= 2 ^ (d - 1)) by (apply Z.pow_le_mono_r; lia). lia. }
  assert (0 < d) by (unfold d; lia).
  destruct (binary_round_small false p 0 Hd ltac:(lia)) as (m & e & R & _ & Vm & Ee).
  fold d in Ee. exists m. unfold ofZ, binary_normalize. rewrite R.
  replace (Z.max (d + 0 - 53) (-1074)) with (d - 53) in Ee by lia. subst e.
  split; [reflexivity|]. rewrite Vm. f_equal. f_equal. lia.
Qed.

Lemma eqb_finite m1 e1 m2 e2 :
  eqb (S754_finite false m1 e1) (S754_finite false m2 e2) = true
  <-> e1 = e2 /\ m1 = m2.
Proof.
  unfold eqb, SFeqb, SFcompare.
  destruct (Z.compare_spec e1 e2) as [E|E|E].
  - fold (Pos.compare m1 m2). destruct (Pos.compare_spec m1 m2) as [E'|E'|E'].
    + tauto.
    + split; [discriminate | intros [_ ->]; lia].
    + split; [discriminate | intros [_ ->]; lia].
  - split; [discriminate | lia].
  - split; [discriminate | lia].
Qed.

(** Rule 2 on a float of 53 bits: it equals its floor exactly when its
    value is an integer. *)
Lemma eqb_Floor m e :
  Z.pos (digits2_pos m) = 53 -> e < 0 ->
  eqb (S754_finite false m e) (Floor (S754_finite false m e)) = true
  <-> Z.pos m mod 2 ^ (- e) = 0.
Proof.
  intros Hd He. pose proof (digits2_bounds m) as [Blo Bhi]. rewrite Hd in Blo, Bhi.
  change (2 ^ (53 - 1)) with (2 ^ 52) in Blo.
  unfold Floor. replace (0 <=? e) with false by (symmetry; apply Z.leb_gt; lia).
  rewrite Z.shiftr_div_pow2 by lia.
  pose proof (pow2_pos (- e) ltac:(lia)) as Hpow.
  pose proof (Z.div_mod (Z.pos m) (2 ^ (- e)) ltac:(lia)) as DM.
  pose proof (Z.mod_pos_bound (Z.pos m) (2 ^ (- e)) ltac:(lia)) as Bm.
  set (k := Z.pos m / 2 ^ (- e)) in *.
  assert (Hk0 : 0 <= k) by (apply Z.div_pos; lia).
  assert (Hk : k < 2 ^ 53) by (apply Z.div_lt_upper_bound; nia).
  destruct (Z.eq_dec k 0) as [Ek | Ek].
  - rewrite Ek in *. change (ofZ 0) with (S754_zero false).
    split; [discriminate | lia].
  - destruct (ofZ_small k ltac:(lia)) as (mk & Ek' & Vk). rewrite Ek'.
    rewrite eqb_finite. split.
    + intros [Ee Em]. subst mk.
      replace (53 - Zdigits2 k) with (- e) in Vk by lia.
      rewrite Vk. apply Z.mod_mul. lia.
    + intros Hz. rewrite Hz in DM.
      assert (Edk : Zdigits2 k = 53 + e).
      { apply Zdigits2_unique; [lia|].
        assert (P52 : 2 ^ 52 = 2 ^ (53 + e - 1) * 2 ^ (- e)).
        { destruct (Z.le_gt_cases 1 (53 + e)) as [Hge | Hlt].
          - rewrite <- pow2_split by lia. f_equal. lia.
          - exfalso. assert (2 ^ 53 <= 2 ^ (- e)) by (apply Z.pow_le_mono_r; lia).
            nia. }
        assert (P53 : 2 ^ 53 = 2 ^ (53 + e) * 2 ^ (- e)).
        { destruct (Z.le_gt_cases 0 (53 + e)) as [Hge | Hlt].
          - rewrite <- pow2_split by lia. f_equal. lia.
          - exfalso. assert (2 ^ 53 <= 2 ^ (- e)) by (apply Z.pow_le_mono_r; lia).
            nia. }
        nia. }
      rewrite Edk in Vk |- *. split; [lia|].
      replace (53 - (53 + e)) with (- e) in Vk by lia.
      apply Pos2Z.inj. lia.
Qed.

Lemma c100_value : c100 = S754_finite false 7036874417766400 (-46).
Proof. vm_compute. reflexivity. Qed.

Lemma c25_value : c25 = S754_finite false 7036874417766400 (-48).
Proof. vm_compute. reflexivity. Qed.

(** A multiple of [2^n] within [2^(n-1)] of another one is that one. *)
Lemma multiple_within_half a b n :
  1 <= n -> Z.abs (a * 2 ^ n - b * 2 ^ n) <= 2 ^ (n - 1) -> a = b.
Proof.
  intros Hn Hab.
  assert (P : 2 ^ n = 2 * 2 ^ (n - 1)).
  { replace n with (1 + (n - 1)) at 1 by lia. rewrite pow2_split by lia. reflexivity. }
  pose proof (pow2_pos (n - 1) ltac:(lia)) as Hpos.
  rewrite P in Hab. nia.
Qed.

(** The product of a float of 53 bits with 100: within half a unit in the
    last place of the exact product, and exact when that is a whole number
    of cents below [2^50]. *)
Lemma mul_c100 m e :
  Z.pos (digits2_pos m) = 53 -> -60 <= e <= 0 ->
  exists mg eg,
    mul (S754_finite false m e) c100 = S754_finite false mg eg
    /\ Z.pos (digits2_pos mg) = 53
    /\ e + 6 <= eg <= e + 8
    /\ Z.abs (Z.pos mg * 2 ^ (eg - e) - 100 * Z.pos m) <= 64
    /\ (forall M, 0 < M < 2 ^ 50 -> 100 * Z.pos m = M * 2 ^ (- e) ->
        Z.pos mg * 2 ^ (eg - e) = 100 * Z.pos m).
Proof.
  intros Hd He. pose proof (digits2_bounds m) as [Blo Bhi]. rewrite Hd in Blo, Bhi.
  change (2 ^ (53 - 1)) with 4503599627370496 in Blo.
  change (2 ^ 53) with 9007199254740992 in Bhi.
  rewrite c100_value. unfold mul, SFmul. cbn [xorb].
  set (mx := (m * 7036874417766400)%positive).
  assert (Emx : Z.pos mx = 100 * Z.pos m * 2 ^ 46).
  { unfold mx. rewrite Pos2Z.inj_mul. change (2 ^ 46) with 70368744177664. lia. }
  assert (Hdx : Z.pos (digits2_pos mx) = 105 \/ Z.pos (digits2_pos mx) = 106).
  { change (Z.pos (digits2_pos mx)) with (Zdigits2 (Z.pos mx)).
    destruct (Z.lt_ge_cases (Z.pos mx) (2 ^ 105)) as [Hlt|Hge].
    - left. apply Zdigits2_unique; [lia|]. split; [|exact Hlt].
      rewrite Emx. change (2 ^ (105 - 1)) with (4503599627370496 * 2 ^ 52).
      change (2 ^ 46) with 70368744177664.
      change (2 ^ 52) with 4503599627370496. lia.
    - right. apply Zdigits2_unique; [lia|]. split; [exact Hge|].
      rewrite Emx. change (2 ^ 106) with (9007199254740992 * 2 ^ 53).
      change (2 ^ 46) with 70368744177664.
      change (2 ^ 53) with 9007199254740992. lia. }
  set (d := Z.pos (digits2_pos mx)) in *.
  destruct (round_exact false mx (e + -46)) as (mg & eg & R & Dg & Heg & Bg);
    fold d; try lia.
  fold d in Heg, Bg.
  exists mg, eg. split; [exact R|]. split; [exact Dg|]. split; [lia|].
  assert (Eg : Z.pos mg * 2 ^ (eg - (e + -46)) = Z.pos mg * 2 ^ (eg - e) * 2 ^ 46).
  { replace (eg - (e + -46)) with (eg - e + 46) by lia.
    rewrite pow2_split by lia. lia. }
  rewrite Eg, Emx in Bg.
  assert (B52 : 2 ^ (d - 54) <= 2 ^ 52) by (apply Z.pow_le_mono_r; lia).
  split.
  - change (2 ^ 52) with (64 * 2 ^ 46) in B52.
    pose proof (pow2_pos 46 ltac:(lia)) as P46.
    set (A := Z.pos mg * 2 ^ (eg - e)) in *.
    assert (Z.abs (A - 100 * Z.pos m) * 2 ^ 46 <= 64 * 2 ^ 46).
    { rewrite <- (Z.abs_eq (2 ^ 46)) at 1 by lia. rewrite <- Z.abs_mul. 
      replace ((A - 100 * Z.pos m) * 2 ^ 46) with (A * 2 ^ 46 - 100 * Z.pos m * 2 ^ 46)
        by lia. lia. }
    apply (mul_le_cancel_pos _ _ (2 ^ 46)); assumption.
  - intros M HM EM.
    pose proof (digits2_bounds mx) as [Bxlo Bxhi]. fold d in Bxlo, Bxhi.
    set (n := d - 53).
    assert (Hn : 52 <= n <= 53) by (unfold n; lia).
    assert (Hmx : Z.pos mx = M * 2 ^ (46 - e)).
    { rewrite Emx, EM. replace (46 - e) with (- e + 46) by lia.
      rewrite pow2_split by lia. lia. }
    assert (Hne : n <= 46 - e).
    { destruct (Z.le_gt_cases d (96 - e)) as [?|Hgt]; [unfold n; lia|].
      assert (2 ^ (96 - e) <= 2 ^ (d - 1)) by (apply Z.pow_le_mono_r; lia).
      assert (P96 : 2 ^ (96 - e) = 2 ^ 50 * 2 ^ (46 - e)).
      { rewrite <- pow2_split by lia. f_equal. lia. }
      pose proof (pow2_pos (46 - e) ltac:(lia)).
      assert (M * 2 ^ (46 - e) < 2 ^ 50 * 2 ^ (46 - e))
        by (apply Z.mul_lt_mono_pos_r; lia).
      lia. }
    assert (E1 : Z.pos mg * 2 ^ (eg - e) * 2 ^ 46
                 = Z.pos mg * 2 ^ (eg - e + 46 - n) * 2 ^ n).
    { rewrite <- !Z.mul_assoc, <- !pow2_split by lia. f_equal. f_equal. lia. }
    assert (E2 : 100 * Z.pos m * 2 ^ 46 = M * 2 ^ (46 - e - n) * 2 ^ n).
    { rewrite EM. rewrite <- !Z.mul_assoc, <- !pow2_split by lia. f_equal. f_equal.
      lia. }
    rewrite E1, E2 in Bg. replace (d - 54) with (n - 1) in Bg by (unfold n; lia).
    apply multiple_within_half in Bg; [|lia].
    assert (E3 : Z.pos mg * 2 ^ (eg - e) * 2 ^ 46 = 100 * Z.pos m * 2 ^ 46).
    { rewrite E1, E2, Bg. reflexivity. }
    pose proof (pow2_pos 46 ltac:(lia)) as P46.
    apply (mul_cancel_pos _ _ (2 ^ 46)); assumption.
Qed.

(** Rule 3 on a float of 53 bits: the remainder by 25 is zero exactly when
    the value is a multiple of 25. The value is scaled by [2^t]. *)
Lemma Mod_c25 mg eg t :
  Z.pos (digits2_pos mg) = 53 -> -60 <= eg <= 60 -> 0 <= t -> 0 <= eg + t ->
  eqb (Mod (S754_finite false mg eg) c25) c0 = true
  <-> (Z.pos mg * 2 ^ (eg + t)) mod (25 * 2 ^ t) = 0.
Proof.
  intros Hd He Ht Het.
  pose proof (digits2_bounds mg) as [Blo Bhi]. rewrite Hd in Blo, Bhi.
  rewrite c25_value. unfold Mod.
  set (e0 := Z.min eg (-48)).
  assert (He0 : -60 <= e0 <= -48) by (unfold e0; lia).
  rewrite !Z.shiftl_mul_pow2 by (unfold e0; lia).
  set (u := - e0).
  assert (EY : 7036874417766400 * 2 ^ (-48 - e0) = 25 * 2 ^ u).
  { change 7036874417766400 with (25 * 2 ^ 48). rewrite <- Z.mul_assoc.
    rewrite <- pow2_split by lia. f_equal. f_equal. unfold u. lia. }
  rewrite EY. replace (eg - e0) with (eg + u) by (unfold u; lia).
  pose proof (pow2_pos u ltac:(unfold u; lia)) as Hu.
  pose proof (pow2_pos t Ht) as Hpt.
  set (X := Z.pos mg * 2 ^ (eg + u)).
  assert (HX : 0 <= X mod (25 * 2 ^ u) < 25 * 2 ^ u) by (apply Z.mod_pos_bound; lia).
  assert (Hscale : X mod (25 * 2 ^ u) = 0
                   <-> (Z.pos mg * 2 ^ (eg + t)) mod (25 * 2 ^ t) = 0).
  { assert (Hu0 : 0 <= eg + u) by (unfold u, e0; lia).
    assert (scale : forall a b k, 0 <= a -> 0 <= b -> 0 <= k ->
              (Z.pos mg * 2 ^ (a + k)) mod (25 * 2 ^ (b + k)) = 0
              <-> (Z.pos mg * 2 ^ a) mod (25 * 2 ^ b) = 0).
    { intros a b k Ha Hb Hk. rewrite !pow2_split by lia. rewrite !Z.mul_assoc.
      pose proof (pow2_pos k Hk). pose proof (pow2_pos b Hb).
      rewrite Z.mul_mod_distr_r by lia. nia. }
    unfold X. destruct (Z.le_ge_cases t u) as [Htu | Htu].
    - replace (eg + u) with ((eg + t) + (u - t)) by lia.
      replace u with (t + (u - t)) at 2 by lia.
      apply scale; lia.
    - symmetry.
      replace (eg + t) with ((eg + u) + (t - u)) by lia.
      replace t with (u + (t - u)) at 2 by lia.
      apply scale; lia. }
  rewrite <- Hscale.
  destruct (X mod (25 * 2 ^ u)) as [|R|R] eqn:ER; try lia.
  - split; [reflexivity|]. intros _. reflexivity.
  - split; [|discriminate]. unfold ofBinary, binary_normalize. cbn [cond_Zopp].
    assert (HR : Z.pos (digits2_pos R) <= 53).
    { pose proof (digits2_bounds R) as [BRlo BRhi].
      assert (HR53 : Z.pos R < 2 ^ 53).
      { destruct (Z.le_ge_cases eg (-48)) as [Hle | Hge].
        - assert (Eu : eg + u = 0) by (unfold u, e0; lia).
          assert (EX : X = Z.pos mg) by (unfold X; rewrite Eu; lia).
          pose proof (Z.mod_le X (25 * 2 ^ u) ltac:(unfold X; lia) ltac:(lia)). lia.
        - assert (Eu : u = 48) by (unfold u, e0; lia).
          rewrite Eu in HX. change (25 * 2 ^ 48) with 7036874417766400 in HX.
          change (2 ^ 53) with 9007199254740992. lia. }
      destruct (Z.le_gt_cases (Z.pos (digits2_pos R)) 53) as [?|Hgt]; [assumption|].
      assert (2 ^ 53 <= 2 ^ (Z.pos (digits2_pos R) - 1)) by (apply Z.pow_le_mono_r; lia).
      lia. }
    destruct (binary_round_small false R e0 HR ltac:(lia)) as (m' & e' & RR & _).
    rewrite RR. discriminate.
Qed.

(** ** Amounts as they are written *)

Lemma digit_cases d :
  0 <= d <= 9 ->
  d = 0 \/ d = 1 \/ d = 2 \/ d = 3 \/ d = 4 \/ d = 5 \/ d = 6 \/ d = 7 \/ d = 8
  \/ d = 9.
Proof. lia. Qed.

Lemma readDigits_digit d st s :
  0 <= d <= 9 ->
  strconv.readDigits false st (String (digitChar d) s)
  = strconv.readDigits false (digitStep d st) s.
Proof.
  intros Hd. apply digit_cases in Hd. unfold digitStep.
  repeat (destruct Hd as [->|Hd];
          [cbn [strconv.readDigits]; destruct (strconv.nd st =? 0); reflexivity|]).
  subst. cbn [strconv.readDigits]. destruct (strconv.nd st =? 0); reflexivity.
Qed.

Lemma digitStep_spec d st :
  0 <= strconv.nd st -> (strconv.nd st = 0 -> strconv.mantissa st = 0) ->
  strconv.mantissa (digitStep d st) = strconv.mantissa st * 10 + d
  /\ strconv.sawdot (digitStep d st) = strconv.sawdot st
  /\ strconv.underscores (digitStep d st) = strconv.underscores st
  /\ strconv.sawdigits (digitStep d st) = true
  /\ 0 <= strconv.nd (digitStep d st)
  /\ (strconv.nd (digitStep d st) = 0 -> strconv.mantissa (digitStep d st) = 0)
  /\ strconv.dp (digitStep d st) - strconv.nd (digitStep d st)
     = strconv.dp st - strconv.nd st - 1.
Proof.
  intros Hnd H0. unfold digitStep.
  destruct ((d =? 0) && (strconv.nd st =? 0)) eqn:Ez; cbn.
  - apply andb_prop in Ez as [Ed En]. apply Z.eqb_eq in Ed, En.
    rewrite (H0 En). repeat split; lia.
  - repeat split; lia.
Qed.

(** The state of [readDigits] after the digits [ds], none of them after a
    point. *)
Lemma readDigits_writeDigits ds rest st :
  Forall (fun d => 0 <= d <= 9) ds ->
  0 <= strconv.nd st -> (strconv.nd st = 0 -> strconv.mantissa st = 0) ->
  exists st',
    strconv.readDigits false st (writeDigits ds rest)
    = strconv.readDigits false st' rest
    /\ strconv.sawdot st' = strconv.sawdot st
    /\ strconv.underscores st' = strconv.underscores st
    /\ 0 <= strconv.nd st'
    /\ (strconv.nd st' = 0 -> strconv.mantissa st' = 0)
    /\ strconv.mantissa st' = fold_left (fun n d => n * 10 + d) ds (strconv.mantissa st).
Proof.
  intros Hds. revert st. induction Hds as [|d ds Hd Hds IH]; intros st Hnd H0.
  - exists st. cbn [writeDigits fold_left]. tauto.
  - cbn [writeDigits fold_left]. rewrite readDigits_digit by exact Hd.
    destruct (digitStep_spec d st Hnd H0) as (Em & Edot & Eus & _ & Hnd1 & H01 & _).
    destruct (IH (digitStep d st) Hnd1 H01) as (st' & E & Hdot & Hus & Hnd' & H0' & Hm').
    exists st'. rewrite Em in Hm'. rewrite Edot in Hdot. rewrite Eus in Hus. tauto.
Qed.

Lemma special_digit d s : 0 <= d <= 9 -> strconv.special (String (digitChar d) s) = None.
Proof.
  intros Hd. apply digit_cases in Hd.
  repeat (destruct Hd as [->|Hd]; [reflexivity|]). subst. reflexivity.
Qed.

Lemma lower_digit_not_x d :
  0 <= d <= 9 -> byte_eq (strconv.lower (digitChar d)) "x"%char = false.
Proof.
  intros Hd. apply digit_cases in Hd.
  repeat (destruct Hd as [->|Hd]; [reflexivity|]). subst. reflexivity.
Qed.

Lemma digit_not_sign d :
  0 <= d <= 9 ->
  byte_eq (digitChar d) "+"%char = false /\ byte_eq (digitChar d) "-"%char = false.
Proof.
  intros Hd. apply digit_cases in Hd.
  repeat (destruct Hd as [->|Hd]; [split; reflexivity|]). subst. split; reflexivity.
Qed.

Lemma cents_digits c : 0 <= c <= 99 -> 0 <= c / 10 <= 9 /\ 0 <= c mod 10 <= 9.
Proof.
  intros Hc. pose proof (Z.div_mod c 10 ltac:(lia)).
  pose proof (Z.mod_pos_bound c 10 ltac:(lia)). lia.
Qed.

Lemma no_hex_prefix c0 s0 (r : string) :
  (forall x s', s0 = String x s' -> byte_eq (strconv.lower x) "x"%char = false) ->
  match s0 with
  | String x (String c s3) =>
      if byte_eq c0 "0"%char && byte_eq (strconv.lower x) "x"%char
      then (true, String c s3) else (false, r)
  | _ => (false, r)
  end = (false, r).
Proof.
  intros Hx. destruct s0 as [|x [|c s3]]; try reflexivity.
  rewrite (Hx x _ eq_refl), andb_false_r. reflexivity.
Qed.

(** [readFloat] on a written amount: the cents as the mantissa, and the
    exponent -2. *)
Lemma readFloat_writeAmount dollars cents :
  Forall (fun d => 0 <= d <= 9) dollars -> 0 <= cents <= 99 ->
  strconv.readFloat (writeAmount dollars cents)
  = Some {| strconv.num_neg := false; strconv.num_hex := false;
            strconv.num_mantissa := amountCents dollars cents;
            strconv.num_exp := if amountCents dollars cents =? 0 then 0 else -2;
            strconv.num_rest := "" |}.
Proof.
  intros Hds Hc. destruct (cents_digits cents Hc) as [Hc1 Hc2].
  remember (writeAmount dollars cents) as text eqn:Htext.
  assert (Hfirst : exists c0 s0, text = String c0 s0
                     /\ byte_eq c0 "+"%char = false /\ byte_eq c0 "-"%char = false).
  { rewrite Htext. unfold writeAmount.
    destruct Hds as [|d ds Hd Hds]; cbn [writeDigits].
    - eexists _, _. split; [reflexivity|]. split; reflexivity.
    - eexists _, _. split; [reflexivity|]. apply digit_not_sign, Hd. }
  assert (Hsecond : forall z x s', text = String z (String x s') ->
                      byte_eq (strconv.lower x) "x"%char = false).
  { rewrite Htext. unfold writeAmount, twoDigits. intros z x s'.
    destruct Hds as [|d ds Hd [|d' ds' Hd' Hds']]; cbn [writeDigits];
      intros [= _ <- _].
    - apply lower_digit_not_x, Hc1.
    - reflexivity.
    - apply lower_digit_not_x, Hd'. }
  destruct Hfirst as (c0 & s0 & Etext & Hplus & Hminus).
  unfold strconv.readFloat. rewrite Etext. cbv iota.
  rewrite Hplus, Hminus.
  rewrite (no_hex_prefix c0 s0 (String c0 s0));
    [|intros x s' ->; exact (Hsecond c0 x s' Etext)].
  rewrite <- Etext.
  set (st0 := {| strconv.sawdot := false; strconv.sawdigits := false;
                 strconv.nd := 0; strconv.dp := 0; strconv.mantissa := 0;
                 strconv.underscores := false |}).
  destruct (readDigits_writeDigits dollars (String "." (twoDigits cents "")) st0 Hds)
    as (st1 & E1 & Hdot1 & Hus1 & Hnd1 & H01 & Hm1); [cbn; lia | cbn; lia |].
  change (strconv.mantissa st0) with 0 in Hm1.
  fold (digitsValue dollars) in Hm1. cbn in Hdot1, Hus1.
  rewrite Htext at 1. unfold writeAmount. rewrite E1.
  cbn [strconv.readDigits].
  change (byte_eq "." "_") with false. change (byte_eq "." ".") with true.
  cbv iota. rewrite Hdot1.
  set (st2 := {| strconv.sawdot := true; strconv.sawdigits := strconv.sawdigits st1;
                 strconv.nd := strconv.nd st1; strconv.dp := strconv.nd st1;
                 strconv.mantissa := strconv.mantissa st1;
                 strconv.underscores := strconv.underscores st1 |}).
  unfold twoDigits. rewrite !readDigits_digit by assumption.
  destruct (digitStep_spec (cents / 10) st2 Hnd1 H01)
    as (Em3 & Edot3 & Eus3 & _ & Hnd3 & H03 & Edp3).
  set (st3 := digitStep (cents / 10) st2) in *.
  destruct (digitStep_spec (cents mod 10) st3 Hnd3 H03)
    as (Em4 & Edot4 & Eus4 & Esd4 & Hnd4 & H04 & Edp4).
  set (st4 := digitStep (cents mod 10) st3) in *.
  cbn [strconv.readDigits]. rewrite Esd4. cbn [negb]. cbv iota.
  rewrite Edot4, Edot3. change (strconv.sawdot st2) with true. cbv iota.
  rewrite Eus4, Eus3. change (strconv.underscores st2) with (strconv.underscores st1).
  rewrite Hus1. cbn [andb]. cbv iota.
  assert (EM : strconv.mantissa st4 = amountCents dollars cents).
  { rewrite Em4, Em3. change (strconv.mantissa st2) with (strconv.mantissa st1).
    rewrite Hm1. unfold amountCents.
    pose proof (Z.div_mod cents 10 ltac:(lia)). lia. }
  assert (EE : strconv.dp st4 - strconv.nd st4 = -2).
  { rewrite Edp4, Edp3. change (strconv.dp st2) with (strconv.nd st1).
    change (strconv.nd st2) with (strconv.nd st1). lia. }
  rewrite EM, EE. reflexivity.
Qed.

Lemma ParseFloat_writeAmount dollars cents :
  Forall (fun d => 0 <= d <= 9) dollars -> 0 <= cents <= 99 ->
  fst (strconv.ParseFloat (writeAmount dollars cents))
  = if amountCents dollars cents =? 0 then S754_zero false
    else ofRatio false (amountCents dollars cents) 100.
Proof.
  intros Hds Hc. unfold strconv.ParseFloat, strconv.atof64.
  assert (Es : strconv.special (writeAmount dollars cents) = None).
  { unfold writeAmount. destruct Hds as [|d ds Hd Hds]; cbn [writeDigits].
    - reflexivity.
    - apply special_digit, Hd. }
  rewrite Es, readFloat_writeAmount by assumption.
  cbn [strconv.num_hex strconv.num_neg strconv.num_mantissa strconv.num_exp
       strconv.num_rest fst].
  destruct (amountCents dollars cents =? 0) eqn:E0.
  - apply Z.eqb_eq in E0. rewrite E0. reflexivity.
  - unfold ofDecimal. change (10 ^ Z.max (-2) 0) with 1.
    change (10 ^ Z.max (- -2) 0) with 100. rewrite Z.mul_1_r. reflexivity.
Qed.

(** ** Rules 2 and 3 on an amount of [M] cents *)

(** Rule 2: the float nearest to [M / 100] is a whole number exactly when
    [M] is a whole number of dollars. *)
Lemma roundDollar_cents M :
  0 < M < 2 ^ 50 ->
  eqb (ofRatio false M 100) (Floor (ofRatio false M 100)) = true <-> M mod 100 = 0.
Proof.
  intros HM. destruct (ofRatio_100 M HM) as (m & e & R & Dm & Hs & He & Berr & Bex).
  set (s := 60 - Zdigits2 M) in *. rewrite R.
  rewrite eqb_Floor by (assumption || lia).
  pose proof (pow2_pos (- e) ltac:(lia)) as Hpe.
  pose proof (pow2_pos (e + s) ltac:(lia)) as Hpes.
  assert (Ps : 2 ^ s = 2 ^ (- e) * 2 ^ (e + s)).
  { rewrite <- pow2_split by lia. f_equal. lia. }
  assert (Hs10 : 2 ^ 10 <= 2 ^ s) by (apply Z.pow_le_mono_r; lia).
  change (2 ^ 10) with 1024 in Hs10.
  split.
  - intros Hz. apply Z.mod_divide in Hz; [|lia]. destruct Hz as [k Hk].
    rewrite Hk in Berr.
    replace (100 * (k * 2 ^ (- e) * 2 ^ (e + s)) - M * 2 ^ s)
      with ((100 * k - M) * 2 ^ s) in Berr by (rewrite Ps; ring).
    assert (100 * k - M = 0) by (apply (small_multiple _ (2 ^ s)); lia).
    replace M with (k * 100) by lia. apply Z.mod_mul. lia.
  - intros Hz. apply Z.mod_divide in Hz; [|lia]. destruct Hz as [k Hk].
    assert (H25 : M mod 25 = 0).
    { rewrite Hk. replace (k * 100) with (k * 4 * 25) by lia. apply Z.mod_mul. lia. }
    specialize (Bex H25). rewrite Hk, Ps in Bex.
    assert (Em : Z.pos m = k * 2 ^ (- e)) by nia.
    rewrite Em. apply Z.mod_mul. lia.
Qed.

(** Rule 3: the float nearest to [M / 100], times 100, is a multiple of 25
    exactly when [M] is. *)
Lemma quarter_cents M :
  0 < M < 2 ^ 50 ->
  eqb (Mod (mul (ofRatio false M 100) c100) c25) c0 = true <-> M mod 25 = 0.
Proof.
  intros HM. destruct (ofRatio_100 M HM) as (m & e & R & Dm & Hs & He & Berr & Bex).
  set (s := 60 - Zdigits2 M) in *. rewrite R.
  destruct (mul_c100 m e Dm ltac:(lia)) as (mg & eg & Rg & Dg & Heg & Bg & Bgex).
  rewrite Rg. rewrite (Mod_c25 mg eg s) by (assumption || lia).
  pose proof (pow2_pos (- e) ltac:(lia)) as Hpe.
  pose proof (pow2_pos (e + s) ltac:(lia)) as Hpes.
  assert (Ps : 2 ^ s = 2 ^ (- e) * 2 ^ (e + s)).
  { rewrite <- pow2_split by lia. f_equal. lia. }
  assert (Pg : 2 ^ (eg + s) = 2 ^ (eg - e) * 2 ^ (e + s)).
  { rewrite <- pow2_split by lia. f_equal. lia. }
  assert (Hs10 : 2 ^ 10 <= 2 ^ s) by (apply Z.pow_le_mono_r; lia).
  change (2 ^ 10) with 1024 in Hs10.
  assert (Hes : 2 ^ (e + s) <= 2 ^ 2) by (apply Z.pow_le_mono_r; lia).
  change (2 ^ 2) with 4 in Hes.
  rewrite Pg, Z.mul_assoc.
  set (A := Z.pos mg * 2 ^ (eg - e)) in *.
  set (F := Z.pos m * 2 ^ (e + s)) in *.
  split.
  - intros Hz. apply Z.mod_divide in Hz; [|lia]. destruct Hz as [j Hj].
    assert (HG : Z.abs (A * 2 ^ (e + s) - 100 * F) <= 256).
    { replace (A * 2 ^ (e + s) - 100 * F)
        with ((A - 100 * Z.pos m) * 2 ^ (e + s)) by (unfold F; ring).
      apply (abs_mul_le _ _ 64 4); lia. }
    assert (HM2 : Z.abs ((25 * j - M) * 2 ^ s) <= 356).
    { replace ((25 * j - M) * 2 ^ s)
        with ((A * 2 ^ (e + s) - 100 * F) + (100 * F - M * 2 ^ s))
        by (rewrite Hj; ring). lia. }
    assert (25 * j - M = 0) by (apply (small_multiple _ (2 ^ s)); lia).
    replace M with (j * 25) by lia. apply Z.mod_mul. lia.
  - intros H25. specialize (Bex H25). fold F in Bex.
    assert (Em : 100 * Z.pos m = M * 2 ^ (- e)).
    { unfold F in Bex. rewrite Ps in Bex. nia. }
    rewrite (Bgex M HM Em). fold F in Bex.
    replace (100 * Z.pos m * 2 ^ (e + s)) with (100 * F) by (unfold F; ring).
    rewrite Bex. apply Z.mod_divide in H25; [|lia]. destruct H25 as [j ->].
    replace (j * 25 * 2 ^ s) with (j * (25 * 2 ^ s)) by ring.
    apply Z.mod_mul. lia.
Qed.

Lemma digitsValue_nonneg ds :
  Forall (fun d => 0 <= d <= 9) ds -> 0 <= digitsValue ds.
Proof.
  intros Hds. unfold digitsValue.
  assert (G : forall a, 0 <= a -> 0 <= fold_left (fun n d => n * 10 + d) ds a).
  { induction Hds as [|d ds Hd Hds IH]; intros b Hb; cbn [fold_left]; [exact Hb|].
    apply IH. lia. }
  apply G. lia.
Qed.

Lemma amountCents_cents dollars cents :
  Forall (fun d => 0 <= d <= 9) dollars -> 0 <= cents <= 99 ->
  0 <= amountCents dollars cents
  /\ amountCents dollars cents mod 100 = cents
  /\ amountCents dollars cents mod 25 = cents mod 25.
Proof.
  intros Hds Hc. pose proof (digitsValue_nonneg dollars Hds) as Hv.
  unfold amountCents. split; [lia|]. split.
  - symmetry. apply (Z.mod_unique _ 100 (digitsValue dollars)); lia.
  - replace (100 * digitsValue dollars + cents)
      with (cents + (4 * digitsValue dollars) * 25) by lia.
    apply Z.mod_add. lia.
Qed.

(** X18. A total written as dollars, a point and two digits of cents, below
    [2^50] cents, gets the 50 points of rule 2 exactly when the cents are
    [00]: the rounding of the parsed [float64] never makes a whole number of
    an amount that is none, nor the reverse. *)
Theorem written_total_round_dollar (dollars : list Z) (cents : Z) :
  Forall (fun d => 0 <= d <= 9) dollars -> 0 <= cents <= 99 ->
  amountCents dollars cents < 2 ^ 50 ->
  roundDollarPoints (writeAmount dollars cents) = (if cents =? 0 then 50 else 0).
Proof.
  intros Hds Hc HM.
  destruct (amountCents_cents dollars cents Hds Hc) as (H0 & H100 & _).
  unfold roundDollarPoints. rewrite ParseFloat_writeAmount by assumption.
  destruct (Z.eqb_spec (amountCents dollars cents) 0) as [E0 | E0].
  - rewrite E0 in H100. change (0 mod 100) with 0 in H100. rewrite <- H100.
    reflexivity.
  - pose proof (roundDollar_cents (amountCents dollars cents) ltac:(lia)) as R.
    rewrite H100 in R.
    destruct (eqb _ _); destruct (Z.eqb_spec cents 0) as [Ec | Ec];
      try reflexivity; exfalso.
    + apply Ec, R. reflexivity.
    + apply R in Ec. discriminate.
Qed.

Lemma written_total_round_dollar_35_00 :
  writeAmount [3; 5] 0 = "35.00" /\ roundDollarPoints "35.00" = 50.
Proof.
  split; [reflexivity |].
  apply (written_total_round_dollar [3; 5] 0).
  - repeat constructor; lia.
  - lia.
  - reflexivity.
Defined.

(** X19. Such a total gets the 25 points of rule 3 exactly when the cents
    are [00], [25], [50] or [75]: the two roundings, of the parsed total and
    of its product with 100, never move the remainder by 25. *)
Theorem written_total_quarter (dollars : list Z) (cents : Z) :
  Forall (fun d => 0 <= d <= 9) dollars -> 0 <= cents <= 99 ->
  amountCents dollars cents < 2 ^ 50 ->
  quarterPoints (writeAmount dollars cents) = (if cents mod 25 =? 0 then 25 else 0).
Proof.
  intros Hds Hc HM.
  destruct (amountCents_cents dollars cents Hds Hc) as (H0 & _ & H25).
  unfold quarterPoints. rewrite ParseFloat_writeAmount by assumption.
  destruct (Z.eqb_spec (amountCents dollars cents) 0) as [E0 | E0].
  - rewrite E0 in H25. change (0 mod 25) with 0 in H25. rewrite <- H25.
    reflexivity.
  - pose proof (quarter_cents (amountCents dollars cents) ltac:(lia)) as R.
    rewrite H25 in R.
    destruct (eqb _ _); destruct (Z.eqb_spec (cents mod 25) 0) as [Ec | Ec];
      try reflexivity; exfalso.
    + apply Ec, R. reflexivity.
    + apply R in Ec. discriminate.
Qed.

Lemma written_total_quarter_100_75 :
  writeAmount [1; 0; 0] 75 = "100.75" /\ quarterPoints "100.75" = 25.
Proof.
  split; [reflexivity |].
  apply (written_total_quarter [1; 0; 0] 75).
  - repeat constructor; lia.
  - lia.
  - reflexivity.
Defined.

(** ** Rule 5 on a price of [M] cents *)

Lemma multiple_within a b n :
  0 <= n -> Z.abs (a * 2 ^ n - b * 2 ^ n) < 2 ^ n -> a = b.
Proof.
  intros Hn Hab. pose proof (pow2_pos n Hn) as Hpos. nia.
Qed.

(** The product of a float of 53 bits with the constant [0.2], which is
    [(2^55 + 2) / 5 * 2^-55]: a multiple of [2^n] within [2^(n-1)] of the
    exact product, in units of [2^(e-55)]. *)
Lemma mul_c0_2 m e :
  Z.pos (digits2_pos m) = 53 -> -60 <= e <= 0 ->
  exists mh eh n,
    mul (S754_finite false m e) c0_2 = S754_finite false mh eh
    /\ Z.pos (digits2_pos mh) = 53
    /\ e - 3 <= eh <= e - 1
    /\ 52 <= n <= 53 /\ n <= eh - e + 55
    /\ 5 * (Z.pos m * 7205759403792794) < 5 * 2 ^ (n + 53)
    /\ Z.abs (Z.pos mh * 2 ^ (eh - e + 55) - Z.pos m * 7205759403792794)
       <= 2 ^ (n - 1).
Proof.
  intros Hd He. pose proof (digits2_bounds m) as [Blo Bhi]. rewrite Hd in Blo, Bhi.
  change (2 ^ (53 - 1)) with 4503599627370496 in Blo.
  change (2 ^ 53) with 9007199254740992 in Bhi.
  rewrite c0_2_value. unfold mul, SFmul. cbn [xorb].
  set (mx := (m * 7205759403792794)%positive).
  assert (Emx : Z.pos mx = Z.pos m * 7205759403792794) by (unfold mx; lia).
  assert (Hdx : Z.pos (digits2_pos mx) = 105 \/ Z.pos (digits2_pos mx) = 106).
  { change (Z.pos (digits2_pos mx)) with (Zdigits2 (Z.pos mx)).
    destruct (Z.lt_ge_cases (Z.pos mx) (2 ^ 105)) as [Hlt|Hge].
    - left. apply Zdigits2_unique; [lia|]. split; [|exact Hlt].
      rewrite Emx. change (2 ^ (105 - 1)) with (4503599627370496 * 4503599627370496).
      nia.
    - right. apply Zdigits2_unique; [lia|]. split; [exact Hge|].
      rewrite Emx. change (2 ^ 106) with (9007199254740992 * 9007199254740992).
      nia. }
  pose proof (digits2_bounds mx) as [Bxlo Bxhi].
  set (d := Z.pos (digits2_pos mx)) in *.
  destruct (round_exact false mx (e + -55)) as (mh & eh & R & Dh & Heh & Bh);
    fold d; try lia.
  fold d in Heh, Bh.
  exists mh, eh, (d - 53). split; [exact R|]. split; [exact Dh|].
  split; [lia|]. split; [lia|]. split; [lia|].
  replace (d - 53 + 53) with d by lia. rewrite <- Emx.
  split; [lia|].
  replace (eh - e + 55) with (eh - (e + -55)) by lia.
  replace (d - 53 - 1) with (d - 54) by lia. exact Bh.
Qed.

Lemma neg_involutive x : neg (neg x) = x.
Proof. destruct x as [s|s| |s m e]; cbn; rewrite ?negb_involutive; reflexivity. Qed.

Section PriceBonus.

Context `{Platform}.

Lemma int_of_float_ofZ k : 0 <= k < 2 ^ 53 -> int_of_float (ofZ k) = k.
Proof.
  intros [Hk0 Hk]. unfold int_of_float.
  assert (Hin : inInt k = true).
  { unfold inInt, minInt, maxInt. apply andb_true_intro.
    change (2 ^ 53) with 9007199254740992 in Hk.
    change (- 2 ^ 63) with (-9223372036854775808).
    change (2 ^ 63 - 1) with 9223372036854775807.
    split; [apply Z.leb_le | apply Z.leb_le]; lia. }
  destruct (Z.eq_dec k 0) as [-> | Hne]; [reflexivity|].
  destruct (ofZ_small k ltac:(lia)) as (m & E & Vm). rewrite E.
  assert (Hdk : 1 <= Zdigits2 k <= 53).
  { destruct k as [|p|p]; try lia. unfold Zdigits2.
    pose proof (digits2_bounds p) as [Blo Bhi]. split; [lia|].
    destruct (Z.le_gt_cases (Z.pos (digits2_pos p)) 53) as [?|Hgt]; [assumption|].
    assert (2 ^ 53 <= 2 ^ (Z.pos (digits2_pos p) - 1))
      by (apply Z.pow_le_mono_r; lia). lia. }
  assert (Et : truncZ (S754_finite false m (Zdigits2 k - 53)) = Some k).
  { unfold truncZ. cbn [cond_Zopp]. f_equal.
    destruct (Z.leb_spec 0 (Zdigits2 k - 53)) as [Hge | Hlt].
    - replace (Zdigits2 k - 53) with 0 by lia. rewrite Z.shiftl_0_r.
      rewrite Vm. replace (53 - Zdigits2 k) with 0 by lia. lia.
    - rewrite Z.shiftr_div_pow2 by lia. rewrite Vm.
      replace (- (Zdigits2 k - 53)) with (53 - Zdigits2 k) by lia.
      apply Z.div_mul. pose proof (pow2_pos (53 - Zdigits2 k) ltac:(lia)). lia. }
  rewrite Et, Hin. reflexivity.
Qed.

(** [int(math.Ceil(x))] for a positive float below 1 in exponent. *)
Lemma int_Ceil_finite mh eh :
  eh < 0 -> Z.pos mh < 2 ^ 53 ->
  int_of_float (Ceil (S754_finite false mh eh))
  = if Z.pos mh mod 2 ^ (- eh) =? 0 then Z.pos mh / 2 ^ (- eh)
    else Z.pos mh / 2 ^ (- eh) + 1.
Proof.
  intros He Hm. unfold Ceil. cbn [neg SFopp negb]. unfold Floor.
  replace (0 <=? eh) with false by (symmetry; apply Z.leb_gt; lia).
  rewrite neg_involutive.
  rewrite Z.shiftr_div_pow2, Z.shiftl_mul_pow2 by lia.
  pose proof (pow2_pos (- eh) ltac:(lia)) as Hpow.
  pose proof (Z.div_mod (Z.pos mh) (2 ^ (- eh)) ltac:(lia)) as DM.
  pose proof (Z.mod_pos_bound (Z.pos mh) (2 ^ (- eh)) ltac:(lia)) as Bm.
  set (k := Z.pos mh / 2 ^ (- eh)) in *.
  assert (Hk0 : 0 <= k) by (apply Z.div_pos; lia).
  assert (Hk : k < 2 ^ 53).
  { apply Z.div_lt_upper_bound; [lia|]. 
    assert (2 ^ 1 <= 2 ^ (- eh)) by (apply Z.pow_le_mono_r; lia).
    change (2 ^ 1) with 2 in *. change (2 ^ 53) with 9007199254740992 in *. nia. }
  assert (Hk' : k + 1 < 2 ^ 53).
  { assert (2 ^ 1 <= 2 ^ (- eh)) by (apply Z.pow_le_mono_r; lia).
    change (2 ^ 1) with 2 in *. change (2 ^ 53) with 9007199254740992 in *. nia. }
  destruct (Z.eqb_spec (Z.pos mh mod 2 ^ (- eh)) 0) as [Ez | Ez].
  - replace (k * 2 ^ (- eh) =? Z.pos mh) with true by (symmetry; apply Z.eqb_eq; lia).
    apply int_of_float_ofZ. lia.
  - replace (k * 2 ^ (- eh) =? Z.pos mh) with false by (symmetry; apply Z.eqb_neq; lia).
    apply int_of_float_ofZ. lia.
Qed.

End PriceBonus.

Section PriceRule.

Context `{Platform}.

(** Rule 5: [int(math.Ceil(price * 0.2))] for the float nearest to
    [M / 100] is a fifth of [M / 100], rounded up to a whole number. *)
Lemma fifth_cents M :
  0 < M < 2 ^ 50 ->
  int_of_float (Ceil (mul (ofRatio false M 100) c0_2)) = (M + 499) / 500.
Proof.
  intros HM. destruct (ofRatio_100 M HM) as (m & e & R & Dm & Hs & He & Berr & Bex).
  assert (HMs : M * 2 ^ (60 - Zdigits2 M) < 2 ^ 60).
  { destruct M as [|p|p]; try lia. pose proof (digits2_bounds p) as [_ Bhi].
    unfold Zdigits2 in *. set (d1 := Z.pos (digits2_pos p)) in *.
    replace 60 with (d1 + (60 - d1)) at 2 by lia.
    rewrite pow2_split by lia.
    pose proof (pow2_pos (60 - d1) ltac:(lia)). nia. }
  set (s := 60 - Zdigits2 M) in *. rewrite R.
  destruct (mul_c0_2 m e Dm ltac:(lia))
    as (mh & eh & n & Rh & Dh & Heh & Hn & Hne & Bmx & Bh).
  rewrite Rh.
  pose proof (digits2_bounds mh) as [_ Bhhi]. rewrite Dh in Bhhi.
  rewrite int_Ceil_finite by (assumption || lia).
  set (u := e + s) in *. assert (Hu : 0 <= u <= 2) by (unfold u; lia).
  set (a := eh + s + 3). assert (Ha : 0 <= a) by (unfold a; lia).
  set (L := 2 ^ (- eh)).
  pose proof (pow2_pos (- eh) ltac:(lia)) as HL. fold L in HL.
  pose proof (pow2_pos (- e) ltac:(lia)) as Hpe.
  pose proof (pow2_pos a Ha) as Hpa.
  pose proof (pow2_pos u ltac:(lia)) as Hpu.
  pose proof (pow2_pos s ltac:(lia)) as Hps.
  pose proof (pow2_pos (eh - e + 55) ltac:(lia)) as Hpr.
  assert (Hu4 : 2 ^ u <= 4).
  { change 4 with (2 ^ 2). apply Z.pow_le_mono_r; lia. }
  assert (HLam : 2 ^ (s + 3) = L * 2 ^ a).
  { unfold L, a. rewrite <- pow2_split by lia. f_equal. lia. }
  assert (HLam8 : 2 ^ (s + 3) = 8 * 2 ^ s).
  { rewrite pow2_split by lia. change (2 ^ 3) with 8. lia. }
  assert (HLam13 : 8192 <= 2 ^ (s + 3)).
  { change 8192 with (2 ^ 13). apply Z.pow_le_mono_r; lia. }
  assert (Hn52 : 2 ^ (n - 1) <= 2 ^ 52) by (apply Z.pow_le_mono_r; lia).
  change (2 ^ 52) with 4503599627370496 in Hn52.
  change (2 ^ 60) with 1152921504606846976 in HMs.
  set (F := Z.pos m * 2 ^ u) in *.
  set (mx := Z.pos m * 7205759403792794) in *.
  set (Rr := Z.pos mh * 2 ^ (eh - e + 55)) in *.
  set (W := M * 2 ^ s) in *.
  (* the rounded product and the exact one, in units of [2^(e-55-u)] *)
  assert (ER : Rr * 2 ^ u = Z.pos mh * 2 ^ a * 4503599627370496).
  { unfold Rr. change 4503599627370496 with (2 ^ 52).
    rewrite <- !Z.mul_assoc, <- !pow2_split by lia. f_equal. f_equal.
    unfold a, u. lia. }
  assert (Emx : 5 * (mx * 2 ^ u) = F * 36028797018963970).
  { unfold mx, F. ring. }
  set (q := M / 500). set (r := M mod 500).
  pose proof (Z.div_mod M 500 ltac:(lia)) as DM. fold q r in DM.
  pose proof (Z.mod_pos_bound M 500 ltac:(lia)) as Hr. fold r in Hr.
  assert (Hq : 0 <= q) by (apply Z.div_pos; lia).
  destruct (Z.eq_dec r 0) as [Er | Er].
  - (* a whole number of points: the product rounds to it *)
    assert (H25 : M mod 25 = 0).
    { rewrite DM, Er. replace (500 * q + 0) with (q * 20 * 25) by lia.
      apply Z.mod_mul. lia. }
    specialize (Bex H25). fold F W in Bex.
    assert (Ps : 2 ^ s = 2 ^ (- e) * 2 ^ u).
    { unfold u. rewrite <- pow2_split by lia. f_equal. lia. }
    set (g := q * 2 ^ (- e)).
    assert (Eg : mx = g * 36028797018963970).
    { assert (E5 : 5 * (mx * 2 ^ u) = 5 * (g * 36028797018963970 * 2 ^ u)).
      { rewrite Emx. unfold g.
        replace (5 * (q * 2 ^ (- e) * 36028797018963970 * 2 ^ u))
          with (5 * q * (2 ^ (- e) * 2 ^ u) * 36028797018963970) by ring.
        rewrite <- Ps. unfold W in Bex.
        assert (EM : M = 500 * q) by lia. rewrite EM in Bex. lia. }
      apply (mul_cancel_pos _ _ (2 ^ u)); lia. }
    assert (Pn : 2 ^ (n + 53) = 2 ^ (n - 1) * 18014398509481984).
    { change 18014398509481984 with (2 ^ 54). rewrite <- pow2_split by lia.
      f_equal. lia. }
    pose proof (pow2_pos (n - 1) ltac:(lia)) as Hpn1.
    assert (Hg : 0 <= g) by (unfold g; apply Z.mul_nonneg_nonneg; lia).
    assert (Hdelta : 2 * g < 2 ^ (n - 1)).
    { rewrite Eg, Pn in Bmx. lia. }
    assert (Pn' : 2 ^ n = 2 * 2 ^ (n - 1)).
    { replace n with (1 + (n - 1)) at 1 by lia. rewrite pow2_split by lia.
      reflexivity. }
    assert (EQ : g * 36028797018963968 = g * 2 ^ (55 - n) * 2 ^ n).
    { change 36028797018963968 with (2 ^ 55).
      rewrite <- Z.mul_assoc, <- pow2_split by lia. f_equal. f_equal. lia. }
    assert (ERn : Rr = Z.pos mh * 2 ^ (eh - e + 55 - n) * 2 ^ n).
    { unfold Rr. rewrite <- Z.mul_assoc, <- pow2_split by lia. f_equal. f_equal.
      lia. }
    assert (Hclose : Z.abs (Z.pos mh * 2 ^ (eh - e + 55 - n) * 2 ^ n
                            - g * 2 ^ (55 - n) * 2 ^ n) < 2 ^ n).
    { rewrite <- ERn, <- EQ. lia. }
    apply multiple_within in Hclose; [|lia].
    assert (Emh : Z.pos mh = q * L).
    { assert (E1 : Rr = g * 36028797018963968) by (rewrite ERn, EQ, Hclose; ring).
      assert (P55 : 36028797018963968 * 2 ^ (- e) = 2 ^ (eh - e + 55) * L).
      { change 36028797018963968 with (2 ^ 55). unfold L.
        rewrite <- !pow2_split by lia. f_equal. lia. }
      unfold Rr, g in E1.
      assert (E2 : Z.pos mh * 2 ^ (eh - e + 55) = q * L * 2 ^ (eh - e + 55)).
      { rewrite E1. replace (q * 2 ^ (- e) * 36028797018963968)
          with (q * (36028797018963968 * 2 ^ (- e))) by ring.
        rewrite P55. ring. }
      apply (mul_cancel_pos _ _ (2 ^ (eh - e + 55))); assumption. }
    rewrite Emh, Z.mod_mul, Z.div_mul by lia. cbn [Z.eqb].
    apply (Z.div_unique _ 500 _ 499); lia.
  - (* otherwise the error is less than a 500th *)
    assert (HE1 : Z.abs ((Rr - mx) * 2 ^ u) <= 18014398509481984).
    { apply (abs_mul_le _ _ 4503599627370496 4); lia. }
    set (Hs' := Z.pos mh * 2 ^ a) in *.
    assert (HX : Z.abs (500 * Hs' - M * 2 ^ (s + 3)) <= 3312).
    { rewrite HLam8. replace (M * (8 * 2 ^ s)) with (8 * W) by (unfold W; ring).
      replace ((Rr - mx) * 2 ^ u) with (Rr * 2 ^ u - mx * 2 ^ u) in HE1 by ring.
      rewrite ER in HE1. lia. }
    rewrite HLam in HX.
    set (Lam := L * 2 ^ a) in *.
    assert (HrL1 : 1 * Lam <= r * Lam) by (apply Z.mul_le_mono_nonneg_r; lia).
    assert (HrL2 : r * Lam <= 499 * Lam) by (apply Z.mul_le_mono_nonneg_r; lia).
    assert (EML : M * Lam = 500 * (q * Lam) + r * Lam) by (rewrite DM at 1; ring).
    assert (Hlo : q * L < Z.pos mh).
    { apply (mul_lt_cancel_pos _ _ (2 ^ a)); [lia|]. fold Hs'.
      replace (q * L * 2 ^ a) with (q * Lam) by (unfold Lam; ring). lia. }
    assert (Hhi : Z.pos mh < (q + 1) * L).
    { apply (mul_lt_cancel_pos _ _ (2 ^ a)); [lia|]. fold Hs'.
      replace ((q + 1) * L * 2 ^ a) with (q * Lam + Lam) by (unfold Lam; ring).
      lia. }
    assert (Ediv : Z.pos mh / L = q).
    { symmetry. apply (Z.div_unique _ L _ (Z.pos mh - q * L)); lia. }
    assert (Emod : Z.pos mh mod L <> 0).
    { pose proof (Z.div_mod (Z.pos mh) L ltac:(lia)) as D. rewrite Ediv in D. lia. }
    rewrite Ediv. apply Z.eqb_neq in Emod. rewrite Emod.
    apply (Z.div_unique _ 500 _ (r - 1)); lia.
Qed.

End PriceRule.

(** X20. For a price written as dollars, a point and two digits of cents,
    below [2^50] cents, [int(math.Ceil(price * 0.2))] is one point for every
    5 dollars, a started one counting whole: neither the [float64] that
    stands for 0.2, which is a little more than a fifth, nor the rounding
    of the price and of the product, ever adds or loses a point. *)
Theorem written_price_bonus `{Platform} (descr : string) (dollars : list Z)
    (cents : Z) :
  Forall (fun d => 0 <= d <= 9) dollars -> 0 <= cents <= 99 ->
  amountCents dollars cents < 2 ^ 50 ->
  descriptionBonus {| ShortDescr := descr; Price := writeAmount dollars cents |}
  = (amountCents dollars cents + 499) / 500.
Proof.
  intros Hds Hc HM.
  destruct (amountCents_cents dollars cents Hds Hc) as (H0 & _ & _).
  unfold descriptionBonus, itemPrice. cbn [Price].
  rewrite ParseFloat_writeAmount by assumption.
  destruct (Z.eqb_spec (amountCents dollars cents) 0) as [E0 | E0].
  - rewrite E0, c0_2_value. reflexivity.
  - apply fifth_cents. lia.
Qed.

Lemma written_price_bonus_12_25 :
  writeAmount [1; 2] 25 = "12.25"
  /\ @descriptionBonus amd64 {| ShortDescr := "Emils Cheese Pizza"; Price := "12.25" |}
     = 3.
Proof.
  split; [reflexivity |].
  apply (@written_price_bonus amd64 "Emils Cheese Pizza" [1; 2] 25).
  - repeat constructor; lia.
  - lia.
  - reflexivity.
Defined.
